(** * A Rocq model of the web crawler (package [crawler] and [main]).

    The crawler is a small Go program: [Crawl] parses a seed URL, starts
    [workerCount] fetch workers ([getPages]) over one frontier channel,
    merges their outputs and runs a result loop that deduplicates links
    and keeps a [sync.WaitGroup] of outstanding work.  Link extraction
    ([collectLinks], [formatURL]) is built on Go's [net/url].

    Go strings are byte sequences and are modelled as [list ascii].
    The parts of the Go standard library that the crawler calls
    ([strings], [net/url], [strconv.Atoi]) are modelled after the Go 1.11
    sources, function by function, under the same names. *)

From Stdlib Require Import List Ascii String Bool Arith Lia ZArith Permutation.
Import ListNotations.

Set Implicit Arguments.

(** ** Go strings *)

Abbreviation gostring := (list ascii).

(** [str "abc"] is the Go string literal ["abc"]. *)
Definition str (s : string) : gostring := list_ascii_of_string s.

Fixpoint gostring_eqb (s t : gostring) : bool :=
  match s, t with
  | [], [] => true
  | c :: s', d :: t' => Ascii.eqb c d && gostring_eqb s' t'
  | _, _ => false
  end.

Definition is_empty (s : gostring) : bool :=
  match s with [] => true | _ => false end.

(** A byte [c] with [lo <= c <= hi]. *)
Definition between (lo hi c : ascii) : bool :=
  Ascii.leb lo c && Ascii.leb c hi.

Module strings.

Fixpoint HasPrefix (s prefix : gostring) : bool :=
  match prefix, s with
  | [], _ => true
  | c :: p', d :: s' => Ascii.eqb c d && HasPrefix s' p'
  | _ :: _, [] => false
  end.

Definition HasSuffix (s suffix : gostring) : bool :=
  HasPrefix (rev s) (rev suffix).

(** [Index s sep] is the first position of [sep] in [s]; Go's [-1] is
    [None]. *)
Fixpoint Index (s sep : gostring) {struct s} : option nat :=
  if HasPrefix s sep then Some 0
  else match s with
       | [] => None
       | _ :: s' => option_map S (Index s' sep)
       end.

Fixpoint LastIndex (s sep : gostring) {struct s} : option nat :=
  match s with
  | [] => if HasPrefix [] sep then Some 0 else None
  | _ :: s' =>
      match LastIndex s' sep with
      | Some i => Some (S i)
      | None => if HasPrefix s sep then Some 0 else None
      end
  end.

Fixpoint IndexByte (s : gostring) (c : ascii) : option nat :=
  match s with
  | [] => None
  | d :: s' => if Ascii.eqb d c then Some 0 else option_map S (IndexByte s' c)
  end.

Definition Contains (s sep : gostring) : bool :=
  match Index s sep with Some _ => true | None => false end.

(** [Count] for a one-byte separator, the only use in [net/url]. *)
Fixpoint Count (s : gostring) (c : ascii) : nat :=
  match s with
  | [] => 0
  | d :: s' => (if Ascii.eqb d c then 1 else 0) + Count s' c
  end.

Definition TrimPrefix (s prefix : gostring) : gostring :=
  if HasPrefix s prefix then skipn (List.length prefix) s else s.

(** [Split] for a one-byte separator; [Split "" sep] is [[""]]. *)
Fixpoint Split (s : gostring) (sep : ascii) : list gostring :=
  match s with
  | [] => [[]]
  | c :: s' =>
      if Ascii.eqb c sep then [] :: Split s' sep
      else match Split s' sep with
           | seg :: segs => (c :: seg) :: segs
           | [] => [[c]]
           end
  end.

Fixpoint Join (elems : list gostring) (sep : gostring) : gostring :=
  match elems with
  | [] => []
  | [e] => e
  | e :: rest => e ++ sep ++ Join rest sep
  end.

Definition lower (c : ascii) : ascii :=
  if between "A" "Z" c then ascii_of_nat (nat_of_ascii c + 32) else c.

(** [ToLower] on the ASCII letters; the crawler only lowers schemes,
    which [getscheme] restricts to ASCII. *)
Definition ToLower (s : gostring) : gostring := map lower s.

End strings.

(** ** Errors and fallible results

    A Go function returning [(T, error)] returns a [result T]. *)

Inductive error : Type :=
| EscapeError (s : gostring)
| InvalidHostError (s : gostring)
| errorString (msg : string)
| URLError (op : string) (url : gostring) (err : error)
| ErrHttpStatusCode
| Wrapf (cause : error) (url : gostring) (status : Z)
| netError (timeout : bool) (msg : string).

Inductive result (A : Type) : Type :=
| Ok (a : A)
| Err (e : error).
Arguments Ok {A} a.
Arguments Err {A} e.

Definition bind {A B : Type} (r : result A) (k : A -> result B) : result B :=
  match r with
  | Ok a => k a
  | Err e => Err e
  end.

Notation "x <- r ;; k" := (bind r (fun x => k))
  (at level 61, r at next level, right associativity).
Notation "' pat <- r ;; k" := (bind r (fun x => let 'pat := x in k))
  (at level 61, pat pattern, r at next level, right associativity).

Definition is_ok {A : Type} (r : result A) : bool :=
  match r with Ok _ => true | Err _ => false end.

(** ** net/url *)

Module url.

Inductive encoding : Type :=
| encodePath
| encodePathSegment
| encodeHost
| encodeZone
| encodeUserPassword
| encodeQueryComponent
| encodeFragment.

Definition encoding_eqb (m n : encoding) : bool :=
  match m, n with
  | encodePath, encodePath
  | encodePathSegment, encodePathSegment
  | encodeHost, encodeHost
  | encodeZone, encodeZone
  | encodeUserPassword, encodeUserPassword
  | encodeQueryComponent, encodeQueryComponent
  | encodeFragment, encodeFragment => true
  | _, _ => false
  end.

Definition ishex (c : ascii) : bool :=
  between "0" "9" c || between "a" "f" c || between "A" "F" c.

Definition unhex (c : ascii) : nat :=
  if between "0" "9" c then nat_of_ascii c - 48
  else if between "a" "f" c then nat_of_ascii c - 97 + 10
  else if between "A" "F" c then nat_of_ascii c - 65 + 10
  else 0.

Definition is_alnum (c : ascii) : bool :=
  between "A" "Z" c || between "a" "z" c || between "0" "9" c.

Definition one_of (cs : string) (c : ascii) : bool :=
  existsb (Ascii.eqb c) (list_ascii_of_string cs).

(** The double quote. *)
Definition dquote : ascii := ascii_of_nat 34.

(** [shouldEscape c mode]: must [c] be escaped in this part of a URL? *)
Definition shouldEscape (c : ascii) (mode : encoding) : bool :=
  if is_alnum c then false
  else if (encoding_eqb mode encodeHost || encoding_eqb mode encodeZone)
          && (one_of "!$&'()*+,;=:[]<>" c || Ascii.eqb c dquote) then false
  else if one_of "-_.~" c then false
  else if one_of "$&+,/:;=?@" c then
    match mode with
    | encodePath => Ascii.eqb c "?"
    | encodePathSegment => one_of "/;,?" c
    | encodeUserPassword => one_of "@/?:" c
    | encodeQueryComponent => true
    | encodeFragment => false
    | encodeHost | encodeZone => true
    end
  else true.

(** The byte with hexadecimal digits [h1 h2]. *)
Definition hexbyte (h1 h2 : ascii) : ascii :=
  ascii_of_nat (unhex h1 * 16 + unhex h2).

Definition is_pct25 (h1 h2 : ascii) : bool :=
  Ascii.eqb h1 "2" && Ascii.eqb h2 "5".

(** [unescape s mode]: Go validates the whole string in a first pass
    and decodes in a second; the first error met from the left is the
    one returned, as here. *)
Fixpoint unescape (s : gostring) (mode : encoding) : result gostring :=
  match s with
  | [] => Ok []
  | "%"%char :: rest =>
      match rest with
      | h1 :: h2 :: rest' =>
          if negb (ishex h1 && ishex h2) then Err (EscapeError (firstn 3 s))
          else if encoding_eqb mode encodeHost && (unhex h1 <? 8)
                  && negb (is_pct25 h1 h2)
          then Err (EscapeError (firstn 3 s))
          else if encoding_eqb mode encodeZone
                  && negb (is_pct25 h1 h2)
                  && negb (Ascii.eqb (hexbyte h1 h2) " ")
                  && shouldEscape (hexbyte h1 h2) encodeHost
          then Err (EscapeError (firstn 3 s))
          else t <- unescape rest' mode ;; Ok (hexbyte h1 h2 :: t)
      | _ => Err (EscapeError (firstn 3 s))
      end
  | "+"%char :: rest =>
      t <- unescape rest mode ;;
      Ok ((if encoding_eqb mode encodeQueryComponent then " " else "+")%char :: t)
  | c :: rest =>
      if (encoding_eqb mode encodeHost || encoding_eqb mode encodeZone)
         && Ascii.ltb c (ascii_of_nat 128) && shouldEscape c encodeHost
      then Err (InvalidHostError [c])
      else t <- unescape rest mode ;; Ok (c :: t)
  end.

Definition hexdigit (n : nat) : ascii :=
  nth n (list_ascii_of_string "0123456789ABCDEF") "0"%char.

Fixpoint escape (s : gostring) (mode : encoding) : gostring :=
  match s with
  | [] => []
  | c :: rest =>
      if Ascii.eqb c " " && encoding_eqb mode encodeQueryComponent
      then "+"%char :: escape rest mode
      else if shouldEscape c mode
      then "%"%char :: hexdigit (nat_of_ascii c / 16)
                    :: hexdigit (nat_of_ascii c mod 16) :: escape rest mode
      else c :: escape rest mode
  end.

Record Userinfo : Type := mkUserinfo {
  username : gostring;
  password : gostring;
  passwordSet : bool
}.

Definition User (username : gostring) : Userinfo :=
  mkUserinfo username [] false.

Definition UserPassword (username password : gostring) : Userinfo :=
  mkUserinfo username password true.

Definition Userinfo_String (u : Userinfo) : gostring :=
  escape (username u) encodeUserPassword
  ++ (if passwordSet u
      then ":"%char :: escape (password u) encodeUserPassword
      else []).

(** The [URL] struct; the [*Userinfo] pointer is an [option]. *)
Record URL : Type := mkURL {
  Scheme : gostring;
  Opaque : gostring;
  User_ : option Userinfo;
  Host : gostring;
  Path : gostring;
  RawPath : gostring;
  ForceQuery : bool;
  RawQuery : gostring;
  Fragment : gostring
}.

Definition empty_URL : URL := mkURL [] [] None [] [] [] false [] [].

Definition set_Scheme (u : URL) (v : gostring) : URL :=
  mkURL v (Opaque u) (User_ u) (Host u) (Path u) (RawPath u)
        (ForceQuery u) (RawQuery u) (Fragment u).
Definition set_Opaque (u : URL) (v : gostring) : URL :=
  mkURL (Scheme u) v (User_ u) (Host u) (Path u) (RawPath u)
        (ForceQuery u) (RawQuery u) (Fragment u).
Definition set_User (u : URL) (v : option Userinfo) : URL :=
  mkURL (Scheme u) (Opaque u) v (Host u) (Path u) (RawPath u)
        (ForceQuery u) (RawQuery u) (Fragment u).
Definition set_Host (u : URL) (v : gostring) : URL :=
  mkURL (Scheme u) (Opaque u) (User_ u) v (Path u) (RawPath u)
        (ForceQuery u) (RawQuery u) (Fragment u).
Definition set_Path (u : URL) (p rp : gostring) : URL :=
  mkURL (Scheme u) (Opaque u) (User_ u) (Host u) p rp
        (ForceQuery u) (RawQuery u) (Fragment u).
Definition set_ForceQuery (u : URL) (v : bool) : URL :=
  mkURL (Scheme u) (Opaque u) (User_ u) (Host u) (Path u) (RawPath u)
        v (RawQuery u) (Fragment u).
Definition set_RawQuery (u : URL) (v : gostring) : URL :=
  mkURL (Scheme u) (Opaque u) (User_ u) (Host u) (Path u) (RawPath u)
        (ForceQuery u) v (Fragment u).
Definition set_Fragment (u : URL) (v : gostring) : URL :=
  mkURL (Scheme u) (Opaque u) (User_ u) (Host u) (Path u) (RawPath u)
        (ForceQuery u) (RawQuery u) v.

(** [getscheme rawurl]: [(scheme, path)] when [rawurl] is
    [scheme:path], [("", rawurl)] when it has no scheme.  The loop
    index [i] is kept to tell the first byte from the others. *)
Fixpoint getscheme_loop (rawurl s : gostring) (i : nat)
  : result (gostring * gostring) :=
  match s with
  | [] => Ok ([], rawurl)
  | c :: s' =>
      if between "a" "z" c || between "A" "Z" c then
        getscheme_loop rawurl s' (S i)
      else if between "0" "9" c || one_of "+-." c then
        if i =? 0 then Ok ([], rawurl) else getscheme_loop rawurl s' (S i)
      else if Ascii.eqb c ":" then
        if i =? 0 then Err (errorString "missing protocol scheme")
        else Ok (firstn i rawurl, skipn (S i) rawurl)
      else Ok ([], rawurl)
  end.

Definition getscheme (rawurl : gostring) : result (gostring * gostring) :=
  getscheme_loop rawurl rawurl 0.

(** [split s c cutc]: cut [s] at the first [c]. *)
Definition split (s c : gostring) (cutc : bool) : gostring * gostring :=
  match strings.Index s c with
  | None => (s, [])
  | Some i =>
      if cutc then (firstn i s, skipn (i + List.length c) s)
      else (firstn i s, skipn i s)
  end.

Definition validOptionalPort (port : gostring) : bool :=
  match port with
  | [] => true
  | c :: digits =>
      Ascii.eqb c ":" && forallb (between "0" "9") digits
  end.

Definition parseHost (host : gostring) : result gostring :=
  let plain := unescape host encodeHost in
  if strings.HasPrefix host (str "[") then
    match strings.LastIndex host (str "]") with
    | None => Err (errorString "missing ']' in host")
    | Some i =>
        let colonPort := skipn (S i) host in
        if negb (validOptionalPort colonPort)
        then Err (errorString "invalid port after host")
        else
          match strings.Index (firstn i host) (str "%25") with
          | Some zone =>
              host1 <- unescape (firstn zone host) encodeHost ;;
              host2 <- unescape (skipn zone (firstn i host)) encodeZone ;;
              host3 <- unescape (skipn i host) encodeHost ;;
              Ok (host1 ++ host2 ++ host3)
          | None => plain
          end
    end
  else plain.

Definition validUserinfo (s : gostring) : bool :=
  forallb (fun r => is_alnum r || one_of "-._:~!$&'()*+,;=%@" r) s.

Definition parseAuthority (authority : gostring)
  : result (option Userinfo * gostring) :=
  match strings.LastIndex authority (str "@") with
  | None =>
      host <- parseHost authority ;;
      Ok (None, host)
  | Some i =>
      host <- parseHost (skipn (S i) authority) ;;
      let userinfo := firstn i authority in
      if negb (validUserinfo userinfo)
      then Err (errorString "net/url: invalid userinfo")
      else if negb (strings.Contains userinfo (str ":")) then
        userinfo' <- unescape userinfo encodeUserPassword ;;
        Ok (Some (User userinfo'), host)
      else
        let (username, password) := split userinfo (str ":") true in
        username' <- unescape username encodeUserPassword ;;
        password' <- unescape password encodeUserPassword ;;
        Ok (Some (UserPassword username' password'), host)
  end.

(** [setPath] sets [Path] and [RawPath] from an encoded path. *)
Definition setPath (u : URL) (p : gostring) : result URL :=
  path <- unescape p encodePath ;;
  if gostring_eqb p (escape path encodePath)
  then Ok (set_Path u path [])
  else Ok (set_Path u path p).

Definition validEncodedPath (s : gostring) : bool :=
  forallb (fun c => one_of "!$&'()*+,;=:@" c || one_of "[]" c
                    || Ascii.eqb c "%" || negb (shouldEscape c encodePath)) s.

Definition EscapedPath (u : URL) : gostring :=
  let default :=
    if gostring_eqb (Path u) (str "*") then str "*"
    else escape (Path u) encodePath in
  if negb (is_empty (RawPath u)) && validEncodedPath (RawPath u) then
    match unescape (RawPath u) encodePath with
    | Ok p => if gostring_eqb p (Path u) then RawPath u else default
    | Err _ => default
    end
  else default.

(** [parse rawurl viaRequest] with [viaRequest = false], the only way
    [Parse] calls it. *)
Definition parse (rawurl : gostring) : result URL :=
  if gostring_eqb rawurl (str "*") then Ok (set_Path empty_URL (str "*") [])
  else
    '(scheme, rest) <- getscheme rawurl ;;
    let url := set_Scheme empty_URL (strings.ToLower scheme) in
    let '(url, rest) :=
      if strings.HasSuffix rest (str "?") && (strings.Count rest "?" =? 1)
      then (set_ForceQuery url true, firstn (List.length rest - 1) rest)
      else let (rest', q) := split rest (str "?") true in
           (set_RawQuery url q, rest') in
    let colon_first :=
      match strings.Index rest (str ":"), strings.Index rest (str "/") with
      | Some colon, None => true
      | Some colon, Some slash => colon <? slash
      | None, _ => false
      end in
    if negb (strings.HasPrefix rest (str "/")) && negb (is_empty (Scheme url))
    then Ok (set_Opaque url rest)
    else if negb (strings.HasPrefix rest (str "/")) && colon_first
    then Err (errorString "first path segment in URL cannot contain colon")
    else
      '(url, rest) <-
        (if (negb (is_empty (Scheme url))
             || negb (strings.HasPrefix rest (str "///")))
            && strings.HasPrefix rest (str "//")
         then
           let (authority, rest') := split (skipn 2 rest) (str "/") false in
           '(user, host) <- parseAuthority authority ;;
           Ok (set_Host (set_User url user) host, rest')
         else Ok (url, rest)) ;;
      setPath url rest.

(** [Parse rawurl]: cut the fragment off, parse the rest. *)
Definition Parse (rawurl : gostring) : result URL :=
  let (u, frag) := split rawurl (str "#") true in
  match parse u with
  | Err err => Err (URLError "parse" u err)
  | Ok url =>
      if is_empty frag then Ok url
      else match unescape frag encodeFragment with
           | Err err => Err (URLError "parse" rawurl err)
           | Ok f => Ok (set_Fragment url f)
           end
  end.

Definition String (u : URL) : gostring :=
  (if is_empty (Scheme u) then [] else Scheme u ++ str ":")
  ++ (if negb (is_empty (Opaque u)) then Opaque u
      else
        let authority :=
          if negb (is_empty (Scheme u)) || negb (is_empty (Host u))
             || (match User_ u with Some _ => true | None => false end)
          then
            (if negb (is_empty (Host u)) || negb (is_empty (Path u))
                || (match User_ u with Some _ => true | None => false end)
             then str "//" else [])
            ++ (match User_ u with
                | Some ui => Userinfo_String ui ++ str "@"
                | None => []
                end)
            ++ escape (Host u) encodeHost
          else [] in
        let path := EscapedPath u in
        let slash :=
          if negb (is_empty path) && negb (strings.HasPrefix path (str "/"))
             && negb (is_empty (Host u))
          then str "/" else [] in
        let dot :=
          if is_empty (Scheme u) && is_empty (authority ++ slash) then
            match strings.IndexByte path ":" with
            | Some i =>
                match strings.IndexByte (firstn i path) "/" with
                | None => str "./"
                | Some _ => []
                end
            | None => []
            end
          else [] in
        authority ++ slash ++ dot ++ path)
  ++ (if ForceQuery u || negb (is_empty (RawQuery u))
      then "?"%char :: RawQuery u else [])
  ++ (if is_empty (Fragment u) then []
      else "#"%char :: escape (Fragment u) encodeFragment).

Definition is_dot (elem : gostring) : bool := gostring_eqb elem (str ".").
Definition is_dotdot (elem : gostring) : bool := gostring_eqb elem (str "..").

(** The loop of [resolvePath] over the segments [src], building [dst]:
    ["."] is dropped, [".."] pops the last segment kept so far. *)
Fixpoint resolve_segments (src dst : list gostring) : list gostring :=
  match src with
  | [] => dst
  | elem :: src' =>
      if is_dot elem then resolve_segments src' dst
      else if is_dotdot elem then resolve_segments src' (removelast dst)
      else resolve_segments src' (dst ++ [elem])
  end.

(** [resolvePath base ref]: RFC 3986 section 5.2 on two encoded paths. *)
Definition resolvePath (base ref : gostring) : gostring :=
  let full :=
    match ref with
    | [] => base
    | c :: _ =>
        if Ascii.eqb c "/" then ref
        else match strings.LastIndex base (str "/") with
             | Some i => firstn (S i) base ++ ref
             | None => ref
             end
    end in
  if is_empty full then []
  else
    let src := strings.Split full "/" in
    let dst := resolve_segments src [] in
    let last := List.last src [] in
    let dst := if is_dot last || is_dotdot last then dst ++ [[]] else dst in
    "/"%char :: strings.TrimPrefix (strings.Join dst (str "/")) (str "/").

(** [setPath] with its error dropped, as [ResolveReference] calls it:
    on an error the receiver is left as it was. *)
Definition setPath_ignore (u : URL) (p : gostring) : URL :=
  match setPath u p with
  | Ok u' => u'
  | Err _ => u
  end.

Definition ResolveReference (u ref : URL) : URL :=
  let url := ref in
  let url := if is_empty (Scheme ref) then set_Scheme url (Scheme u) else url in
  if negb (is_empty (Scheme ref)) || negb (is_empty (Host ref))
     || (match User_ ref with Some _ => true | None => false end)
  then setPath_ignore url (resolvePath (EscapedPath ref) [])
  else if negb (is_empty (Opaque ref))
  then set_Path (set_Host (set_User url None) []) [] (RawPath url)
  else
    let url :=
      if is_empty (Path ref) && is_empty (RawQuery ref) then
        let url := set_RawQuery url (RawQuery u) in
        if is_empty (Fragment ref) then set_Fragment url (Fragment u) else url
      else url in
    let url := set_Host url (Host u) in
    let url := set_User url (User_ u) in
    setPath_ignore url (resolvePath (EscapedPath u) (EscapedPath ref)).

(** [u.Parse(ref)]: parse [ref] in the context of [u]. *)
Definition URL_Parse (u : URL) (ref : gostring) : result URL :=
  refurl <- Parse ref ;;
  Ok (ResolveReference u refurl).

Definition stripPort (hostport : gostring) : gostring :=
  match strings.IndexByte hostport ":" with
  | None => hostport
  | Some colon =>
      match strings.IndexByte hostport "]" with
      | Some i => strings.TrimPrefix (firstn i hostport) (str "[")
      | None => firstn colon hostport
      end
  end.

Definition Hostname (u : URL) : gostring := stripPort (Host u).

End url.


(** ** Panics

    A Go function that may [panic] has an [outcome]. *)

Inductive outcome (A : Type) : Type :=
| Returns (a : A)
| Panics (e : error).
Arguments Returns {A} a.
Arguments Panics {A} e.

(** ** Errors as the result loop inspects them *)

(** [errors.Cause]: unwrap down to the innermost error. *)
Fixpoint Cause (err : error) : error :=
  match err with
  | Wrapf cause _ _ => Cause cause
  | _ => err
  end.

Definition is_ErrHttpStatusCode (err : error) : bool :=
  match err with ErrHttpStatusCode => true | _ => false end.

(** [err.(net.Error)] succeeds on network errors and on the [*url.Error]
    an [http.Client] returns; [Timeout] of a [*url.Error] is that of the
    error it wraps. *)
Definition is_net_Error (err : error) : bool :=
  match err with
  | netError _ _ | URLError _ _ _ => true
  | _ => false
  end.

Fixpoint Timeout (err : error) : bool :=
  match err with
  | netError timeout _ => timeout
  | URLError _ _ err' => Timeout err'
  | _ => false
  end.

(** ** Package crawler *)

Module crawler.
Import url.

Record Page : Type := mkPage {
  URL_ : URL;
  Links : list URL
}.

Definition tab : ascii := ascii_of_nat 9.
Definition newline : ascii := ascii_of_nat 10.

Definition Marshal (p : Page) : gostring :=
  fold_left (fun out link => out ++ tab :: String link ++ [newline])
            (Links p)
            (str "URL:" ++ newline :: tab :: String (URL_ p)
             ++ newline :: str "Links: " ++ [newline]).

(** *** Link extraction *)

(** A token of [html.Tokenizer]: its [Data] and attributes.  A page
    body is represented by the tokens the tokenizer yields for it, up
    to the final [ErrorToken]. *)
Record Attribute : Type := mkAttribute {
  Key : gostring;
  Val : gostring
}.

Record Token : Type := mkToken {
  Data : gostring;
  Attr : list Attribute
}.

(** [formatURL] resolves [rawURL] against the page it was found on
    and strips the fragment; [nil] is [None].  A parse error panics. *)
Definition formatURL (pageURL : URL) (rawURL : gostring)
  : outcome (option URL) :=
  match URL_Parse pageURL rawURL with
  | Err err => Panics err
  | Ok rel =>
      if gostring_eqb (Scheme rel) (str "http")
         || gostring_eqb (Scheme rel) (str "https")
      then Returns (Some (set_Fragment rel []))
      else Returns None
  end.

(** The inner loop of [collectLinks] over the attributes of one tag. *)
Fixpoint collect_attrs (pageURL : URL) (attrs : list Attribute)
         (links : list URL) : outcome (list URL) :=
  match attrs with
  | [] => Returns links
  | attr :: attrs' =>
      if gostring_eqb (Key attr) (str "href") then
        match formatURL pageURL (Val attr) with
        | Panics e => Panics e
        | Returns (Some link) => collect_attrs pageURL attrs' (links ++ [link])
        | Returns None => collect_attrs pageURL attrs' links
        end
      else collect_attrs pageURL attrs' links
  end.

Fixpoint collectLinks_loop (pageURL : URL) (tokens : list Token)
         (links : list URL) : outcome (list URL) :=
  match tokens with
  | [] => Returns links
  | tag :: tokens' =>
      if gostring_eqb (Data tag) (str "a") then
        match collect_attrs pageURL (Attr tag) links with
        | Panics e => Panics e
        | Returns links' => collectLinks_loop pageURL tokens' links'
        end
      else collectLinks_loop pageURL tokens' links
  end.

Definition collectLinks (pageURL : URL) (r : list Token) : outcome (list URL) :=
  collectLinks_loop pageURL r [].

(** *** Fetch workers *)

(** An [*http.Response]: the status code, what reading the body to
    its end gives, and what closing it gives. *)
Record Response : Type := mkResponse {
  StatusCode : Z;
  Body_Read : result (list Token);
  Body_Close : option error
}.

(** The [httpClient] interface: [Get]. *)
Definition httpClient : Type := gostring -> result Response.

(** What a worker sends: a page on [pages] or an error on [errs]. *)
Inductive emit : Type :=
| EmitPage (p : Page)
| EmitErr (e : error).

(** What the worker does after the send: [continue] (or the end of the
    loop body) takes the next URL, [return] leaves the loop. *)
Inductive next : Type :=
| Continue
| Return.

(** The body of the [for url := range urls] loop of [getPages]. *)
Definition getPages_body (client : httpClient) (url : URL)
  : outcome (emit * next) :=
  match client (String url) with
  | Err err => Returns (EmitErr err, Return)
  | Ok resp =>
      if (StatusCode resp >=? 400)%Z then
        Returns (EmitErr (Wrapf ErrHttpStatusCode (String url) (StatusCode resp)),
                 Continue)
      else
        match Body_Read resp with
        | Err err => Returns (EmitErr err, Return)
        | Ok buf =>
            match Body_Close resp with
            | Some err => Returns (EmitErr err, Return)
            | None =>
                match collectLinks url buf with
                | Panics e => Panics e
                | Returns links => Returns (EmitPage (mkPage url links), Continue)
                end
            end
        end
  end.

(** How a worker goroutine ends. *)
Inductive worker_end : Type :=
| FrontierClosed
| ReturnedEarly (unread : list URL)
| Panicked (e : error).

(** One worker run against a frontier that offers [urls] and is then
    closed: what it sends, in order, and how it ends. *)
Fixpoint getPages (client : httpClient) (urls : list URL)
  : list emit * worker_end :=
  match urls with
  | [] => ([], FrontierClosed)
  | url :: urls' =>
      match getPages_body client url with
      | Panics e => ([], Panicked e)
      | Returns (out, Return) => ([out], ReturnedEarly urls')
      | Returns (out, Continue) =>
          let (outs, e) := getPages client urls' in (out :: outs, e)
      end
  end.

(** *** [Crawl] as a transition system

    [Crawl] runs several goroutines over unbuffered channels.  Each
    goroutine is a small state machine that records where it is
    blocked; a step is one communication or one operation on shared
    state ([wg], the channels).  The scheduler's choice is the
    [action] label. *)

(** A worker goroutine of [getPages]. *)
Inductive worker_state : Type :=
| WRecv                             (* at [for url := range urls] *)
| WSend (out : emit) (after : next) (* at [errs <- err] or [pages <- page] *)
| WReturning                        (* left the loop, deferred calls pending *)
| WErrsClosed                       (* ran [close(errs)] *)
| WExited.                          (* ran [close(pages)] *)

(** A forwarding goroutine of [mergePages] or [mergeErrors]. *)
Inductive merger_state (A : Type) : Type :=
| MRecv                             (* at [for x := range ch] *)
| MHold (a : A)                     (* at [out <- x] *)
| MExit.                            (* ran [wg.Done()] *)
Arguments MRecv {A}.
Arguments MHold {A} a.
Arguments MExit {A}.

(** One worker with the two goroutines that forward its channels. *)
Record pipeline : Type := mkPipeline {
  worker : worker_state;
  pageMerger : merger_state Page;
  errMerger : merger_state error
}.

(** The goroutine [defer close(newURLs); wg.Wait()]. *)
Inductive closer_state : Type :=
| CWait                             (* in [wg.Wait()] *)
| CWoken                            (* [wg.Wait()] returned *)
| CClosed.                          (* ran [close(newURLs)] *)

(** The result loop of [Crawl]. *)
Inductive loop_state : Type :=
| LSelect                                  (* at [select] *)
| LLinks (links : list URL)                (* in [for _, link := range page.Links] *)
| LSpawn (newURL : URL) (links : list URL) (* after [wg.Add(1)], at the [go] statement *)
| LDone                                    (* at [wg.Done()] *)
| LReturned (r : option error).            (* [Crawl] returned [r] *)

Record state : Type := mkState {
  wg : Z;                     (* the [sync.WaitGroup] counter *)
  cache : list gostring;      (* the keys of [cache] *)
  pending : list URL;         (* goroutines blocked at [newURLs <- newURL] *)
  closer : closer_state;
  pipelines : list pipeline;
  pagesClosed : bool;         (* the merged page channel is closed *)
  errsClosed : bool;          (* the merged error channel is closed *)
  loop : loop_state;
  written : list gostring;    (* what [out.Write] accepted, in order *)
  printed : list error;       (* what [fmt.Println] printed *)
  panicked : option error     (* a goroutine panicked: the process is dead *)
}.

Definition set_wg st v :=
  mkState v (cache st) (pending st) (closer st) (pipelines st)
          (pagesClosed st) (errsClosed st) (loop st) (written st)
          (printed st) (panicked st).
Definition set_cache st v :=
  mkState (wg st) v (pending st) (closer st) (pipelines st)
          (pagesClosed st) (errsClosed st) (loop st) (written st)
          (printed st) (panicked st).
Definition set_pending st v :=
  mkState (wg st) (cache st) v (closer st) (pipelines st)
          (pagesClosed st) (errsClosed st) (loop st) (written st)
          (printed st) (panicked st).
Definition set_closer st v :=
  mkState (wg st) (cache st) (pending st) v (pipelines st)
          (pagesClosed st) (errsClosed st) (loop st) (written st)
          (printed st) (panicked st).
Definition set_pipelines st v :=
  mkState (wg st) (cache st) (pending st) (closer st) v
          (pagesClosed st) (errsClosed st) (loop st) (written st)
          (printed st) (panicked st).
Definition set_pagesClosed st v :=
  mkState (wg st) (cache st) (pending st) (closer st) (pipelines st)
          v (errsClosed st) (loop st) (written st)
          (printed st) (panicked st).
Definition set_errsClosed st v :=
  mkState (wg st) (cache st) (pending st) (closer st) (pipelines st)
          (pagesClosed st) v (loop st) (written st)
          (printed st) (panicked st).
Definition set_loop st v :=
  mkState (wg st) (cache st) (pending st) (closer st) (pipelines st)
          (pagesClosed st) (errsClosed st) v (written st)
          (printed st) (panicked st).
Definition set_written st v :=
  mkState (wg st) (cache st) (pending st) (closer st) (pipelines st)
          (pagesClosed st) (errsClosed st) (loop st) v
          (printed st) (panicked st).
Definition set_printed st v :=
  mkState (wg st) (cache st) (pending st) (closer st) (pipelines st)
          (pagesClosed st) (errsClosed st) (loop st) (written st)
          v (panicked st).
Definition set_panicked st v :=
  mkState (wg st) (cache st) (pending st) (closer st) (pipelines st)
          (pagesClosed st) (errsClosed st) (loop st) (written st)
          (printed st) v.

Definition set_worker (p : pipeline) (w : worker_state) : pipeline :=
  mkPipeline w (pageMerger p) (errMerger p).
Definition set_pageMerger (p : pipeline) (m : merger_state Page) : pipeline :=
  mkPipeline (worker p) m (errMerger p).
Definition set_errMerger (p : pipeline) (m : merger_state error) : pipeline :=
  mkPipeline (worker p) (pageMerger p) m.

(** [update i x l]: [l] with its [i]-th element replaced by [x]. *)
Fixpoint update {A : Type} (i : nat) (x : A) (l : list A) : list A :=
  match l, i with
  | [], _ => []
  | _ :: l', O => x :: l'
  | y :: l', S i' => y :: update i' x l'
  end.

(** [remove_nth k l]: [l] without its [k]-th element. *)
Fixpoint remove_nth {A : Type} (k : nat) (l : list A) : list A :=
  match l, k with
  | [], _ => []
  | _ :: l', O => l'
  | y :: l', S k' => y :: remove_nth k' l'
  end.

Definition is_MExit {A : Type} (m : merger_state A) : bool :=
  match m with MExit => true | _ => false end.

(** The [io.Writer]: given what it accepted so far and the next
    chunk, the error of [Write], if any. *)
Definition Writer : Type := list gostring -> gostring -> option error.

Definition in_cache (key : gostring) (cache : list gostring) : bool :=
  existsb (gostring_eqb key) cache.

(** The scheduler's choices. *)
Inductive action : Type :=
| APublish (k i : nat)       (* the [k]-th blocked [newURLs <- u] meets worker [i] *)
| APublishClosed (k : nat)   (* the [k]-th blocked send finds [newURLs] closed *)
| AWait                      (* [wg.Wait()] returns *)
| ACloseFrontier             (* [close(newURLs)] *)
| ARangeEnds (i : nat)       (* worker [i] finds [urls] closed *)
| AWorkerSend (i : nat)      (* worker [i]'s send meets its forwarding goroutine *)
| ACloseErrs (i : nat)       (* worker [i] runs [close(errs)] *)
| AClosePages (i : nat)      (* worker [i] runs [close(pages)] *)
| APageMergerExit (i : nat)  (* the page forwarder of [i] finds its input closed *)
| AErrMergerExit (i : nat)   (* the error forwarder of [i] finds its input closed *)
| AClosePagesOut             (* [mergePages] closes its output *)
| ACloseErrsOut              (* [mergeErrors] closes its output *)
| ASelectPage (i : nat)      (* [case page, ok := <-pageChan], [ok] true *)
| ASelectErr (i : nat)       (* [case err, ok := <-errChan], [ok] true *)
| ASelectPagesClosed         (* [case page, ok := <-pageChan], [ok] false *)
| ASelectErrsClosed          (* [case err, ok := <-errChan], [ok] false *)
| ALink                      (* one iteration over [page.Links], up to [wg.Add(1)] *)
| ASpawn                     (* the [go] statement publishing the link *)
| AEndLinks                  (* the range over [page.Links] ends *)
| ADone.                     (* [wg.Done()] *)

Section Crawl.

Variable client : httpClient.
Variable out : Writer.
Variable seedURL : URL.

Definition panic (st : state) (msg : string) : state :=
  set_panicked st (Some (errorString msg)).

(** The error branch of the [select]: status and timeout errors are
    printed and the loop goes on to [wg.Done()]; any other error is
    returned. *)
Definition handle_error (st : state) (err : error) : state :=
  if is_ErrHttpStatusCode (Cause err)
  then set_loop (set_printed st (printed st ++ [err])) LDone
  else if is_net_Error err && Timeout err
  then set_loop (set_printed st (printed st ++ [err])) LDone
  else set_loop st (LReturned (Some err)).

(** The page branch up to the range over the links. *)
Definition handle_page (st : state) (page : Page) : state :=
  match out (written st) (Marshal page) with
  | Some err => set_loop st (LReturned (Some err))
  | None =>
      set_loop (set_written st (written st ++ [Marshal page]))
               (LLinks (Links page))
  end.

(** One iteration of the range over the links. *)
Definition handle_link (st : state) (link : URL) (rest : list URL) : state :=
  if gostring_eqb (Hostname link) (Hostname seedURL) then
    if in_cache (String link) (cache st) then set_loop st (LLinks rest)
    else set_loop
           (set_wg (set_cache st (String link :: cache st)) (wg st + 1)%Z)
           (LSpawn link rest)
  else set_loop st (LLinks rest).

Definition step_unpanicked (st : state) (a : action) : option state :=
  match a with
  | APublish k i =>
      match closer st, nth_error (pending st) k, nth_error (pipelines st) i with
      | CClosed, _, _ => None
      | _, Some u, Some p =>
          match worker p with
          | WRecv =>
              match getPages_body client u with
              | Panics e => Some (set_panicked st (Some e))
              | Returns (o, n) =>
                  Some (set_pipelines
                          (set_pending st (remove_nth k (pending st)))
                          (update i (set_worker p (WSend o n)) (pipelines st)))
              end
          | _ => None
          end
      | _, _, _ => None
      end
  | APublishClosed k =>
      match closer st, nth_error (pending st) k with
      | CClosed, Some _ => Some (panic st "send on closed channel")
      | _, _ => None
      end
  | AWait =>
      match closer st with
      | CWait => if (wg st =? 0)%Z then Some (set_closer st CWoken) else None
      | _ => None
      end
  | ACloseFrontier =>
      match closer st with
      | CWoken => Some (set_closer st CClosed)
      | _ => None
      end
  | ARangeEnds i =>
      match closer st, nth_error (pipelines st) i with
      | CClosed, Some p =>
          match worker p with
          | WRecv => Some (set_pipelines st
                             (update i (set_worker p WReturning) (pipelines st)))
          | _ => None
          end
      | _, _ => None
      end
  | AWorkerSend i =>
      match nth_error (pipelines st) i with
      | Some p =>
          match worker p with
          | WSend o n =>
              let w := match n with Continue => WRecv | Return => WReturning end in
              match o, pageMerger p, errMerger p with
              | EmitPage page, MRecv, _ =>
                  Some (set_pipelines st
                          (update i (set_pageMerger (set_worker p w) (MHold page))
                                  (pipelines st)))
              | EmitErr err, _, MRecv =>
                  Some (set_pipelines st
                          (update i (set_errMerger (set_worker p w) (MHold err))
                                  (pipelines st)))
              | _, _, _ => None
              end
          | _ => None
          end
      | None => None
      end
  | ACloseErrs i =>
      match nth_error (pipelines st) i with
      | Some p =>
          match worker p with
          | WReturning => Some (set_pipelines st
                                  (update i (set_worker p WErrsClosed) (pipelines st)))
          | _ => None
          end
      | None => None
      end
  | AClosePages i =>
      match nth_error (pipelines st) i with
      | Some p =>
          match worker p with
          | WErrsClosed => Some (set_pipelines st
                                   (update i (set_worker p WExited) (pipelines st)))
          | _ => None
          end
      | None => None
      end
  | APageMergerExit i =>
      match nth_error (pipelines st) i with
      | Some p =>
          match worker p, pageMerger p with
          | WExited, MRecv =>
              Some (set_pipelines st
                      (update i (set_pageMerger p MExit) (pipelines st)))
          | _, _ => None
          end
      | None => None
      end
  | AErrMergerExit i =>
      match nth_error (pipelines st) i with
      | Some p =>
          match worker p, errMerger p with
          | WErrsClosed, MRecv | WExited, MRecv =>
              Some (set_pipelines st
                      (update i (set_errMerger p MExit) (pipelines st)))
          | _, _ => None
          end
      | None => None
      end
  | AClosePagesOut =>
      if negb (pagesClosed st)
         && forallb (fun p => is_MExit (pageMerger p)) (pipelines st)
      then Some (set_pagesClosed st true) else None
  | ACloseErrsOut =>
      if negb (errsClosed st)
         && forallb (fun p => is_MExit (errMerger p)) (pipelines st)
      then Some (set_errsClosed st true) else None
  | ASelectPage i =>
      match loop st, nth_error (pipelines st) i with
      | LSelect, Some p =>
          match pageMerger p with
          | MHold page =>
              Some (handle_page
                      (set_pipelines st
                         (update i (set_pageMerger p MRecv) (pipelines st)))
                      page)
          | _ => None
          end
      | _, _ => None
      end
  | ASelectErr i =>
      match loop st, nth_error (pipelines st) i with
      | LSelect, Some p =>
          match errMerger p with
          | MHold err =>
              Some (handle_error
                      (set_pipelines st
                         (update i (set_errMerger p MRecv) (pipelines st)))
                      err)
          | _ => None
          end
      | _, _ => None
      end
  | ASelectPagesClosed =>
      match loop st with
      | LSelect => if pagesClosed st then Some (set_loop st (LReturned None))
                   else None
      | _ => None
      end
  | ASelectErrsClosed =>
      match loop st with
      | LSelect => if errsClosed st then Some (set_loop st (LReturned None))
                   else None
      | _ => None
      end
  | ALink =>
      match loop st with
      | LLinks (link :: rest) => Some (handle_link st link rest)
      | _ => None
      end
  | ASpawn =>
      match loop st with
      | LSpawn newURL rest =>
          Some (set_loop (set_pending st (pending st ++ [newURL])) (LLinks rest))
      | _ => None
      end
  | AEndLinks =>
      match loop st with
      | LLinks [] => Some (set_loop st LDone)
      | _ => None
      end
  | ADone =>
      match loop st with
      | LDone =>
          if (wg st - 1 <? 0)%Z
          then Some (panic st "sync: negative WaitGroup counter")
          else Some (set_loop (set_wg st (wg st - 1)%Z) LSelect)
      | _ => None
      end
  end.

(** A panic ends the process: nothing steps after it. *)
Definition step (st : state) (a : action) : option state :=
  match panicked st with
  | Some _ => None
  | None => step_unpanicked st a
  end.

(** [run st trace]: the state after the schedule [trace], if every
    action of it was enabled in turn. *)
Fixpoint run (st : state) (trace : list action) : option state :=
  match trace with
  | [] => Some st
  | a :: trace' =>
      match step st a with
      | Some st' => run st' trace'
      | None => None
      end
  end.

End Crawl.

(** *** Outstanding work

    The items the counter [wg] stands for: a URL is at a blocked
    publisher, in a worker that fetched it and has its result to send,
    in a forwarding goroutine, or in the hands of the result loop. *)

Definition in_flight (p : pipeline) : Z :=
  (match worker p with WSend _ _ => 1 | _ => 0 end
   + match pageMerger p with MHold _ => 1 | _ => 0 end
   + match errMerger p with MHold _ => 1 | _ => 0 end)%Z.

Definition sum_in_flight (ps : list pipeline) : Z :=
  fold_right (fun p n => (in_flight p + n)%Z) 0%Z ps.

(** The result loop holds the item it took at the [select] until
    [wg.Done()], and, between [wg.Add(1)] and the [go] statement, the
    link it has just counted; a loop that returned an error took an
    item and never ran [wg.Done()] for it. *)
Definition loop_holds (l : loop_state) : Z :=
  match l with
  | LSelect => 0
  | LLinks _ => 1
  | LSpawn _ _ => 2
  | LDone => 1
  | LReturned (Some _) => 1
  | LReturned None => 0
  end.

Definition outstanding (st : state) : Z :=
  (Z.of_nat (List.length (pending st)) + sum_in_flight (pipelines st)
   + loop_holds (loop st))%Z.

(** The counter stands for the outstanding work, and [wg.Wait()] has
    returned only if the counter is zero. *)
Definition counter_inv (st : state) : Prop :=
  wg st = outstanding st /\ (closer st <> CWait -> wg st = 0%Z).

(** A worker that left its loop. *)
Definition left_loop (w : worker_state) : bool :=
  match w with
  | WReturning | WErrsClosed | WExited => true
  | _ => false
  end.

Definition is_closed (c : closer_state) : bool :=
  match c with CClosed => true | _ => false end.

(** A pipeline whose worker leaves its loop only at the end of the
    range over the frontier: the worker has left only if the frontier
    is closed, it has no [return] ahead, and a forwarding goroutine has
    exited only after the worker closed its channel. *)
Definition pipeline_ok (closed : bool) (p : pipeline) : bool :=
  implb (left_loop (worker p)) closed
  && match worker p with WSend _ Return => false | _ => true end
  && implb (is_MExit (pageMerger p))
           match worker p with WExited => true | _ => false end
  && implb (is_MExit (errMerger p))
           match worker p with WErrsClosed | WExited => true | _ => false end.

Definition termination_inv (n : nat) (st : state) : Prop :=
  List.length (pipelines st) = n
  /\ Forall (fun p => pipeline_ok (is_closed (closer st)) p = true) (pipelines st)
  /\ (pagesClosed st = true ->
      forallb (fun p => is_MExit (pageMerger p)) (pipelines st) = true)
  /\ (errsClosed st = true ->
      forallb (fun p => is_MExit (errMerger p)) (pipelines st) = true)
  /\ (loop st = LReturned None -> pagesClosed st = true \/ errsClosed st = true).

(** The fetch of [url] makes the worker [return]: [Get], the read of
    the body or its close gave an error. *)
Definition returns_early (client : httpClient) (url : URL) : bool :=
  match getPages_body client url with
  | Returns (_, Return) => true
  | _ => false
  end.

(** A forwarding goroutine has exited only after its worker closed the
    channel it forwards. *)
Definition merge_ok (p : pipeline) : bool :=
  implb (is_MExit (pageMerger p))
        match worker p with WExited => true | _ => false end
  && implb (is_MExit (errMerger p))
           match worker p with WErrsClosed | WExited => true | _ => false end.

Definition merge_inv (st : state) : Prop :=
  Forall (fun p => merge_ok p = true) (pipelines st)
  /\ (pagesClosed st = true ->
      forallb (fun p => is_MExit (pageMerger p)) (pipelines st) = true)
  /\ (errsClosed st = true ->
      forallb (fun p => is_MExit (errMerger p)) (pipelines st) = true).

(** The two tests of the error branch together: the errors the result
    loop prints and goes on from. *)
Definition absorbed (err : error) : bool :=
  is_ErrHttpStatusCode (Cause err) || (is_net_Error err && Timeout err).

(** Every error a worker can send with [client] passes one of the two
    tests of the result loop. *)
Definition only_absorbed_errors (client : httpClient) : Prop :=
  forall url err after,
    getPages_body client url = Returns (EmitErr err, after) ->
    absorbed err = true.

(** [out.Write] never fails. *)
Definition never_fails (out : Writer) : Prop :=
  forall before chunk, out before chunk = None.

(** The errors on their way to the result loop are all absorbed ones. *)
Definition sends_absorbed (p : pipeline) : bool :=
  match worker p with WSend (EmitErr err) _ => absorbed err | _ => true end
  && match errMerger p with MHold err => absorbed err | _ => true end.

Definition no_error_inv (st : state) : Prop :=
  Forall (fun p => sends_absorbed p = true) (pipelines st)
  /\ forall err, loop st <> LReturned (Some err).

(** The crawler struct and [New]. *)
Record crawler_ : Type := New {
  workerCount : Z;
  httpClient_ : httpClient
}.

(** The state when the result loop is entered: the counter at 1, the
    seed's publisher blocked, [workerCount] workers waiting. *)
Definition init (c : crawler_) (seedURL : URL) : state :=
  mkState 1 [] [seedURL] CWait
          (repeat (mkPipeline WRecv MRecv MRecv) (Z.to_nat (workerCount c)))
          false false LSelect [] [] None.

(** [Crawl] up to the result loop: the seed is parsed, and an error
    is returned before any goroutine is started. *)
Definition Crawl_start (c : crawler_) (rawURL : gostring) : result state :=
  seedURL <- Parse rawURL ;;
  Ok (init c seedURL).

(** An execution of [Crawl] on [rawURL] under the schedule [trace]. *)
Definition Crawl (c : crawler_) (rawURL : gostring) (out : Writer)
           (trace : list action) : result (option state) :=
  seedURL <- Parse rawURL ;;
  Ok (run (httpClient_ c) out seedURL (init c seedURL) trace).

End crawler.

(** ** strconv *)

Module strconv.

Definition digit (ch : ascii) : Z := Z.of_nat (nat_of_ascii ch) - 48.

(** [Atoi]: an optional sign and decimal digits, within [int] (64 bits). *)
Definition Atoi (s : gostring) : result Z :=
  let '(neg, digits) :=
    match s with
    | "-"%char :: r => (true, r)
    | "+"%char :: r => (false, r)
    | _ => (false, s)
    end in
  if is_empty digits || negb (forallb (between "0" "9") digits)
  then Err (errorString "strconv.Atoi: invalid syntax")
  else
    let n := fold_left (fun n ch => n * 10 + digit ch)%Z digits 0%Z in
    let v := if neg then (- n)%Z else n in
    if (v <? - 2 ^ 63)%Z || (2 ^ 63 - 1 <? v)%Z
    then Err (errorString "strconv.Atoi: value out of range")
    else Ok v.

End strconv.

(** ** Package main *)

Module main.

(** How [main] gets on: [log.Fatalf] before the crawl, or the call
    [c.Crawl(url, os.Stdout)] on the crawler it built. *)
Inductive progress : Type :=
| Fatalf (msg : string)
| Crawls (c : crawler.crawler_) (url : gostring).

Section Main.

(** [os.Getenv] and the [http.Client] that [main] builds. *)
Variable Getenv : string -> gostring.
Variable client : crawler.httpClient.

Definition mustGetEnv (k : string) : option gostring :=
  let v := Getenv k in
  if is_empty v then None else Some v.

Definition main : progress :=
  match mustGetEnv "WORKERS" with
  | None => Fatalf "env var 'WORKERS' not set"
  | Some workersStr =>
      match strconv.Atoi workersStr with
      | Err _ => Fatalf "env var 'WORKERS' is non-numeric"
      | Ok workers =>
          if (workers =? 0)%Z
          then Fatalf "env var 'WORKERS' must be greater than zero"
          else
            match mustGetEnv "URL" with
            | None => Fatalf "env var 'URL' not set"
            | Some url => Crawls (crawler.New workers client) url
            end
      end
  end.

End Main.

End main.

(** ** Shapes of encoded strings

    Predicates used to state what [escape], [EscapedPath] and
    [resolvePath] produce. *)

Module shape.
Import url.

(** A digit that [escape] writes after a percent sign. *)
Definition is_upper_hex (c : ascii) : bool := one_of "0123456789ABCDEF" c.

(** Every percent sign is followed by two hexadecimal digits. *)
Fixpoint pct_ok (s : gostring) : bool :=
  match s with
  | [] => true
  | c :: rest =>
      if Ascii.eqb c "%" then
        match rest with
        | h1 :: h2 :: rest' => ishex h1 && ishex h2 && pct_ok rest'
        | _ => false
        end
      else pct_ok rest
  end.

(** The bytes [validEncodedPath] accepts. *)
Definition valid_path_byte (c : ascii) : bool :=
  one_of "!$&'()*+,;=:@" c || one_of "[]" c
  || Ascii.eqb c "%" || negb (shouldEscape c encodePath).

(** A path segment other than ["."] and [".."]. *)
Definition plain_segment (elem : gostring) : bool :=
  negb (is_dot elem) && negb (is_dotdot elem).

(** An encoded path as [resolvePath] leaves it: empty, or rooted and
    free of dot segments. *)
Definition resolved (p : gostring) : bool :=
  match p with
  | [] => true
  | c :: rest => Ascii.eqb c "/" && forallb plain_segment (strings.Split rest "/")
  end.

(** The bytes [validUserinfo] accepts. *)
Definition valid_userinfo_byte (r : ascii) : bool :=
  is_alnum r || one_of "-._:~!$&'()*+,;=%@" r.

(** A [Userinfo] as [parseAuthority] builds it: no password kept when
    none is set. *)
Definition norm_user (ui : Userinfo) : Userinfo :=
  if passwordSet ui then ui else User (username ui).

(** The user part of [String]. *)
Definition user_prefix (user : option Userinfo) : gostring :=
  match user with
  | Some ui => Userinfo_String ui ++ ["@"%char]
  | None => []
  end.

(** The two halves of [resolvePath]: the reference is merged with the
    base, then the dot segments are removed. *)
Definition merge_paths (base ref : gostring) : gostring :=
  match ref with
  | [] => base
  | c :: _ =>
      if Ascii.eqb c "/" then ref
      else match strings.LastIndex base (str "/") with
           | Some i => firstn (S i) base ++ ref
           | None => ref
           end
  end.

Definition kept_segments (full : gostring) : list gostring :=
  let src := strings.Split full "/" in
  let dst := resolve_segments src [] in
  let last := List.last src [] in
  if is_dot last || is_dotdot last then dst ++ [[]] else dst.

Definition remove_dots (full : gostring) : gostring :=
  if is_empty full then []
  else "/"%char :: strings.TrimPrefix (strings.Join (kept_segments full) (str "/"))
                                      (str "/").

(** The query part of [String]. *)
Definition query_suffix (u : URL) : gostring :=
  if ForceQuery u || negb (is_empty (RawQuery u))
  then "?"%char :: RawQuery u else [].

End shape.

(** ** What a page offers and what an execution did

    Closed forms and histories used to state properties of the code. *)

Module history.
Import url crawler.

(** The [href] values of the anchor tags of a page, in document order. *)
Definition hrefs (tokens : list Token) : list gostring :=
  flat_map (fun tag =>
              if gostring_eqb (Data tag) (str "a")
              then map Val (filter (fun attr => gostring_eqb (Key attr) (str "href"))
                                   (Attr tag))
              else [])
           tokens.

(** The link [formatURL] keeps for a reference, if any. *)
Definition kept (pageURL : URL) (rawURL : gostring) : list URL :=
  match formatURL pageURL rawURL with
  | Returns (Some link) => [link]
  | _ => []
  end.

(** One line of [Marshal] per link. *)
Definition link_line (link : URL) : gostring :=
  tab :: String link ++ [newline].

Section History.

Variable client : httpClient.
Variable out : Writer.
Variable seedURL : URL.

(** The links admitted along a schedule (the iterations of the range
    over [page.Links] that reached [wg.Add(1)]), oldest first. *)
Fixpoint admitted (st : state) (trace : list action) : list URL :=
  match trace with
  | [] => []
  | a :: trace' =>
      match step client out seedURL st a with
      | Some st' =>
          match a, loop st' with
          | ALink, LSpawn newURL _ => newURL :: admitted st' trace'
          | _, _ => admitted st' trace'
          end
      | None => []
      end
  end.

(** The URLs workers took from the frontier along a schedule, oldest
    first. *)
Fixpoint fetched (st : state) (trace : list action) : list URL :=
  match trace with
  | [] => []
  | a :: trace' =>
      match step client out seedURL st a with
      | Some st' =>
          match a with
          | APublish k _ =>
              match nth_error (pending st) k with
              | Some u => u :: fetched st' trace'
              | None => fetched st' trace'
              end
          | _ => fetched st' trace'
          end
      | None => []
      end
  end.

(** No worker has left its loop by [return] along a schedule: none of
    the URLs taken from the frontier made its worker return. *)
Definition no_early_return (st : state) (trace : list action) : bool :=
  forallb (fun u => negb (returns_early client u)) (fetched st trace).

(** How often the URL written [key] was taken from the frontier along
    a schedule. *)
Definition times_fetched (st : state) (trace : list action) (key : gostring)
  : nat :=
  count_occ (list_eq_dec ascii_dec) (map String (fetched st trace)) key.

End History.

(** The pages on their way from a worker to the result loop. *)
Definition pages_in_flight (p : pipeline) : nat :=
  match worker p with WSend (EmitPage _) _ => 1 | _ => 0 end
  + match pageMerger p with MHold _ => 1 | _ => 0 end.

Definition sum_pages_in_flight (ps : list pipeline) : nat :=
  fold_right (fun p n => pages_in_flight p + n) 0 ps.

(** The link the loop has counted and not yet handed to a publisher. *)
Definition spawning (l : loop_state) : list URL :=
  match l with
  | LSpawn newURL _ => [newURL]
  | _ => []
  end.

End history.

(** ** The error classes of the specification

    The code carries no class on an error: the result loop inspects the
    error value ([handle_error]).  The classes below follow the words of
    the specification, by the place in the worker where the error
    arose, to compare the two. *)

Module spec.
Import url crawler.

Inductive classification : Type :=
| transport_timeout
| transport_other
| http_status
| body_read.

(** "on transport failure, emit a transport-timeout or transport-other
    Error depending on whether the failure is a timeout; on a successful
    response whose status is >= 400, emit an http-status Error;
    otherwise read the full response body (any read/close failure yields
    a body-read Error)". *)
Definition classify (client : httpClient) (url : URL) : option classification :=
  match client (String url) with
  | Err err =>
      Some (if is_net_Error err && Timeout err
            then transport_timeout else transport_other)
  | Ok resp =>
      if (StatusCode resp >=? 400)%Z then Some http_status
      else match Body_Read resp, Body_Close resp with
           | Err _, _ => Some body_read
           | Ok _, Some _ => Some body_read
           | Ok _, None => None
           end
  end.

(** "if it is transport-timeout or http-status, treat as recoverable;
    any other classification is fatal". *)
Definition recoverable (c : classification) : bool :=
  match c with
  | transport_timeout | http_status => true
  | transport_other | body_read => false
  end.

End spec.

(** ** Inputs used in the examples *)

Module examples.
Import url crawler.

Definition url_of (s : string) : URL :=
  match Parse (str s) with
  | Ok u => u
  | Err _ => empty_URL
  end.

Definition anchor (href : string) : Token :=
  mkToken (str "a") [mkAttribute (str "href") (str href)].

Definition timeout_error : error :=
  URLError "Get" (str "http://x.test/a") (netError true "i/o timeout").

Definition refused_error : error :=
  URLError "Get" (str "http://x.test/") (netError false "connection refused").

(** Every page is served with status 200 and one link to ["/"]. *)
Definition self_link_client : httpClient :=
  fun _ => Ok (mkResponse 200 (Ok [anchor "/"]) None).

(** ["http://x.test/a"] times out; every other page is empty. *)
Definition timeout_client : httpClient :=
  fun u => if gostring_eqb u (str "http://x.test/a") then Err timeout_error
           else Ok (mkResponse 200 (Ok []) None).

(** The connection is refused for every URL. *)
Definition refusing_client : httpClient := fun _ => Err refused_error.

(** Every response has status 200 and a body whose read times out. *)
Definition slow_body_client : httpClient :=
  fun _ => Ok (mkResponse 200 (Err (netError true "timeout reading body")) None).

(** The seed page links to [a] and [b]; [a] times out. *)
Definition two_links_client : httpClient :=
  fun u => if gostring_eqb u (str "http://x.test/")
           then Ok (mkResponse 200 (Ok [anchor "/a"; anchor "/b"]) None)
           else timeout_client u.

(** One worker, the seed fetched, its page handled and its self-link
    published and fetched again, then the frontier closed and the
    crawl returning [nil]. *)
Definition self_link_schedule : list action :=
  [APublish 0 0; AWorkerSend 0; ASelectPage 0; ALink; ASpawn; AEndLinks; ADone;
   APublish 0 0; AWorkerSend 0; ASelectPage 0; ALink; AEndLinks; ADone;
   AWait; ACloseFrontier; ARangeEnds 0; ACloseErrs 0; AClosePages 0;
   APageMergerExit 0; AClosePagesOut; ASelectPagesClosed].

(** The seed is fetched and the error it gives reaches the loop. *)
Definition seed_error_schedule : list action :=
  [APublish 0 0; AWorkerSend 0; ASelectErr 0].

(** A writer that accepts everything. *)
Definition discard : Writer := fun _ _ => None.

(** The seed page is served with one link to itself; the connection is
    refused for every other URL. *)
Definition seed_only_client : httpClient :=
  fun u => if gostring_eqb u (str "http://x.test/")
           then Ok (mkResponse 200 (Ok [anchor "/"]) None)
           else Err refused_error.

(** The seed page links to [a]; every other page is answered with
    status 500. *)
Definition status_client : httpClient :=
  fun u => if gostring_eqb u (str "http://x.test/")
           then Ok (mkResponse 200 (Ok [anchor "/a"]) None)
           else Ok (mkResponse 500 (Ok []) None).

(** One worker, the seed fetched and its link to [a] published; the
    fetch of [a] gives an error that the loop prints; then the frontier
    is closed and the crawl returns [nil]. *)
Definition absorbed_error_schedule : list action :=
  [APublish 0 0; AWorkerSend 0; ASelectPage 0; ALink; ASpawn; AEndLinks; ADone;
   APublish 0 0; AWorkerSend 0; ASelectErr 0; ADone;
   AWait; ACloseFrontier; ARangeEnds 0; ACloseErrs 0; AClosePages 0;
   APageMergerExit 0; AClosePagesOut; ASelectPagesClosed].

(** One worker and [two_links_client]: the seed's links to [a] and [b]
    are published, the fetch of [a] times out and the worker returns;
    the loop prints the error, finds the merged page channel closed and
    returns [nil] while [b] is still waiting to be published. *)
Definition early_return_schedule : list action :=
  [APublish 0 0; AWorkerSend 0; ASelectPage 0;
   ALink; ASpawn; ALink; ASpawn; AEndLinks; ADone;
   APublish 0 0; AWorkerSend 0; ASelectErr 0; ADone;
   ACloseErrs 0; AClosePages 0; APageMergerExit 0; AClosePagesOut;
   ASelectPagesClosed].

(** An environment with [WORKERS=-1] and [URL=http://x.test/]. *)
Definition negative_workers_env (k : string) : gostring :=
  if String.eqb k "WORKERS" then str "-1"
  else if String.eqb k "URL" then str "http://x.test/"
  else [].

(** A link to an IPv6 literal whose zone holds a non-ASCII byte. *)
Definition zone_href : gostring :=
  str "http://[::1%25" ++ [ascii_of_nat 195; ascii_of_nat 169] ++ str "]/".

(** The URL [formatURL] returns for [zone_href]: the zone is kept
    decoded in [Host]. *)
Definition zone_link : URL :=
  mkURL (str "http") [] None
        (str "[::1%" ++ [ascii_of_nat 195; ascii_of_nat 169] ++ str "]")
        (str "/") [] false [] [].

End examples.

(** * Properties *)

(** ** Go strings *)

Lemma gostring_eqb_spec (s t : gostring) : gostring_eqb s t = true <-> s = t.
Proof.
  revert t; induction s as [|c s IH]; intros [|d t]; simpl; split;
    try congruence; try reflexivity.
  - rewrite andb_true_iff, Ascii.eqb_eq, IH. intros [-> ->]; reflexivity.
  - intros [= -> ->]. rewrite andb_true_iff, Ascii.eqb_eq, IH. auto.
Qed.

Lemma gostring_eqb_refl (s : gostring) : gostring_eqb s s = true.
Proof. apply gostring_eqb_spec; reflexivity. Qed.

Lemma is_empty_spec (s : gostring) : is_empty s = true <-> s = [].
Proof. destruct s; simpl; split; congruence. Qed.

(** ** Link extraction *)

Import url crawler.

(** What [formatURL] does, case by case. *)
Lemma formatURL_cases (pageURL : URL) (rawURL : gostring) :
  match URL_Parse pageURL rawURL with
  | Err err => formatURL pageURL rawURL = Panics err
  | Ok rel =>
      (Scheme rel = str "http" \/ Scheme rel = str "https")
      /\ formatURL pageURL rawURL = Returns (Some (set_Fragment rel []))
      \/ Scheme rel <> str "http" /\ Scheme rel <> str "https"
         /\ formatURL pageURL rawURL = Returns None
  end.
Proof.
  unfold formatURL. destruct (URL_Parse pageURL rawURL) as [rel|err]; auto.
  destruct (gostring_eqb (Scheme rel) (str "http")) eqn:E1;
    [apply gostring_eqb_spec in E1; left; cbn [orb]; auto|].
  destruct (gostring_eqb (Scheme rel) (str "https")) eqn:E2;
    [apply gostring_eqb_spec in E2; left; cbn [orb]; auto|].
  right. cbn [orb]. repeat split; auto; intros H; apply gostring_eqb_spec in H;
    congruence.
Qed.

Lemma formatURL_Some (pageURL : URL) (rawURL : gostring) (link : URL) :
  formatURL pageURL rawURL = Returns (Some link) ->
  exists rel, URL_Parse pageURL rawURL = Ok rel
              /\ link = set_Fragment rel []
              /\ (Scheme rel = str "http" \/ Scheme rel = str "https").
Proof.
  intros H. pose proof (formatURL_cases pageURL rawURL) as C.
  destruct (URL_Parse pageURL rawURL) as [rel|err]; [|congruence].
  exists rel. destruct C as [[S F]|(_ & _ & F)]; rewrite F in H; [|congruence].
  inversion H; auto.
Qed.

(** The links [collect_attrs] adds are all results of [formatURL] on an
    attribute of the tag. *)
Lemma collect_attrs_links (pageURL : URL) (attrs : list Attribute) :
  forall links links',
    collect_attrs pageURL attrs links = Returns links' ->
    exists added,
      links' = links ++ added
      /\ Forall (fun link => exists attr,
                     In attr attrs /\ Key attr = str "href"
                     /\ formatURL pageURL (Val attr) = Returns (Some link))
                added.
Proof.
  induction attrs as [|attr attrs IH]; cbn [collect_attrs]; intros links links' H.
  - inversion H; subst. exists []. rewrite app_nil_r. auto.
  - destruct (gostring_eqb (Key attr) (str "href")) eqn:K.
    + apply gostring_eqb_spec in K.
      destruct (formatURL pageURL (Val attr)) as [[link|]|e] eqn:F;
        [| |discriminate].
      * destruct (IH _ _ H) as (added & -> & HF).
        exists (link :: added). rewrite <- app_assoc. split; [reflexivity|].
        constructor; [exists attr; cbn [In]; auto|].
        eapply Forall_impl; [|exact HF].
        intros l (a & ? & ? & ?); exists a; cbn [In]; auto.
      * destruct (IH _ _ H) as (added & -> & HF).
        exists added. split; [reflexivity|].
        eapply Forall_impl; [|exact HF].
        intros l (a & ? & ? & ?); exists a; cbn [In]; auto.
    + destruct (IH _ _ H) as (added & -> & HF).
      exists added. split; [reflexivity|].
      eapply Forall_impl; [|exact HF].
      intros l (a & ? & ? & ?); exists a; cbn [In]; auto.
Qed.

Lemma collectLinks_loop_links (pageURL : URL) (tokens : list Token) :
  forall links links',
    collectLinks_loop pageURL tokens links = Returns links' ->
    exists added,
      links' = links ++ added
      /\ Forall (fun link => exists href,
                     formatURL pageURL href = Returns (Some link)) added.
Proof.
  induction tokens as [|tag tokens IH]; cbn [collectLinks_loop];
    intros links links' H.
  - inversion H; subst. exists []. rewrite app_nil_r. auto.
  - destruct (gostring_eqb (Data tag) (str "a")).
    + destruct (collect_attrs pageURL (Attr tag) links) as [l1|e] eqn:C;
        [|discriminate].
      apply collect_attrs_links in C. destruct C as (a1 & -> & F1).
      destruct (IH _ _ H) as (a2 & -> & F2).
      exists (a1 ++ a2). rewrite app_assoc. split; [reflexivity|].
      apply Forall_app; split; auto.
      eapply Forall_impl; [|exact F1].
      intros l (a & _ & _ & ?); eauto.
    + apply IH; auto.
Qed.

Lemma collectLinks_links (pageURL : URL) (r : list Token) (links : list URL) :
  collectLinks pageURL r = Returns links ->
  Forall (fun link => exists href,
              formatURL pageURL href = Returns (Some link)) links.
Proof.
  intros H. apply collectLinks_loop_links in H.
  destruct H as (added & -> & F). exact F.
Qed.

(** ** Cutting a string at a byte *)

Lemma HasPrefix_byte (s : gostring) (c : ascii) :
  strings.HasPrefix s [c] = match s with d :: _ => Ascii.eqb c d | [] => false end.
Proof.
  destruct s as [|d s]; cbn [strings.HasPrefix]; [reflexivity|].
  destruct s; apply andb_true_r.
Qed.

Lemma Index_byte_app (h t : gostring) (c : ascii) :
  ~ In c h -> strings.Index (h ++ c :: t) [c] = Some (List.length h).
Proof.
  induction h as [|d h IH]; intros N.
  - cbn [app strings.Index]. rewrite HasPrefix_byte, Ascii.eqb_refl. reflexivity.
  - cbn [app strings.Index]. rewrite HasPrefix_byte.
    destruct (Ascii.eqb c d) eqn:E.
    + apply Ascii.eqb_eq in E. subst. exfalso. apply N. left; reflexivity.
    + rewrite IH; [reflexivity|]. intros I. apply N. right; exact I.
Qed.

Lemma Index_byte_None (s : gostring) (c : ascii) :
  ~ In c s -> strings.Index s [c] = None.
Proof.
  induction s as [|d s IH]; intros N; cbn [strings.Index];
    rewrite HasPrefix_byte; [reflexivity|].
  destruct (Ascii.eqb c d) eqn:E.
  - apply Ascii.eqb_eq in E. subst. exfalso. apply N. left; reflexivity.
  - rewrite IH; [reflexivity|]. intros I. apply N. right; exact I.
Qed.

Lemma skipn_length_app {A : Type} (h t : list A) :
  skipn (List.length h) (h ++ t) = t.
Proof. induction h; simpl; auto. Qed.

Lemma firstn_length_app {A : Type} (h t : list A) :
  firstn (List.length h) (h ++ t) = h.
Proof. induction h; simpl; congruence. Qed.

(** [split] at the first occurrence of a byte. *)
Lemma split_cut_app (h t : gostring) (c : ascii) :
  ~ In c h -> split (h ++ c :: t) [c] true = (h, t).
Proof.
  intros N. unfold split. rewrite Index_byte_app by exact N.
  rewrite firstn_length_app.
  replace (List.length h + List.length [c]) with (List.length (h ++ [c]))
    by (rewrite length_app; reflexivity).
  replace (h ++ c :: t) with ((h ++ [c]) ++ t) by (rewrite <- app_assoc; reflexivity).
  rewrite skipn_length_app. reflexivity.
Qed.

Lemma split_keep_app (h t : gostring) (c : ascii) :
  ~ In c h -> split (h ++ c :: t) [c] false = (h, c :: t).
Proof.
  intros N. unfold split. rewrite Index_byte_app by exact N.
  rewrite firstn_length_app, skipn_length_app. reflexivity.
Qed.

Lemma split_None (s : gostring) (c : ascii) (cutc : bool) :
  ~ In c s -> split s [c] cutc = (s, []).
Proof. intros N. unfold split. rewrite Index_byte_None by exact N. reflexivity. Qed.

(** ** The fragment of a reference does not reach the resolved URL
       once [formatURL] has cleared it. *)

Lemma setPath_set_Fragment (u : URL) (f p : gostring) :
  setPath (set_Fragment u f) p
  = match setPath u p with
    | Ok u' => Ok (set_Fragment u' f)
    | Err e => Err e
    end.
Proof.
  unfold setPath. destruct (unescape p encodePath) as [path|e]; cbn [bind];
    [|reflexivity].
  destruct (gostring_eqb p (escape path encodePath)); reflexivity.
Qed.

Lemma setPath_ignore_set_Fragment (u : URL) (f p : gostring) :
  setPath_ignore (set_Fragment u f) p = set_Fragment (setPath_ignore u p) f.
Proof.
  unfold setPath_ignore. rewrite setPath_set_Fragment.
  destruct (setPath u p); reflexivity.
Qed.

Lemma setPath_ignore_Scheme (u : URL) (p : gostring) :
  Scheme (setPath_ignore u p) = Scheme u.
Proof.
  unfold setPath_ignore, setPath.
  destruct (unescape p encodePath) as [path|e]; cbn [bind]; [|reflexivity].
  destruct (gostring_eqb p (escape path encodePath)); reflexivity.
Qed.

Lemma setPath_ignore_cases (p : gostring) :
  (forall u, setPath_ignore u p = u)
  \/ exists path rawpath, forall u, setPath_ignore u p = set_Path u path rawpath.
Proof.
  unfold setPath_ignore, setPath.
  destruct (unescape p encodePath) as [path|e]; cbn [bind]; [|left; reflexivity].
  right. exists path.
  destruct (gostring_eqb p (escape path encodePath));
    eexists; intros u; reflexivity.
Qed.

Lemma ResolveReference_clear_Fragment (u ref : URL) (f : gostring) :
  set_Fragment (ResolveReference u (set_Fragment ref f)) []
  = set_Fragment (ResolveReference u ref) [].
Proof.
  unfold ResolveReference.
  replace (EscapedPath (set_Fragment ref f)) with (EscapedPath ref) by reflexivity.
  cbn [Scheme Host User_ Opaque Path RawQuery Fragment set_Fragment].
  destruct (negb (is_empty (Scheme ref)) || negb (is_empty (Host ref))
            || match User_ ref with Some _ => true | None => false end).
  - destruct (setPath_ignore_cases (resolvePath (EscapedPath ref) []))
      as [E|(a & b & E)]; rewrite !E;
      destruct (is_empty (Scheme ref)); reflexivity.
  - destruct (negb (is_empty (Opaque ref))).
    + destruct (is_empty (Scheme ref)); reflexivity.
    + destruct (setPath_ignore_cases
                  (resolvePath (EscapedPath u) (EscapedPath ref)))
        as [E|(a & b & E)]; rewrite !E;
        destruct (is_empty (Scheme ref));
        destruct (is_empty (Path ref) && is_empty (RawQuery ref));
        destruct (is_empty f); destruct (is_empty (Fragment ref));
        reflexivity.
Qed.

Lemma Parse_with_fragment (href frag : gostring) :
  ~ In "#"%char href ->
  Parse (href ++ "#"%char :: frag)
  = match parse href with
    | Err err => Err (URLError "parse" href err)
    | Ok url =>
        if is_empty frag then Ok url
        else match unescape frag encodeFragment with
             | Err err => Err (URLError "parse" (href ++ "#"%char :: frag) err)
             | Ok f => Ok (set_Fragment url f)
             end
    end.
Proof.
  intros N. unfold Parse.
  change (str "#") with ["#"%char]. rewrite split_cut_app by exact N.
  reflexivity.
Qed.

Lemma Parse_without_fragment (href : gostring) :
  ~ In "#"%char href ->
  Parse href
  = match parse href with
    | Err err => Err (URLError "parse" href err)
    | Ok url => Ok url
    end.
Proof.
  intros N. unfold Parse.
  change (str "#") with ["#"%char]. rewrite split_None by exact N.
  reflexivity.
Qed.

(** [formatURL] on a reference that parsed to [ref]. *)
Lemma formatURL_of_Parse (pageURL : URL) (rawURL : gostring) (ref : URL) :
  Parse rawURL = Ok ref ->
  formatURL pageURL rawURL
  = if gostring_eqb (Scheme (ResolveReference pageURL ref)) (str "http")
       || gostring_eqb (Scheme (ResolveReference pageURL ref)) (str "https")
    then Returns (Some (set_Fragment (ResolveReference pageURL ref) []))
    else Returns None.
Proof. intros P. unfold formatURL, URL_Parse. rewrite P. reflexivity. Qed.

Lemma formatURL_ignores_fragment (pageURL ref : URL) (f : gostring) :
  (if gostring_eqb (Scheme (ResolveReference pageURL (set_Fragment ref f))) (str "http")
      || gostring_eqb (Scheme (ResolveReference pageURL (set_Fragment ref f))) (str "https")
   then Returns (Some (set_Fragment (ResolveReference pageURL (set_Fragment ref f)) []))
   else Returns None)
  = (if gostring_eqb (Scheme (ResolveReference pageURL ref)) (str "http")
        || gostring_eqb (Scheme (ResolveReference pageURL ref)) (str "https")
     then Returns (Some (set_Fragment (ResolveReference pageURL ref) []))
     else Returns None).
Proof.
  pose proof (ResolveReference_clear_Fragment pageURL ref f) as E.
  assert (S : Scheme (ResolveReference pageURL (set_Fragment ref f))
              = Scheme (ResolveReference pageURL ref))
    by (apply (f_equal Scheme) in E; exact E).
  rewrite S, E. reflexivity.
Qed.

(** A reference with a fragment is normalized as the reference without
    it, whenever both can be parsed. *)
Lemma formatURL_fragment_irrelevant (pageURL : URL) (href frag : gostring)
      (r : option URL) :
  ~ In "#"%char href ->
  formatURL pageURL (href ++ "#"%char :: frag) = Returns r ->
  formatURL pageURL href = Returns r.
Proof.
  intros N H.
  pose proof (Parse_with_fragment href frag N) as PF.
  pose proof (Parse_without_fragment href N) as P0.
  destruct (parse href) as [url|e].
  - rewrite (formatURL_of_Parse pageURL _ P0).
    destruct (is_empty frag).
    + rewrite (formatURL_of_Parse pageURL _ PF) in H. exact H.
    + destruct (unescape frag encodeFragment) as [f|e].
      * rewrite (formatURL_of_Parse pageURL _ PF) in H.
        rewrite formatURL_ignores_fragment in H. exact H.
      * unfold formatURL, URL_Parse in H. rewrite PF in H. discriminate.
  - unfold formatURL, URL_Parse in H. rewrite PF in H. discriminate.
Qed.

(** The converse: a fragment that can be decoded changes nothing. *)
Lemma formatURL_fragment_added (pageURL : URL) (href frag : gostring)
      (r : option URL) :
  ~ In "#"%char href ->
  is_ok (unescape frag encodeFragment) = true ->
  formatURL pageURL href = Returns r ->
  formatURL pageURL (href ++ "#"%char :: frag) = Returns r.
Proof.
  intros N U H.
  pose proof (Parse_with_fragment href frag N) as PF.
  pose proof (Parse_without_fragment href N) as P0.
  destruct (parse href) as [url|e].
  - rewrite (formatURL_of_Parse pageURL _ P0) in H.
    destruct (is_empty frag).
    + rewrite (formatURL_of_Parse pageURL _ PF). exact H.
    + destruct (unescape frag encodeFragment) as [f|e]; [|discriminate U].
      rewrite (formatURL_of_Parse pageURL _ PF).
      rewrite formatURL_ignores_fragment. exact H.
  - unfold formatURL, URL_Parse in H. rewrite P0 in H. discriminate.
Qed.

(** The string form of a URL is that of the URL without its fragment,
    followed by ['#'] and the escaped fragment, if there is one. *)
Lemma String_set_Fragment (u : URL) :
  String u
  = String (set_Fragment u [])
    ++ (if is_empty (Fragment u) then []
        else "#"%char :: escape (Fragment u) encodeFragment).
Proof.
  unfold String.
  replace (EscapedPath (set_Fragment u [])) with (EscapedPath u) by reflexivity.
  cbn [Scheme Opaque User_ Host Path RawPath ForceQuery RawQuery Fragment
       set_Fragment is_empty].
  rewrite app_nil_r. rewrite <- !app_assoc. reflexivity.
Qed.

(** C6. Normalization strips the fragment, and nothing else: the URL
    [formatURL] keeps is the resolved reference with its fragment
    cleared, and the string form of the resolved reference is that of
    the link followed by ['#'] and the fragment, if it had one;
    ["http://x.test/a#frag"] normalizes to ["http://x.test/a"] against
    any page URL; a reference with a fragment normalizes exactly as the
    reference without it, and adding a fragment that can be decoded
    changes nothing; so two references that differ only in their
    fragment normalize to the same URL, hence to the same [cache]
    key. *)
Theorem formatURL_strips_fragment (pageURL : URL) :
  (forall rawURL link,
      formatURL pageURL rawURL = Returns (Some link) ->
      exists rel,
        URL_Parse pageURL rawURL = Ok rel
        /\ link = set_Fragment rel []
        /\ Fragment link = []
        /\ String rel
           = String link
             ++ (if is_empty (Fragment rel) then []
                 else "#"%char :: escape (Fragment rel) encodeFragment))
  /\ (exists link,
         formatURL pageURL (str "http://x.test/a#frag") = Returns (Some link)
         /\ String link = str "http://x.test/a")
  /\ (forall href frag r,
         ~ In "#"%char href ->
         formatURL pageURL (href ++ "#"%char :: frag) = Returns r ->
         formatURL pageURL href = Returns r)
  /\ (forall href frag r,
         ~ In "#"%char href ->
         is_ok (unescape frag encodeFragment) = true ->
         formatURL pageURL href = Returns r ->
         formatURL pageURL (href ++ "#"%char :: frag) = Returns r)
  /\ (forall href frag1 frag2 link1 link2,
         ~ In "#"%char href ->
         formatURL pageURL (href ++ "#"%char :: frag1) = Returns (Some link1) ->
         formatURL pageURL (href ++ "#"%char :: frag2) = Returns (Some link2) ->
         link1 = link2 /\ String link1 = String link2).
Proof.
  split; [|split; [|split; [|split]]].
  - intros rawURL link H. apply formatURL_Some in H.
    destruct H as (rel & P & -> & _). exists rel.
    repeat split; auto. apply String_set_Fragment.
  - exists (mkURL (str "http") [] None (str "x.test") (str "/a") [] false [] []).
    split; vm_compute; reflexivity.
  - intros href frag r. apply formatURL_fragment_irrelevant.
  - intros href frag r. apply formatURL_fragment_added.
  - intros href frag1 frag2 link1 link2 N H1 H2.
    apply formatURL_fragment_irrelevant in H1; [|exact N].
    apply formatURL_fragment_irrelevant in H2; [|exact N].
    rewrite H1 in H2. inversion H2. auto.
Qed.

Lemma formatURL_strips_fragment_witness :
  formatURL empty_URL (str "http://x.test/a")
  = Returns (Some (mkURL (str "http") [] None (str "x.test") (str "/a") []
                         false [] []))
  /\ formatURL empty_URL (str "http://x.test/a#two")
     = Returns (Some (mkURL (str "http") [] None (str "x.test") (str "/a") []
                            false [] [])).
Proof.
  assert (N : ~ In "#"%char (str "http://x.test/a"))
    by (vm_compute; intuition discriminate).
  assert (H : formatURL empty_URL (str "http://x.test/a")
              = Returns (Some (mkURL (str "http") [] None (str "x.test")
                                     (str "/a") [] false [] []))).
  { apply (proj1 (proj2 (proj2 (formatURL_strips_fragment empty_URL)))
             (str "http://x.test/a") (str "one")); [exact N|].
    vm_compute. reflexivity. }
  split; [exact H|].
  apply (proj1 (proj2 (proj2 (proj2 (formatURL_strips_fragment empty_URL))))
           (str "http://x.test/a") (str "two")); [exact N| |exact H].
  vm_compute. reflexivity.
Defined.

(** C7. Only [http] and [https] are kept: the URL [formatURL] returns
    for a reference that resolves to [rel] is [rel] (fragment cleared)
    when the scheme of [rel] is [http] or [https], and no URL for any
    other scheme; every link [collectLinks] returns has one of the two
    schemes; [mailto:] and [javascript:] references give no URL. *)
Theorem formatURL_keeps_only_http_and_https (pageURL : URL) :
  (forall rawURL rel,
      URL_Parse pageURL rawURL = Ok rel ->
      (Scheme rel = str "http" \/ Scheme rel = str "https")
      /\ formatURL pageURL rawURL = Returns (Some (set_Fragment rel []))
      \/ Scheme rel <> str "http" /\ Scheme rel <> str "https"
         /\ formatURL pageURL rawURL = Returns None)
  /\ (forall r links,
         collectLinks pageURL r = Returns links ->
         Forall (fun link => Scheme link = str "http"
                             \/ Scheme link = str "https") links)
  /\ formatURL pageURL (str "mailto:test@test.com") = Returns None
  /\ formatURL pageURL (str "javascript:void(0)") = Returns None.
Proof.
  split; [|split; [|split]].
  - intros rawURL rel P. pose proof (formatURL_cases pageURL rawURL) as C.
    rewrite P in C. exact C.
  - intros r links H. apply collectLinks_links in H.
    eapply Forall_impl; [|exact H].
    intros link (href & F). apply formatURL_Some in F.
    destruct F as (rel & _ & -> & S). exact S.
  - vm_compute. reflexivity.
  - vm_compute. reflexivity.
Qed.

Lemma formatURL_keeps_only_http_and_https_witness :
  Forall (fun link => Scheme link = str "http" \/ Scheme link = str "https")
         [mkURL (str "https") [] None (str "x.test") (str "/a") [] false [] []].
Proof.
  apply (proj1 (proj2 (formatURL_keeps_only_http_and_https empty_URL))
           [mkToken (str "a")
                    [mkAttribute (str "href") (str "mailto:test@test.com");
                     mkAttribute (str "href") (str "https://x.test/a#top")]]).
  vm_compute. reflexivity.
Defined.

(** ** Malformed references *)

(** The [href] values [collectLinks] passes to [formatURL], in order. *)
Lemma collect_attrs_panics (pageURL : URL) (attrs : list Attribute) :
  forall links,
    (exists e, collect_attrs pageURL attrs links = Panics e)
    <-> Exists (fun attr => Key attr = str "href"
                            /\ is_ok (Parse (Val attr)) = false) attrs.
Proof.
  induction attrs as [|attr attrs IH]; intros links; cbn [collect_attrs].
  - split; [intros (e & H); discriminate | intros H; inversion H].
  - destruct (gostring_eqb (Key attr) (str "href")) eqn:K.
    + apply gostring_eqb_spec in K.
      pose proof (formatURL_cases pageURL (Val attr)) as C.
      unfold URL_Parse in C.
      destruct (Parse (Val attr)) as [ref|err] eqn:P; cbn [bind] in C.
      * assert (NP : ~ (Key attr = str "href" /\ is_ok (Parse (Val attr)) = false))
          by (rewrite P; cbn; intros [_ ?]; discriminate).
        destruct C as [[_ F]|(_ & _ & F)]; rewrite F; rewrite IH;
          (split; [intros H; right; exact H
                  | intros H; inversion H; subst; [contradiction|assumption]]).
      * rewrite C. split; [|eauto].
        intros _. left. rewrite P. auto.
    + rewrite IH. split; [intros H; right; exact H|].
      intros H; inversion H; subst; [|assumption].
      destruct H1 as [K' _]. apply gostring_eqb_spec in K'. congruence.
Qed.

Lemma collectLinks_loop_panics (pageURL : URL) (tokens : list Token) :
  forall links,
    (exists e, collectLinks_loop pageURL tokens links = Panics e)
    <-> Exists (fun tag =>
                  Data tag = str "a"
                  /\ Exists (fun attr => Key attr = str "href"
                                         /\ is_ok (Parse (Val attr)) = false)
                            (Attr tag)) tokens.
Proof.
  induction tokens as [|tag tokens IH]; intros links; cbn [collectLinks_loop].
  - split; [intros (e & H); discriminate | intros H; inversion H].
  - destruct (gostring_eqb (Data tag) (str "a")) eqn:D.
    + apply gostring_eqb_spec in D.
      pose proof (collect_attrs_panics pageURL (Attr tag) links) as CA.
      destruct (collect_attrs pageURL (Attr tag) links) as [links'|e].
      * rewrite IH. split; [intros H; right; exact H|].
        intros H; inversion H; subst; [|assumption].
        destruct H1 as [_ X]. apply CA in X. destruct X as (e & X). discriminate.
      * split; [|eauto]. intros _. left. split; [exact D|].
        apply CA. eauto.
    + rewrite IH. split; [intros H; right; exact H|].
      intros H; inversion H; subst; [|assumption].
      destruct H1 as [D' _]. apply gostring_eqb_spec in D'. congruence.
Qed.

Lemma formatURL_panics (pageURL : URL) (rawURL : gostring) :
  (exists e, formatURL pageURL rawURL = Panics e)
  <-> is_ok (Parse rawURL) = false.
Proof.
  pose proof (formatURL_cases pageURL rawURL) as C. unfold URL_Parse in C.
  destruct (Parse rawURL) as [ref|err]; cbn [bind is_ok] in *.
  - split; [|discriminate]. intros (e & H).
    destruct C as [[_ F]|(_ & _ & F)]; rewrite F in H; discriminate.
  - split; eauto.
Qed.

(** [collectLinks] returns exactly when every [href] of every anchor
    parses. *)
Lemma collectLinks_returns (pageURL : URL) (r : list Token) :
  (exists links, collectLinks pageURL r = Returns links)
  <-> Forall (fun tag =>
                Data tag = str "a" ->
                Forall (fun attr => Key attr = str "href" ->
                                    is_ok (Parse (Val attr)) = true)
                       (Attr tag)) r.
Proof.
  pose proof (collectLinks_loop_panics pageURL r []) as P.
  fold (collectLinks pageURL r) in P.
  split.
  - intros (links & H). apply Forall_forall. intros tag I D.
    apply Forall_forall. intros attr IA K.
    destruct (is_ok (Parse (Val attr))) eqn:E; [reflexivity|].
    assert (X : exists e, collectLinks pageURL r = Panics e).
    { apply P. apply Exists_exists. exists tag. split; [exact I|].
      split; [exact D|]. apply Exists_exists. exists attr. auto. }
    destruct X as (e & X). rewrite X in H. discriminate.
  - intros F. destruct (collectLinks pageURL r) as [links|e] eqn:E; [eauto|].
    assert (X : exists e0, Panics (A:=list URL) e = Panics e0) by eauto.
    apply P in X. apply Exists_exists in X. destruct X as (tag & I & D & X).
    apply Exists_exists in X. destruct X as (attr & IA & K & B).
    rewrite Forall_forall in F. specialize (F tag I D).
    rewrite Forall_forall in F. specialize (F attr IA K). congruence.
Qed.

(** C3, as the code has it.  A reference that [url.Parse] rejects makes
    [formatURL] panic, and [collectLinks] does not recover: extraction
    of a page panics exactly when one of its anchor tags carries an
    [href] that does not parse, and returns the links of the page
    otherwise. *)
Theorem collectLinks_panics_on_malformed_href (pageURL : URL) (r : list Token) :
  (forall rawURL,
      (exists e, formatURL pageURL rawURL = Panics e)
      <-> is_ok (Parse rawURL) = false)
  /\ ((exists e, collectLinks pageURL r = Panics e)
      <-> Exists (fun tag =>
                    Data tag = str "a"
                    /\ Exists (fun attr => Key attr = str "href"
                                           /\ is_ok (Parse (Val attr)) = false)
                              (Attr tag)) r)
  /\ ((exists links, collectLinks pageURL r = Returns links)
      <-> Forall (fun tag =>
                    Data tag = str "a" ->
                    Forall (fun attr => Key attr = str "href" ->
                                        is_ok (Parse (Val attr)) = true)
                           (Attr tag)) r).
Proof.
  split; [intros rawURL; apply formatURL_panics|].
  pose proof (collectLinks_loop_panics pageURL r []) as P.
  fold (collectLinks pageURL r) in P.
  split; [exact P|]. apply collectLinks_returns.
Qed.

Lemma collectLinks_panics_on_malformed_href_witness :
  exists links,
    collectLinks empty_URL
      [mkToken (str "a") [mkAttribute (str "href") (str "http://x.test/a")]]
    = Returns links.
Proof.
  apply (proj2 (proj2 (proj2 (collectLinks_panics_on_malformed_href empty_URL
           [mkToken (str "a") [mkAttribute (str "href") (str "http://x.test/a")]])))).
  repeat constructor.
Defined.

(** C3 as the specification words it fails: on a page whose first
    anchor has the malformed reference ["%zz"], extraction panics and
    the second anchor is never extracted. *)
Lemma collectLinks_aborts_on_malformed_href :
  ~ (forall pageURL r, exists links, collectLinks pageURL r = Returns links).
Proof.
  intros H.
  destruct (H empty_URL
              [mkToken (str "a") [mkAttribute (str "href") (str "%zz")];
               mkToken (str "a") [mkAttribute (str "href") (str "http://x.test/a")]])
    as (links & E).
  vm_compute in E. discriminate.
Qed.

(** ** Fetch workers *)

Import examples.

(** C4 fails on the code.  When [httpClient.Get] returns an error the
    worker sends it and returns: the URLs still offered on the open
    frontier are never taken by this worker. *)
Theorem getPages_returns_on_Get_error
        (client : httpClient) (url : URL) (urls : list URL) (err : error) :
  client (String url) = Err err ->
  getPages client (url :: urls) = ([EmitErr err], ReturnedEarly urls).
Proof.
  intros G. cbn [getPages]. unfold getPages_body. rewrite G. reflexivity.
Qed.

Lemma getPages_returns_on_Get_error_witness :
  getPages timeout_client [url_of "http://x.test/a"; url_of "http://x.test/b"]
  = ([EmitErr timeout_error], ReturnedEarly [url_of "http://x.test/b"]).
Proof.
  apply (getPages_returns_on_Get_error timeout_client
           (url_of "http://x.test/a") [url_of "http://x.test/b"]).
  vm_compute. reflexivity.
Defined.

(** ** The result loop *)

Section ResultLoop.

Variable client : httpClient.
Variable out : Writer.
Variable seedURL : URL.

Lemma nth_error_update_eq {A : Type} (l : list A) (i : nat) (x y : A) :
  nth_error l i = Some y -> nth_error (update i x l) i = Some x.
Proof.
  revert i; induction l as [|a l IH]; intros [|i]; cbn; try discriminate; auto.
Qed.

Lemma handle_error_absorbed (st : state) (err : error) :
  absorbed err = true ->
  handle_error st err = set_loop (set_printed st (printed st ++ [err])) LDone.
Proof.
  unfold absorbed, handle_error. intros H.
  destruct (is_ErrHttpStatusCode (Cause err)); [reflexivity|].
  cbn [orb] in H. rewrite H. reflexivity.
Qed.

Lemma handle_error_fatal (st : state) (err : error) :
  absorbed err = false ->
  handle_error st err = set_loop st (LReturned (Some err)).
Proof.
  unfold absorbed, handle_error. intros H.
  apply orb_false_iff in H. destruct H as [H1 H2]. rewrite H1, H2. reflexivity.
Qed.

End ResultLoop.

(** C5, as the code has it.  At the [select], an error whose cause is
    [ErrHttpStatusCode] or that is a [net.Error] reporting a timeout is
    printed, the loop goes on to [wg.Done()] and back to the [select];
    any other error is returned at once, with the counter and the
    pending work left as they are.  A failed [out.Write] is returned at
    once as well. *)
Theorem result_loop_absorbs_or_returns
        (client : httpClient) (out : Writer) (seedURL : URL)
        (st : state) (i : nat) (p : pipeline) :
  panicked st = None ->
  loop st = LSelect ->
  nth_error (pipelines st) i = Some p ->
  (forall err,
      errMerger p = MHold err ->
      exists st',
        step client out seedURL st (ASelectErr i) = Some st'
        /\ wg st' = wg st /\ pending st' = pending st
        /\ (absorbed err = true ->
            loop st' = LDone /\ printed st' = printed st ++ [err]
            /\ (0 < wg st ->
                exists st'',
                  step client out seedURL st' ADone = Some st''
                  /\ loop st'' = LSelect /\ wg st'' = wg st - 1))%Z
        /\ (absorbed err = false ->
            loop st' = LReturned (Some err) /\ printed st' = printed st))
  /\ (forall page err,
         pageMerger p = MHold page ->
         out (written st) (Marshal page) = Some err ->
         exists st',
           step client out seedURL st (ASelectPage i) = Some st'
           /\ loop st' = LReturned (Some err)
           /\ wg st' = wg st /\ pending st' = pending st
           /\ written st' = written st).
Proof.
  intros NP L N. split.
  - intros err M. unfold step, step_unpanicked. rewrite NP, L, N, M.
    eexists. split; [reflexivity|].
    destruct (absorbed err) eqn:A.
    + rewrite handle_error_absorbed by exact A.
      cbn. repeat split; try discriminate.
      intros W. unfold step, step_unpanicked. cbn. rewrite NP.
      destruct (wg st - 1 <? 0)%Z eqn:Neg; [apply Z.ltb_lt in Neg; lia|].
      eexists. split; [reflexivity|]. cbn. auto.
    + rewrite handle_error_fatal by exact A.
      cbn. repeat split; try discriminate; auto.
  - intros page err M W. unfold step, step_unpanicked. rewrite NP, L, N, M.
    eexists. split; [reflexivity|].
    unfold handle_page. cbn. rewrite W. cbn. auto.
Qed.

Lemma result_loop_absorbs_or_returns_witness :
  exists st',
    step refusing_client discard (url_of "http://x.test/")
         (mkState 1 [] [] CWait [mkPipeline WReturning MRecv (MHold refused_error)]
                  false false LSelect [] [] None)
         (ASelectErr 0) = Some st'
    /\ loop st' = LReturned (Some refused_error).
Proof.
  destruct (proj1 (result_loop_absorbs_or_returns
             refusing_client discard (url_of "http://x.test/")
             (mkState 1 [] [] CWait
                      [mkPipeline WReturning MRecv (MHold refused_error)]
                      false false LSelect [] [] None)
             0 eq_refl eq_refl eq_refl) refused_error eq_refl)
    as (st' & S & _ & _ & _ & F).
  exists st'. split; [exact S|]. apply F. reflexivity.
Defined.

(** C5 as the specification words it fails: an error of the class
    body-read, fatal by the specification, is absorbed by the result
    loop when it is a timeout. *)
Lemma body_read_timeout_is_absorbed :
  ~ (forall client url st err after,
        getPages_body client url = Returns (EmitErr err, after) ->
        option_map spec.recoverable (spec.classify client url) = Some false ->
        loop (handle_error st err) = LReturned (Some err)).
Proof.
  intros H.
  specialize (H slow_body_client (url_of "http://x.test/")
                (init (New 1 slow_body_client) (url_of "http://x.test/"))
                (netError true "timeout reading body") Return
                eq_refl eq_refl).
  vm_compute in H. discriminate.
Qed.

(** ** Configuration *)

(** C9 fails on the code.  [main] rejects a worker count of zero only:
    with a negative count it goes on to [Crawl], which starts no worker
    and, the merged channels closing at once, returns [nil] with the
    seed still unpublished. *)
Theorem main_accepts_negative_workers
        (Getenv : string -> gostring) (client : httpClient) (workers : Z) :
  strconv.Atoi (Getenv "WORKERS"%string) = Ok workers ->
  (workers < 0)%Z ->
  Getenv "URL"%string <> [] ->
  main.main Getenv client
  = main.Crawls (New workers client) (Getenv "URL"%string)
  /\ forall out seedURL,
      Parse (Getenv "URL"%string) = Ok seedURL ->
      exists st,
        Crawl (New workers client) (Getenv "URL"%string) out
              [AClosePagesOut; ASelectPagesClosed] = Ok (Some st)
        /\ loop st = LReturned None
        /\ pending st = [seedURL] /\ written st = [] /\ wg st = 1%Z.
Proof.
  intros A N U. split.
  - unfold main.main, main.mustGetEnv. 
    destruct (Getenv "WORKERS"%string) as [|c w] eqn:W;
      [vm_compute in A; discriminate|].
    cbn [is_empty]. rewrite A.
    destruct (workers =? 0)%Z eqn:Z0; [apply Z.eqb_eq in Z0; lia|].
    destruct (Getenv "URL"%string); [congruence|reflexivity].
  - intros out seedURL P. unfold Crawl. rewrite P. cbn [bind].
    unfold init. cbn [workerCount].
    replace (Z.to_nat workers) with 0 by lia.
    eexists. split; [reflexivity|]. cbn. auto.
Qed.

Lemma main_accepts_negative_workers_witness :
  main.main negative_workers_env self_link_client
  = main.Crawls (New (-1) self_link_client) (str "http://x.test/").
Proof.
  apply (main_accepts_negative_workers negative_workers_env self_link_client
           (workers := (-1)%Z)).
  - vm_compute. reflexivity.
  - lia.
  - vm_compute. discriminate.
Defined.

(** C10. [Crawl] returns an error before the crawl exactly when
    [url.Parse] fails on the raw seed; any seed that parses, whatever
    its scheme or host, is published to the workers and fetched.  The
    empty string, a relative path and a [mailto:] URL all parse. *)
Theorem Crawl_rejects_only_unparsable_seeds (c : crawler_) (rawURL : gostring) :
  (forall e, Crawl_start c rawURL = Err e <-> Parse rawURL = Err e)
  /\ (forall seedURL,
         Parse rawURL = Ok seedURL ->
         Crawl_start c rawURL = Ok (init c seedURL)
         /\ pending (init c seedURL) = [seedURL]
         /\ ((0 < workerCount c)%Z ->
             forall out sent after,
               getPages_body (httpClient_ c) seedURL = Returns (sent, after) ->
               exists st,
                 step (httpClient_ c) out seedURL (init c seedURL) (APublish 0 0)
                 = Some st
                 /\ pending st = []
                 /\ option_map worker (nth_error (pipelines st) 0)
                    = Some (WSend sent after)))
  /\ is_ok (Crawl_start c []) = true
  /\ is_ok (Crawl_start c (str "a/b")) = true
  /\ is_ok (Crawl_start c (str "mailto:someone@x.test")) = true.
Proof.
  split; [|split].
  - intros e. unfold Crawl_start.
    destruct (Parse rawURL); cbn [bind]; split; congruence.
  - intros seedURL P. unfold Crawl_start. rewrite P. cbn [bind].
    split; [reflexivity|]. split; [reflexivity|].
    intros W out sent after G. unfold step, step_unpanicked, init.
    cbn [panicked closer pending pipelines nth_error workerCount].
    destruct (Z.to_nat (workerCount c)) as [|n] eqn:N; [lia|].
    cbn [repeat nth_error worker]. rewrite G.
    eexists. split; [reflexivity|]. cbn. auto.
  - repeat split; vm_compute; reflexivity.
Qed.

Lemma Crawl_rejects_only_unparsable_seeds_witness :
  Crawl_start (New 1 self_link_client) (str "mailto:someone@x.test")
  = Ok (init (New 1 self_link_client) (url_of "mailto:someone@x.test")).
Proof.
  apply (proj1 (proj1 (proj2 (Crawl_rejects_only_unparsable_seeds
                         (New 1 self_link_client)
                         (str "mailto:someone@x.test")))
                      (url_of "mailto:someone@x.test") eq_refl)).
Defined.

(** ** The counter of outstanding work *)

Lemma sum_in_flight_nonneg (ps : list pipeline) : (0 <= sum_in_flight ps)%Z.
Proof.
  induction ps as [|[w pm em] ps IH]; [cbn; lia|].
  change (0 <= in_flight (mkPipeline w pm em) + sum_in_flight ps)%Z.
  unfold in_flight; cbn [worker pageMerger errMerger].
  destruct w, pm, em; lia.
Qed.

Lemma sum_in_flight_cons (p : pipeline) (ps : list pipeline) :
  sum_in_flight (p :: ps) = (in_flight p + sum_in_flight ps)%Z.
Proof. reflexivity. Qed.

Lemma sum_in_flight_update (ps : list pipeline) (i : nat) (p p' : pipeline) :
  nth_error ps i = Some p ->
  sum_in_flight (update i p' ps)
  = (sum_in_flight ps - in_flight p + in_flight p')%Z.
Proof.
  revert i; induction ps as [|q ps IH]; intros [|i] N; cbn in N;
    try discriminate.
  - inversion N; subst. cbn [update]. rewrite !sum_in_flight_cons. lia.
  - cbn [update]. rewrite !sum_in_flight_cons, (IH _ N). lia.
Qed.

Lemma length_remove_nth {A : Type} (l : list A) (k : nat) (x : A) :
  nth_error l k = Some x ->
  Z.of_nat (List.length (remove_nth k l)) = (Z.of_nat (List.length l) - 1)%Z.
Proof.
  revert k; induction l as [|a l IH]; intros [|k] N; cbn in N;
    try discriminate.
  - cbn [remove_nth List.length]. lia.
  - cbn [remove_nth List.length]. rewrite !Nat2Z.inj_succ, (IH _ N). lia.
Qed.

Lemma outstanding_ge_loop (st : state) :
  (loop_holds (loop st) <= outstanding st)%Z.
Proof.
  unfold outstanding. pose proof (sum_in_flight_nonneg (pipelines st)). lia.
Qed.

(** Case analysis on the scrutinees of a step that succeeded. *)
Ltac break_step H :=
  repeat match type of H with
    | context [match ?x with _ => _ end] =>
        destruct x eqn:?; try discriminate H
    end.

Ltac step_cases H :=
  unfold step in H;
  match type of H with
  | context [panicked ?st] => destruct (panicked st) eqn:?; [discriminate H|]
  end;
  cbn [step_unpanicked] in H;
  unfold handle_page, handle_error, handle_link, panic in H;
  break_step H;
  inversion H; subst; clear H.

Arguments sum_in_flight : simpl never.
Arguments in_flight : simpl never.

Section CounterInvariant.

Variable client : httpClient.
Variable out : Writer.
Variable seedURL : URL.

Lemma step_counter_inv (st st' : state) (a : action) :
  step client out seedURL st a = Some st' ->
  counter_inv st -> counter_inv st'.
Proof.
  intros H [I1 I2].
  pose proof (outstanding_ge_loop st) as G.
  pose proof (sum_in_flight_nonneg (pipelines st)) as G'.
  unfold counter_inv, outstanding in *.
  destruct a; step_cases H; cbn in *;
    repeat match goal with
      | N : nth_error (pipelines _) _ = Some ?p |- _ =>
          rewrite (@sum_in_flight_update _ _ _ _ N);
          destruct p as [w pm em]; clear N
      | N : nth_error (pending _) _ = Some _ |- _ =>
          rewrite (length_remove_nth _ _ N); clear N
      end;
    unfold in_flight in *;
    cbn [worker pageMerger errMerger set_worker set_pageMerger set_errMerger] in *;
    subst;
    repeat match goal with
      | x : merger_state _ |- _ => destruct x
      | x : worker_state |- _ => destruct x
      end;
    rewrite ?length_app, ?Nat2Z.inj_add in *;
    cbn [List.length loop_holds] in *;
    repeat match goal with
      | E : (_ =? _)%Z = true |- _ => apply Z.eqb_eq in E
      | E : (_ <? _)%Z = false |- _ => apply Z.ltb_ge in E
      | E : loop _ = _ |- _ => rewrite E in *; cbn in *
      | E : closer _ = _ |- _ => rewrite E in *
      end;
    (split;
     [lia
     | intros C;
       first [ congruence
             | apply I2; congruence
             | assert (wg st = 0%Z) by (apply I2; congruence); lia ]]).
Qed.

Lemma run_counter_inv (trace : list action) :
  forall st st',
    run client out seedURL st trace = Some st' ->
    counter_inv st -> counter_inv st'.
Proof.
  induction trace as [|a trace IH]; cbn [run]; intros st st' R I.
  - inversion R; subst; exact I.
  - destruct (step client out seedURL st a) as [st1|] eqn:S; [|discriminate].
    eapply IH; [exact R|]. eapply step_counter_inv; eauto.
Qed.

End CounterInvariant.

Lemma init_counter_inv (c : crawler_) (seedURL : URL) :
  counter_inv (init c seedURL).
Proof.
  unfold counter_inv, outstanding, init. cbn. split; [|congruence].
  induction (Z.to_nat (workerCount c)) as [|n IH]; [reflexivity|].
  cbn [repeat]. rewrite sum_in_flight_cons. unfold in_flight at 1. cbn. lia.
Qed.

(** Every state of every execution of [Crawl] keeps [counter_inv]. *)
Lemma Crawl_counter_inv (c : crawler_) (rawURL : gostring) (out : Writer)
      (trace : list action) (st : state) :
  Crawl c rawURL out trace = Ok (Some st) -> counter_inv st.
Proof.
  unfold Crawl. destruct (Parse rawURL) as [seedURL|e]; cbn [bind];
    [|discriminate].
  intros [= R]. eapply run_counter_inv; [exact R|apply init_counter_inv].
Qed.

(** ** Executions in which no worker returns early *)

Lemma length_update {A : Type} (l : list A) (i : nat) (x : A) :
  List.length (update i x l) = List.length l.
Proof. revert i; induction l; intros [|i]; cbn; auto. Qed.

Lemma Forall_update {A : Type} (P : A -> Prop) (l : list A) (i : nat) (x : A) :
  Forall P l -> P x -> Forall P (update i x l).
Proof.
  intros F; revert i; induction F; intros [|i] Px; cbn; auto.
Qed.

Lemma forallb_update {A : Type} (f : A -> bool) (l : list A) (i : nat) (x : A) :
  forallb f l = true -> f x = true -> forallb f (update i x l) = true.
Proof.
  revert i; induction l as [|a l IH]; intros [|i] F Fx; cbn in *; auto;
    apply andb_true_iff in F; destruct F as [Fa Fl];
    apply andb_true_iff; auto.
Qed.

Lemma forallb_nth_error {A : Type} (f : A -> bool) (l : list A) (i : nat) (x : A) :
  forallb f l = true -> nth_error l i = Some x -> f x = true.
Proof.
  intros F N. rewrite forallb_forall in F. apply F.
  eapply nth_error_In; eauto.
Qed.

Lemma Forall_nth_error {A : Type} (P : A -> Prop) (l : list A) (i : nat) (x : A) :
  Forall P l -> nth_error l i = Some x -> P x.
Proof.
  intros F N. rewrite Forall_forall in F. apply F.
  eapply nth_error_In; eauto.
Qed.

Lemma pipeline_ok_closed (b : bool) (p : pipeline) :
  pipeline_ok b p = true -> pipeline_ok true p = true.
Proof.
  unfold pipeline_ok. destruct p as [w pm em]; cbn.
  destruct b, w, pm, em; cbn; auto.
Qed.

Section Termination.

Variable client : httpClient.
Variable out : Writer.
Variable seedURL : URL.

Lemma step_pipelines_length (st st' : state) (a : action) :
  step client out seedURL st a = Some st' ->
  List.length (pipelines st') = List.length (pipelines st).
Proof.
  intros H. destruct a; step_cases H; cbn; rewrite ?length_update; reflexivity.
Qed.

Lemma step_termination_inv (n : nat) (st st' : state) (a : action) :
  step client out seedURL st a = Some st' ->
  (forall k i u, a = APublish k i -> nth_error (pending st) k = Some u ->
                 returns_early client u = false) ->
  termination_inv n st -> termination_inv n st'.
Proof.
  intros H NR (L & F & PC & EC & LR).
  unfold termination_inv.
  split; [rewrite (step_pipelines_length _ _ H); exact L|].
  clear L n.
  destruct a; step_cases H;
    cbn [wg cache pending closer pipelines pagesClosed errsClosed loop
         written printed panicked
         set_wg set_cache set_pending set_closer set_pipelines
         set_pagesClosed set_errsClosed set_loop set_written set_printed
         set_panicked] in *;
    repeat match goal with
      | G : getPages_body client ?u = Returns (_, ?n),
        N : nth_error (pending _) _ = Some ?u |- _ =>
          let X := fresh "X" in
          pose proof (NR _ _ _ eq_refl N) as X;
          unfold returns_early in X; rewrite G in X;
          destruct n; [|discriminate X]; clear G X
      | E : closer _ = _ |- _ => rewrite E in *
      | E : loop _ = _ |- _ => rewrite E in *
      | E : (_ && _)%bool = true |- _ => apply andb_true_iff in E; destruct E
      | E : negb _ = true |- _ => apply negb_true_iff in E
      end;
    cbn [is_closed] in *;
    remember (is_closed (closer st)) as closed eqn:Hclosed in *; clear Hclosed;
    try match goal with
      | N : nth_error (pipelines _) _ = Some ?p |- _ =>
          pose proof (Forall_nth_error _ F N) as OKp;
          assert (PCp : forallb (fun p => is_MExit (pageMerger p)) (pipelines st)
                        = true -> is_MExit (pageMerger p) = true)
            by (intros C; exact (forallb_nth_error _ _ _ C N));
          assert (ECp : forallb (fun p => is_MExit (errMerger p)) (pipelines st)
                        = true -> is_MExit (errMerger p) = true)
            by (intros C; exact (forallb_nth_error _ _ _ C N));
          destruct p as [w pm em];
          cbn [worker pageMerger errMerger set_worker set_pageMerger
               set_errMerger] in *;
          subst
      end;
    (split;
     [ first [ exact F
             | apply Forall_update;
               [ exact F
               | unfold pipeline_ok in *; cbn in *;
                 repeat match goal with
                   | x : merger_state _ |- _ => destruct x
                   | x : worker_state |- _ => destruct x
                   | x : bool |- _ => destruct x
                   end; cbn in *; congruence ]
             | eapply Forall_impl; [|exact F];
               cbn beta; intros ? ?; eapply pipeline_ok_closed; eassumption ]
     | ]);
    (split;
     [ intros C;
       first [ apply forallb_update;
               [ apply PC; first [exact C | reflexivity]
               | first [ reflexivity
                       | exfalso;
                         assert (X : is_MExit (A:=Page) _ = true)
                           by (apply PCp; apply PC; first [exact C | reflexivity]);
                         cbn in X; congruence
                       | apply PCp; apply PC; first [exact C | reflexivity] ] ]
             | assumption
             | apply PC; first [exact C | reflexivity] ]
     | ]);
    (split;
     [ intros C;
       first [ apply forallb_update;
               [ apply EC; first [exact C | reflexivity]
               | first [ reflexivity
                       | exfalso;
                         assert (X : is_MExit (A:=error) _ = true)
                           by (apply ECp; apply EC; first [exact C | reflexivity]);
                         cbn in X; congruence
                       | apply ECp; apply EC; first [exact C | reflexivity] ] ]
             | assumption
             | apply EC; first [exact C | reflexivity] ]
     | ]);
    first [ exact LR | intros C; first [discriminate C | auto] ].
Qed.

Lemma run_termination_inv (n : nat) (trace : list action) :
  forall st st',
    run client out seedURL st trace = Some st' ->
    history.no_early_return client out seedURL st trace = true ->
    termination_inv n st -> termination_inv n st'.
Proof.
  unfold history.no_early_return.
  induction trace as [|a trace IH]; cbn [run history.fetched];
    intros st st' R NR I.
  - inversion R; subst; exact I.
  - destruct (step client out seedURL st a) as [st1|] eqn:S; [|discriminate].
    assert (NR1 : forallb (fun u => negb (returns_early client u))
                          (history.fetched client out seedURL st1 trace) = true
                  /\ forall k i u,
                      a = APublish k i -> nth_error (pending st) k = Some u ->
                      returns_early client u = false).
    { destruct a; try (split; [exact NR|discriminate]).
      destruct (nth_error (pending st) k) as [u|] eqn:N.
      - cbn [forallb] in NR. apply andb_true_iff in NR. destruct NR as [NU NR].
        split; [exact NR|]. intros k0 i0 u0 E X.
        inversion E; subst k0 i0. rewrite N in X. inversion X; subst u0.
        apply negb_true_iff. exact NU.
      - split; [exact NR|]. intros k0 i0 u0 E X.
        inversion E; subst k0 i0. rewrite N in X. discriminate X. }
    destruct NR1 as [NR1 NRa].
    eapply IH; [exact R|exact NR1|]. eapply step_termination_inv; eauto.
Qed.

End Termination.

Lemma init_termination_inv (c : crawler_) (seedURL : URL) :
  termination_inv (Z.to_nat (workerCount c)) (init c seedURL).
Proof.
  unfold termination_inv, init. cbn.
  split; [apply repeat_length|].
  split; [|repeat split; discriminate].
  apply Forall_forall. intros p I. apply repeat_spec in I. subst. reflexivity.
Qed.

(** With no item outstanding nothing is pending, in flight or in the
    hands of the loop. *)
Lemma outstanding_zero (st : state) :
  outstanding st = 0%Z ->
  pending st = [] /\ sum_in_flight (pipelines st) = 0%Z
  /\ loop_holds (loop st) = 0%Z.
Proof.
  unfold outstanding. intros H.
  pose proof (sum_in_flight_nonneg (pipelines st)).
  assert (0 <= loop_holds (loop st))%Z
    by (destruct (loop st) as [| | | |[e|]]; cbn; lia).
  destruct (pending st); cbn [List.length] in *; [|lia].
  repeat split; lia.
Qed.

(** The only steps that change the counter are [wg.Add(1)] in the
    range over the links and [wg.Done()]. *)
Lemma step_wg (client : httpClient) (out : Writer) (seedURL : URL)
      (st st' : state) (a : action) :
  step client out seedURL st a = Some st' ->
  wg st' = wg st
  \/ (a = ALink /\ wg st' = wg st + 1
      /\ exists newURL rest, loop st' = LSpawn newURL rest)%Z
  \/ (a = ADone /\ wg st' = wg st - 1 /\ loop st = LDone /\ loop st' = LSelect)%Z.
Proof.
  intros H. destruct a; step_cases H; cbn; eauto 10.
Qed.

(** [wg.Wait()] returns exactly when the counter is zero. *)
Lemma step_Wait (client : httpClient) (out : Writer) (seedURL : URL)
      (st st' : state) :
  step client out seedURL st AWait = Some st'
  <-> panicked st = None /\ closer st = CWait /\ wg st = 0%Z
      /\ st' = set_closer st CWoken.
Proof.
  unfold step. split.
  - intros H. destruct (panicked st); [discriminate H|].
    cbn [step_unpanicked] in H.
    destruct (closer st); try discriminate H.
    destruct (wg st =? 0)%Z eqn:E; [|discriminate H].
    apply Z.eqb_eq in E. inversion H. auto.
  - intros (P & C & W & ->). rewrite P. cbn [step_unpanicked].
    rewrite C, W. reflexivity.
Qed.

(** [close(newURLs)] runs exactly once [wg.Wait()] has returned. *)
Lemma step_CloseFrontier (client : httpClient) (out : Writer) (seedURL : URL)
      (st st' : state) :
  step client out seedURL st ACloseFrontier = Some st'
  <-> panicked st = None /\ closer st = CWoken /\ st' = set_closer st CClosed.
Proof.
  unfold step. split.
  - intros H. destruct (panicked st); [discriminate H|].
    cbn [step_unpanicked] in H.
    destruct (closer st); try discriminate H. inversion H. auto.
  - intros (P & C & ->). rewrite P. cbn [step_unpanicked].
    rewrite C. reflexivity.
Qed.

(** Nothing else moves the goroutine that closes the frontier. *)
Lemma step_closer (client : httpClient) (out : Writer) (seedURL : URL)
      (st st' : state) (a : action) :
  step client out seedURL st a = Some st' ->
  closer st' = closer st
  \/ (a = AWait /\ closer st = CWait /\ wg st = 0%Z /\ closer st' = CWoken)
  \/ (a = ACloseFrontier /\ closer st = CWoken /\ closer st' = CClosed).
Proof.
  intros H. destruct a; step_cases H; cbn; auto.
  right; left. repeat split; auto. apply Z.eqb_eq. assumption.
Qed.

(** The range over the links is entered only from the page branch. *)
Lemma step_Link (client : httpClient) (out : Writer) (seedURL : URL)
      (st st' : state) :
  step client out seedURL st ALink = Some st' ->
  exists link rest, loop st = LLinks (link :: rest).
Proof. intros H. step_cases H; eauto. Qed.

(** C1, as the code has it.  In every state of every execution of the
    result loop: the counter equals the outstanding work, so it is zero
    only when no publish is pending; it moves only by the [wg.Add(1)]
    that precedes the [go] statement of a newly admitted link and by
    the [wg.Done()] that ends the handling of an item, which never finds
    it at zero; once at zero it stays there.  [wg.Wait()] returns
    exactly when the counter is zero, [close(newURLs)] runs exactly
    when [wg.Wait()] has returned, and nothing else moves the goroutine
    that closes the frontier: the frontier is closed once the counter
    has reached zero, only then, and not a second time; nothing is
    pending then, so no publisher ever sends on the closed frontier.
    In an execution with at least one worker in which no URL taken from
    the frontier made its worker return, the loop returns [nil] only
    after the frontier was closed. *)
Theorem counter_guards_frontier
        (c : crawler_) (seedURL : URL) (out : Writer)
        (trace : list action) (st : state) :
  run (httpClient_ c) out seedURL (init c seedURL) trace = Some st ->
  wg st = outstanding st
  /\ (wg st = 0%Z -> pending st = [])
  /\ (loop st = LDone -> (0 < wg st)%Z)
  /\ (forall a st',
         step (httpClient_ c) out seedURL st a = Some st' ->
         wg st' = wg st
         \/ (a = ALink /\ wg st' = wg st + 1
             /\ exists newURL rest, loop st' = LSpawn newURL rest)%Z
         \/ (a = ADone /\ wg st' = wg st - 1
             /\ loop st = LDone /\ loop st' = LSelect)%Z)
  /\ (wg st = 0%Z ->
      forall a st',
        step (httpClient_ c) out seedURL st a = Some st' -> wg st' = 0%Z)
  /\ (forall st',
         step (httpClient_ c) out seedURL st AWait = Some st'
         <-> panicked st = None /\ closer st = CWait /\ wg st = 0%Z
             /\ st' = set_closer st CWoken)
  /\ (forall st',
         step (httpClient_ c) out seedURL st ACloseFrontier = Some st'
         <-> panicked st = None /\ closer st = CWoken
             /\ st' = set_closer st CClosed)
  /\ (forall a st',
         step (httpClient_ c) out seedURL st a = Some st' ->
         closer st' = closer st
         \/ (a = AWait /\ closer st = CWait /\ wg st = 0%Z
             /\ closer st' = CWoken)
         \/ (a = ACloseFrontier /\ closer st = CWoken /\ closer st' = CClosed))
  /\ (closer st <> CWait -> wg st = 0%Z /\ pending st = [])
  /\ (forall k, step (httpClient_ c) out seedURL st (APublishClosed k) = None)
  /\ (closer st = CClosed ->
      step (httpClient_ c) out seedURL st ACloseFrontier = None)
  /\ (history.no_early_return (httpClient_ c) out seedURL (init c seedURL) trace
      = true ->
      (0 < workerCount c)%Z ->
      loop st = LReturned None ->
      closer st = CClosed /\ wg st = 0%Z /\ pending st = []).
Proof.
  intros R.
  pose proof (run_counter_inv _ _ _ _ R (init_counter_inv c seedURL)) as [I1 I2].
  assert (Z0 : wg st = 0%Z -> pending st = []).
  { intros Z. rewrite I1 in Z. apply outstanding_zero in Z. tauto. }
  assert (LD : loop st = LDone -> (0 < wg st)%Z).
  { intros L. rewrite I1. pose proof (outstanding_ge_loop st) as G.
    rewrite L in G. cbn in G. lia. }
  split; [exact I1|]. split; [exact Z0|]. split; [exact LD|].
  split; [intros a st'; apply step_wg|].
  split.
  { intros Z a st' S.
    destruct (step_wg _ _ _ _ _ S) as [E|[(-> & _)|(_ & _ & L & _)]].
    - congruence.
    - apply step_Link in S. destruct S as (link & rest & L).
      pose proof (outstanding_ge_loop st) as G. rewrite L in G. cbn in G. lia.
    - apply LD in L. lia. }
  split; [intros st'; apply step_Wait|].
  split; [intros st'; apply step_CloseFrontier|].
  split; [intros a st'; apply step_closer|].
  split; [intros C; split; auto|].
  split.
  { intros k. unfold step. destruct (panicked st); [reflexivity|].
    cbn [step_unpanicked].
    destruct (closer st) eqn:C; try reflexivity.
    assert (P : pending st = []) by (apply Z0, I2; congruence).
    rewrite P. destruct k; reflexivity. }
  split.
  { intros C. unfold step. destruct (panicked st); [reflexivity|].
    cbn [step_unpanicked]. rewrite C. reflexivity. }
  intros NR W L.
  pose proof (@run_termination_inv _ out seedURL _ _ _ _ R NR
                (init_termination_inv c seedURL))
    as (Len & F & PC & EC & LR).
  assert (C : closer st = CClosed).
  { destruct (pipelines st) as [|p ps] eqn:P; [cbn in Len; lia|].
    inversion F as [|? ? OK _]; subst.
    unfold pipeline_ok in OK.
    destruct (LR L) as [X|X]; [apply PC in X|apply EC in X];
      cbn [forallb] in X; apply andb_true_iff in X; destruct X as [X _];
      destruct (closer st); try reflexivity; cbn [is_closed] in OK;
      destruct p as [w pm em]; cbn in *;
      destruct w as [| ? [|] | | |], pm, em; cbn in *; congruence. }
  split; [exact C|].
  assert (Z : wg st = 0%Z) by (apply I2; congruence).
  auto.
Qed.

Lemma counter_guards_frontier_witness :
  exists st,
    run seed_only_client discard (url_of "http://x.test/")
        (init (New 1 seed_only_client) (url_of "http://x.test/"))
        self_link_schedule = Some st
    /\ closer st = CClosed /\ wg st = 0%Z /\ pending st = [].
Proof.
  eexists. split; [vm_compute; reflexivity|].
  refine (proj2 (proj2 (proj2 (proj2 (proj2 (proj2 (proj2 (proj2 (proj2
            (proj2 (proj2
            (counter_guards_frontier (New 1 seed_only_client)
               (url_of "http://x.test/") discard self_link_schedule _)))))))))))
            _ _ _).
  - vm_compute. reflexivity.
  - vm_compute. reflexivity.
  - cbn. lia.
  - reflexivity.
Defined.

(** C1 as the specification words it fails: the loop ends with the
    frontier open, and the counter at 1, when the seed's fetch gives a
    fatal error. *)
Lemma loop_ends_with_frontier_open :
  ~ (forall c seedURL out trace st r,
        run (httpClient_ c) out seedURL (init c seedURL) trace = Some st ->
        loop st = LReturned r ->
        closer st = CClosed).
Proof.
  intros H.
  specialize (H (New 1 refusing_client) (url_of "http://x.test/") discard
                seed_error_schedule).
  vm_compute in H. specialize (H _ _ eq_refl eq_refl). discriminate.
Qed.

(** A worker that returns on a fetch error ends the loop as well, with
    [nil]: under [early_return_schedule] the only worker has left, the
    merged page channel is closed, and [Crawl] returns [nil] with the
    frontier open, the counter at 1 and the link to [b] unpublished. *)
Lemma early_return_ends_loop :
  exists st,
    run two_links_client discard (url_of "http://x.test/")
        (init (New 1 two_links_client) (url_of "http://x.test/"))
        early_return_schedule = Some st
    /\ loop st = LReturned None /\ closer st = CWait /\ wg st = 1%Z
    /\ pending st = [url_of "http://x.test/b"]
    /\ history.no_early_return two_links_client discard (url_of "http://x.test/")
         (init (New 1 two_links_client) (url_of "http://x.test/"))
         early_return_schedule = false.
Proof.
  eexists. split; [vm_compute; reflexivity|].
  vm_compute. auto 10.
Qed.

(** ** Double visits *)

(** C2 fails on the code.  The seed is never put in [cache]: when the
    seed page links to itself the link is admitted, the seed is fetched
    again and two pages are written for it. *)
Theorem seed_self_link_is_fetched_twice :
  exists st,
    Crawl (New 1 self_link_client) (str "http://x.test/") discard
          self_link_schedule = Ok (Some st)
    /\ loop st = LReturned None
    /\ written st
       = [Marshal (mkPage (url_of "http://x.test/") [url_of "http://x.test/"]);
          Marshal (mkPage (url_of "http://x.test/") [url_of "http://x.test/"])]
    /\ cache st = [str "http://x.test/"].
Proof.
  eexists. split; [vm_compute; reflexivity|].
  vm_compute. auto.
Qed.

(** * Further properties of the code *)

Import history.

(** ** [collectLinks] in closed form *)

Lemma collect_attrs_closed (pageURL : URL) (attrs : list Attribute) :
  forall links,
    Forall (fun rawURL => is_ok (Parse rawURL) = true)
           (map Val (filter (fun attr => gostring_eqb (Key attr) (str "href")) attrs)) ->
    collect_attrs pageURL attrs links
    = Returns (links
               ++ flat_map (kept pageURL)
                    (map Val (filter (fun attr => gostring_eqb (Key attr) (str "href"))
                                     attrs))).
Proof.
  induction attrs as [|attr attrs IH]; intros links F;
    cbn [collect_attrs filter map flat_map].
  - rewrite app_nil_r. reflexivity.
  - cbn [filter] in F.
    destruct (gostring_eqb (Key attr) (str "href")); [|apply IH; exact F].
    cbn [map] in F. inversion F as [|? ? P F']; subst.
    cbn [map flat_map]. unfold kept at 1.
    pose proof (formatURL_cases pageURL (Val attr)) as C. unfold URL_Parse in C.
    destruct (Parse (Val attr)) as [ref|e]; [|discriminate P]. cbn [bind] in C.
    destruct C as [[_ E]|(_ & _ & E)]; rewrite E, (IH _ F').
    + rewrite <- app_assoc. reflexivity.
    + reflexivity.
Qed.

Lemma collectLinks_loop_closed (pageURL : URL) (tokens : list Token) :
  forall links,
    Forall (fun rawURL => is_ok (Parse rawURL) = true) (hrefs tokens) ->
    collectLinks_loop pageURL tokens links
    = Returns (links ++ flat_map (kept pageURL) (hrefs tokens)).
Proof.
  induction tokens as [|tag tokens IH]; intros links F;
    cbn [collectLinks_loop].
  - cbn. rewrite app_nil_r. reflexivity.
  - unfold hrefs in *. cbn [flat_map] in *.
    destruct (gostring_eqb (Data tag) (str "a")).
    + apply Forall_app in F. destruct F as [F1 F2].
      rewrite (collect_attrs_closed pageURL _ _ F1), (IH _ F2).
      rewrite flat_map_app, app_assoc. reflexivity.
    + cbn [app] in *. apply IH. exact F.
Qed.

(** X1. Document order.  On a page all of whose anchor references
    parse, [collectLinks] returns, in document order and with
    duplicates, the link [formatURL] keeps for each [href] attribute of
    each [a] token; other tokens and other attributes give nothing, and
    an anchor with several [href] attributes gives a link for each. *)
Theorem collectLinks_document_order (pageURL : URL) (r : list Token) :
  Forall (fun rawURL => is_ok (Parse rawURL) = true) (hrefs r) ->
  collectLinks pageURL r = Returns (flat_map (kept pageURL) (hrefs r)).
Proof.
  intros F. unfold collectLinks.
  rewrite (collectLinks_loop_closed pageURL _ [] F). reflexivity.
Qed.

Lemma collectLinks_document_order_witness :
  collectLinks (url_of "http://x.test/d/")
    [mkToken (str "p") [mkAttribute (str "href") (str "%zz")];
     mkToken (str "a") [mkAttribute (str "href") (str "b");
                        mkAttribute (str "class") (str "c");
                        mkAttribute (str "href") (str "mailto:a@x.test");
                        mkAttribute (str "href") (str "b#top")]]
  = Returns
      (flat_map (kept (url_of "http://x.test/d/"))
         (hrefs
            [mkToken (str "p") [mkAttribute (str "href") (str "%zz")];
             mkToken (str "a") [mkAttribute (str "href") (str "b");
                                mkAttribute (str "class") (str "c");
                                mkAttribute (str "href") (str "mailto:a@x.test");
                                mkAttribute (str "href") (str "b#top")]]))
  /\ flat_map (kept (url_of "http://x.test/d/"))
       (hrefs
          [mkToken (str "p") [mkAttribute (str "href") (str "%zz")];
           mkToken (str "a") [mkAttribute (str "href") (str "b");
                              mkAttribute (str "class") (str "c");
                              mkAttribute (str "href") (str "mailto:a@x.test");
                              mkAttribute (str "href") (str "b#top")]])
     = [url_of "http://x.test/d/b"; url_of "http://x.test/d/b"].
Proof.
  split.
  - apply collectLinks_document_order.
    match goal with
    | |- Forall ?P ?l => let l' := eval vm_compute in l in change (Forall P l')
    end.
    repeat (constructor; [vm_compute; reflexivity|]). constructor.
  - vm_compute. reflexivity.
Defined.

(** X2. Extraction composes: the links of a page are the links of its
    first part followed by the links of the rest, whenever both parts
    can be extracted. *)
Theorem collectLinks_app (pageURL : URL) (r1 r2 : list Token) (links1 links2 : list URL) :
  collectLinks pageURL r1 = Returns links1 ->
  collectLinks pageURL r2 = Returns links2 ->
  collectLinks pageURL (r1 ++ r2) = Returns (links1 ++ links2).
Proof.
  intros H1 H2.
  assert (F : forall r links, collectLinks pageURL r = Returns links ->
                              Forall (fun rawURL => is_ok (Parse rawURL) = true) (hrefs r)).
  { intros r links H.
    assert (X : exists l, collectLinks pageURL r = Returns l) by eauto.
    apply collectLinks_returns in X.
    unfold hrefs. apply Forall_flat_map.
    eapply Forall_impl; [|exact X]. intros tag T. cbn beta in T.
    destruct (gostring_eqb (Data tag) (str "a")) eqn:D; [|constructor].
    apply gostring_eqb_spec in D. specialize (T D).
    apply Forall_map. clear D.
    induction (Attr tag) as [|attr attrs IH]; cbn [filter]; [constructor|].
    inversion T; subst.
    destruct (gostring_eqb (Key attr) (str "href")) eqn:K; [|auto].
    apply gostring_eqb_spec in K. constructor; auto. }
  pose proof (F _ _ H1) as F1. pose proof (F _ _ H2) as F2.
  unfold collectLinks in *.
  rewrite (collectLinks_loop_closed pageURL _ [] F1) in H1.
  rewrite (collectLinks_loop_closed pageURL _ [] F2) in H2.
  inversion H1; inversion H2; subst.
  rewrite collectLinks_loop_closed.
  - unfold hrefs. rewrite !flat_map_app. reflexivity.
  - unfold hrefs in *. rewrite flat_map_app. apply Forall_app; auto.
Qed.

Lemma collectLinks_app_witness :
  collectLinks (url_of "http://x.test/") ([anchor "/a"] ++ [anchor "/b"])
  = Returns ([url_of "http://x.test/a"] ++ [url_of "http://x.test/b"]).
Proof.
  apply (collectLinks_app (url_of "http://x.test/") [anchor "/a"] [anchor "/b"]);
    vm_compute; reflexivity.
Defined.

(** ** The worker loop *)

(** A worker returns only after sending an error. *)
Lemma getPages_body_Return (client : httpClient) (url : URL) (sent : emit) :
  getPages_body client url = Returns (sent, Return) ->
  exists err, sent = EmitErr err.
Proof.
  unfold getPages_body. intros H.
  destruct (client (String url)) as [resp|e].
  - destruct (StatusCode resp >=? 400)%Z; [discriminate H|].
    destruct (Body_Read resp) as [buf|e].
    + destruct (Body_Close resp) as [e|].
      * inversion H. eauto.
      * destruct (collectLinks url buf); discriminate H.
    + inversion H. eauto.
  - inversion H. eauto.
Qed.

(** X4. A worker run.  Against a frontier that offers [urls] and is
    then closed, a worker that ends at the closed frontier has sent
    exactly one result per URL, in order, each with the worker going
    on; a worker that returned early has sent one result for each URL
    of a prefix, the last an error, and left the rest unread. *)
Theorem getPages_run (client : httpClient) (urls : list URL) (outs : list emit) :
  (getPages client urls = (outs, FrontierClosed) ->
   Forall2 (fun url sent => getPages_body client url = Returns (sent, Continue))
           urls outs)
  /\ (forall unread,
         getPages client urls = (outs, ReturnedEarly unread) ->
         exists taken url outs' err,
           urls = taken ++ url :: unread
           /\ outs = outs' ++ [EmitErr err]
           /\ Forall2 (fun url sent =>
                         getPages_body client url = Returns (sent, Continue))
                      taken outs'
           /\ getPages_body client url = Returns (EmitErr err, Return)).
Proof.
  revert outs. induction urls as [|url urls IH]; intros outs; cbn [getPages].
  - split; [intros [= <-]; constructor | intros unread H; discriminate].
  - destruct (getPages_body client url) as [[sent [|]]|e] eqn:B.
    + destruct (getPages client urls) as [outs1 e1] eqn:G.
      destruct (IH outs1) as [IH1 IH2]. split.
      * intros [= <- ->]. constructor; auto.
      * intros unread [= <- ->].
        destruct (IH2 unread eq_refl) as (taken & u & outs' & err & -> & -> & F & L).
        exists (url :: taken), u, (sent :: outs'), err.
        repeat split; auto.
    + split; [discriminate|].
      intros unread [= <- <-].
      destruct (getPages_body_Return _ _ B) as (err & ->).
      exists [], url, [], err. repeat split; auto.
    + split; [discriminate | intros unread H; discriminate].
Qed.

Lemma getPages_run_witness :
  Forall2 (fun url sent =>
             getPages_body self_link_client url = Returns (sent, Continue))
          [url_of "http://x.test/a"; url_of "http://x.test/b"]
          [EmitPage (mkPage (url_of "http://x.test/a") [url_of "http://x.test/"]);
           EmitPage (mkPage (url_of "http://x.test/b") [url_of "http://x.test/"])].
Proof.
  apply (proj1 (getPages_run self_link_client
                  [url_of "http://x.test/a"; url_of "http://x.test/b"]
                  [EmitPage (mkPage (url_of "http://x.test/a") [url_of "http://x.test/"]);
                   EmitPage (mkPage (url_of "http://x.test/b") [url_of "http://x.test/"])])).
  vm_compute. reflexivity.
Defined.

(** ** Admission and fetching *)

Lemma Permutation_remove_nth {A : Type} (l : list A) (k : nat) (x : A) :
  nth_error l k = Some x -> Permutation (x :: remove_nth k l) l.
Proof.
  revert k; induction l as [|a l IH]; intros [|k] N; cbn in N;
    try discriminate.
  - inversion N; subst. cbn. apply Permutation_refl.
  - cbn [remove_nth]. eapply perm_trans; [apply perm_swap|].
    constructor. apply IH. exact N.
Qed.

Lemma in_cache_false (key : gostring) (keys : list gostring) :
  in_cache key keys = false -> ~ In key keys.
Proof.
  unfold in_cache. intros E I.
  assert (X : existsb (gostring_eqb key) keys = true)
    by (apply existsb_exists; exists key; split; [exact I|apply gostring_eqb_refl]).
  congruence.
Qed.

Section Admission.

Variable client : httpClient.
Variable out : Writer.
Variable seedURL : URL.

Lemma step_not_panicked (st st' : state) (a : action) :
  step client out seedURL st a = Some st' -> panicked st = None.
Proof. unfold step. destruct (panicked st); [discriminate|reflexivity]. Qed.

Lemma run_not_panicked (trace : list action) (st st' : state) :
  run client out seedURL st trace = Some st' ->
  panicked st' = None -> panicked st = None.
Proof.
  destruct trace as [|a trace]; cbn [run].
  - intros [= ->]; auto.
  - destruct (step client out seedURL st a) eqn:S; [|discriminate].
    intros _ _. eapply step_not_panicked; eauto.
Qed.

(** One step moves a URL from the pending publishers to a worker, from
    the loop to the pending publishers, or admits a new one. *)
Lemma step_flow (st st' : state) (a : action) :
  step client out seedURL st a = Some st' ->
  panicked st' = None ->
  Permutation
    (match a with
     | APublish k _ =>
         match nth_error (pending st) k with Some u => [u] | None => [] end
     | _ => []
     end ++ pending st' ++ spawning (loop st'))
    (pending st ++ spawning (loop st)
     ++ match a, loop st' with
        | ALink, LSpawn newURL _ => [newURL]
        | _, _ => []
        end).
Proof.
  intros H NP.
  destruct a; step_cases H; cbn in NP; try discriminate NP; cbn;
    repeat match goal with
      | E : loop _ = _ |- _ => rewrite E; cbn
      | E : nth_error (pending _) _ = _ |- _ => rewrite E in *; cbn
      end;
    rewrite ?app_nil_r;
    try apply Permutation_refl;
    try (destruct (loop st); cbn; rewrite ?app_nil_r; apply Permutation_refl).
  all: match goal with
       | N : nth_error (pending ?s) ?k = Some ?u |- _ =>
           exact (Permutation_app_tail (spawning (loop s))
                    (Permutation_remove_nth (pending s) k N))
       end.
Qed.

Lemma run_flow (trace : list action) :
  forall st st',
    run client out seedURL st trace = Some st' ->
    panicked st' = None ->
    Permutation
      (fetched client out seedURL st trace ++ pending st' ++ spawning (loop st'))
      (pending st ++ spawning (loop st) ++ admitted client out seedURL st trace).
Proof.
  induction trace as [|a trace IH]; intros st st' R NP;
    cbn [run fetched admitted] in *.
  - inversion R; subst. rewrite app_nil_r. apply Permutation_refl.
  - destruct (step client out seedURL st a) as [st1|] eqn:S; [|discriminate].
    pose proof (run_not_panicked _ _ R NP) as NP1.
    pose proof (step_flow _ _ S NP1) as F1.
    pose proof (IH _ _ R NP) as F.
    set (fs := match a with
               | APublish k _ =>
                   match nth_error (pending st) k with Some u => [u] | None => [] end
               | _ => []
               end) in *.
    set (ads := match a, loop st1 with
                | ALink, LSpawn newURL _ => [newURL]
                | _, _ => []
                end) in *.
    assert (EF : match a with
                 | APublish k _ =>
                     match nth_error (pending st) k with
                     | Some u => u :: fetched client out seedURL st1 trace
                     | None => fetched client out seedURL st1 trace
                     end
                 | _ => fetched client out seedURL st1 trace
                 end = fs ++ fetched client out seedURL st1 trace).
    { subst fs. destruct a; try reflexivity.
      destruct (nth_error (pending st) k); reflexivity. }
    assert (EA : match a, loop st1 with
                 | ALink, LSpawn newURL _ =>
                     newURL :: admitted client out seedURL st1 trace
                 | _, _ => admitted client out seedURL st1 trace
                 end = ads ++ admitted client out seedURL st1 trace).
    { subst ads. destruct a; try reflexivity.
      destruct (loop st1); reflexivity. }
    rewrite EF, EA. clear EF EA.
    rewrite <- app_assoc.
    eapply perm_trans; [apply Permutation_app_head; exact F|].
    rewrite !app_assoc. apply Permutation_app_tail.
    rewrite <- !app_assoc. exact F1.
Qed.

(** An admitted link is on the seed's host and new to the cache, which
    gets its key; no other step touches the cache. *)
Lemma step_cache (st st' : state) (a : action) :
  step client out seedURL st a = Some st' ->
  match a, loop st' with
  | ALink, LSpawn newURL _ =>
      cache st' = String newURL :: cache st
      /\ ~ In (String newURL) (cache st)
      /\ Hostname newURL = Hostname seedURL
  | _, _ => cache st' = cache st
  end.
Proof.
  intros H. destruct a; step_cases H; cbn;
    try match goal with
      | |- match ?l with _ => _ end => destruct l; reflexivity
      end;
    try reflexivity.
  repeat split.
  - apply in_cache_false. assumption.
  - apply gostring_eqb_spec. assumption.
Qed.

Lemma run_cache (trace : list action) :
  forall st st',
    run client out seedURL st trace = Some st' ->
    cache st' = rev (map String (admitted client out seedURL st trace)) ++ cache st
    /\ Forall (fun link => Hostname link = Hostname seedURL)
              (admitted client out seedURL st trace)
    /\ (NoDup (cache st) -> NoDup (cache st')).
Proof.
  induction trace as [|a trace IH]; intros st st' R; cbn [run admitted] in *.
  - inversion R; subst. cbn. auto.
  - destruct (step client out seedURL st a) as [st1|] eqn:S; [|discriminate].
    pose proof (step_cache _ _ S) as C.
    destruct (IH _ _ R) as (E & F & N).
    destruct a; cbn beta iota in C;
      try (rewrite C in E, N; repeat split; auto; fail).
    destruct (loop st1); cbn beta iota in C;
      try (rewrite C in E, N; repeat split; auto; fail).
    destruct C as (C & NI & HN). rewrite C in *.
    cbn [map rev]. rewrite <- app_assoc. cbn [app].
    repeat split; auto.
    intros ND. apply N. constructor; auto.
Qed.

End Admission.

(** X5. Admission and fetching.  Along any execution of [Crawl] in
    which no goroutine panicked: the links admitted to the frontier are
    on the seed's host and have pairwise distinct string forms, which
    are exactly the keys of [cache]; the URLs taken by workers,
    together with those still waiting at a publisher or at the [go]
    statement, are the seed and the admitted links, each once.  So
    every URL fetched is on the seed's host; a URL other than the seed
    is fetched at most once, and the seed at most twice: once as the
    seed, which is never put in [cache], and once more if a page links
    to it. *)
Theorem links_admitted_once
        (c : crawler_) (seedURL : URL) (out : Writer)
        (trace : list action) (st : state) :
  run (httpClient_ c) out seedURL (init c seedURL) trace = Some st ->
  panicked st = None ->
  NoDup (map String (admitted (httpClient_ c) out seedURL (init c seedURL) trace))
  /\ cache st
     = rev (map String (admitted (httpClient_ c) out seedURL (init c seedURL) trace))
  /\ Forall (fun link => Hostname link = Hostname seedURL)
            (admitted (httpClient_ c) out seedURL (init c seedURL) trace)
  /\ Permutation
       (fetched (httpClient_ c) out seedURL (init c seedURL) trace
        ++ pending st ++ spawning (loop st))
       (seedURL :: admitted (httpClient_ c) out seedURL (init c seedURL) trace)
  /\ Forall (fun u => Hostname u = Hostname seedURL)
            (fetched (httpClient_ c) out seedURL (init c seedURL) trace)
  /\ (forall key,
         times_fetched (httpClient_ c) out seedURL (init c seedURL) trace key
         <= if gostring_eqb key (String seedURL) then 2 else 1).
Proof.
  intros R NP.
  destruct (run_cache _ _ _ _ _ R) as (E & F & N).
  cbn [init cache] in E, N. rewrite app_nil_r in E.
  pose proof (run_flow _ _ _ _ _ R NP) as P.
  cbn [init pending loop spawning app] in P.
  assert (ND : NoDup (map String (admitted (httpClient_ c) out seedURL
                                           (init c seedURL) trace))).
  { assert (ND : NoDup (cache st)) by (apply N; constructor).
    rewrite E in ND. apply NoDup_rev in ND. rewrite rev_involutive in ND.
    exact ND. }
  split; [exact ND|]. split; [exact E|]. split; [exact F|].
  split; [exact P|]. split.
  - assert (FA : Forall (fun u => Hostname u = Hostname seedURL)
                        (seedURL
                         :: admitted (httpClient_ c) out seedURL
                                     (init c seedURL) trace))
      by (constructor; [reflexivity|exact F]).
    apply (Permutation_Forall (Permutation_sym P)) in FA.
    apply Forall_app in FA. tauto.
  - intros key. unfold times_fetched.
    apply (Permutation_map String) in P.
    rewrite (Permutation_count_occ (list_eq_dec ascii_dec)) in P.
    specialize (P key). rewrite map_app, count_occ_app in P.
    cbn [map] in P.
    rewrite (NoDup_count_occ (list_eq_dec ascii_dec)) in ND.
    specialize (ND key).
    destruct (gostring_eqb key (String seedURL)) eqn:K.
    + apply gostring_eqb_spec in K. subst key.
      rewrite count_occ_cons_eq in P by reflexivity. lia.
    + assert (NE : String seedURL <> key).
      { intros X. subst key. rewrite gostring_eqb_refl in K. discriminate K. }
      rewrite count_occ_cons_neq in P by exact NE. lia.
Qed.

Lemma links_admitted_once_witness :
  times_fetched self_link_client discard (url_of "http://x.test/")
                (init (New 1 self_link_client) (url_of "http://x.test/"))
                self_link_schedule (str "http://x.test/") = 2
  /\ times_fetched self_link_client discard (url_of "http://x.test/")
                   (init (New 1 self_link_client) (url_of "http://x.test/"))
                   self_link_schedule (str "http://x.test/")
     <= (if gostring_eqb (str "http://x.test/")
                         (String (url_of "http://x.test/"))
         then 2 else 1).
Proof.
  split; [vm_compute; reflexivity|].
  refine (proj2 (proj2 (proj2 (proj2 (proj2
            (links_admitted_once (New 1 self_link_client)
               (url_of "http://x.test/") discard self_link_schedule
               (st := _) _ _)))))
            (str "http://x.test/")).
  - vm_compute. reflexivity.
  - reflexivity.
Defined.

(** ** After [Crawl] returned *)

(** X6. Once the result loop has returned, no step of the goroutines
    left behind changes what [Crawl] returned, what was written or
    printed, the counter or the cache. *)
Theorem returned_is_final
        (client : httpClient) (out : Writer) (seedURL : URL)
        (st st' : state) (a : action) (r : option error) :
  step client out seedURL st a = Some st' ->
  loop st = LReturned r ->
  loop st' = LReturned r /\ written st' = written st
  /\ printed st' = printed st /\ wg st' = wg st /\ cache st' = cache st.
Proof.
  intros H L. destruct a; step_cases H; cbn; auto; congruence.
Qed.

Lemma returned_is_final_witness :
  exists st',
    step refusing_client discard (url_of "http://x.test/")
         (mkState 1 [] [url_of "http://x.test/a"] CWait
                  [mkPipeline WRecv MRecv MRecv] false false
                  (LReturned (Some refused_error)) [] [] None)
         (APublish 0 0) = Some st'
    /\ loop st' = LReturned (Some refused_error) /\ written st' = [].
Proof.
  eexists. split; [reflexivity|].
  refine (let H := returned_is_final refusing_client discard
                     (url_of "http://x.test/")
                     (mkState 1 [] [url_of "http://x.test/a"] CWait
                              [mkPipeline WRecv MRecv MRecv] false false
                              (LReturned (Some refused_error)) [] [] None)
                     (APublish 0 0) eq_refl eq_refl in _).
  destruct H as (L & W & _). split; [exact L|exact W].
Defined.

(** ** Merging *)

Section Merging.

Variable client : httpClient.
Variable out : Writer.
Variable seedURL : URL.

Lemma step_merge_inv (st st' : state) (a : action) :
  step client out seedURL st a = Some st' ->
  merge_inv st -> merge_inv st'.
Proof.
  intros H (F & PC & EC).
  unfold merge_inv.
  destruct a; step_cases H;
    cbn [wg cache pending closer pipelines pagesClosed errsClosed loop
         written printed panicked
         set_wg set_cache set_pending set_closer set_pipelines
         set_pagesClosed set_errsClosed set_loop set_written set_printed
         set_panicked] in *;
    repeat match goal with
      | E : (_ && _)%bool = true |- _ => apply andb_true_iff in E; destruct E
      | E : negb _ = true |- _ => apply negb_true_iff in E
      end;
    try match goal with
      | N : nth_error (pipelines _) _ = Some ?p |- _ =>
          pose proof (Forall_nth_error _ F N) as OKp;
          assert (PCp : forallb (fun p => is_MExit (pageMerger p)) (pipelines st)
                        = true -> is_MExit (pageMerger p) = true)
            by (intros C; exact (forallb_nth_error _ _ _ C N));
          assert (ECp : forallb (fun p => is_MExit (errMerger p)) (pipelines st)
                        = true -> is_MExit (errMerger p) = true)
            by (intros C; exact (forallb_nth_error _ _ _ C N));
          destruct p as [w pm em];
          cbn [worker pageMerger errMerger set_worker set_pageMerger
               set_errMerger] in *;
          subst
      end;
    (split;
     [ first [ exact F
             | apply Forall_update;
               [ exact F
               | unfold merge_ok in *; cbn in *;
                 repeat match goal with
                   | x : merger_state _ |- _ => destruct x
                   | x : worker_state |- _ => destruct x
                   end; cbn in *; congruence ] ]
     | ]);
    (split;
     [ intros C;
       first [ apply forallb_update;
               [ apply PC; first [exact C | reflexivity]
               | first [ reflexivity
                       | exfalso;
                         assert (X : is_MExit (A:=Page) _ = true)
                           by (apply PCp; apply PC; first [exact C | reflexivity]);
                         cbn in X; congruence
                       | apply PCp; apply PC; first [exact C | reflexivity] ] ]
             | assumption
             | apply PC; first [exact C | reflexivity] ]
     | intros C;
       first [ apply forallb_update;
               [ apply EC; first [exact C | reflexivity]
               | first [ reflexivity
                       | exfalso;
                         assert (X : is_MExit (A:=error) _ = true)
                           by (apply ECp; apply EC; first [exact C | reflexivity]);
                         cbn in X; congruence
                       | apply ECp; apply EC; first [exact C | reflexivity] ] ]
             | assumption
             | apply EC; first [exact C | reflexivity] ] ]).
Qed.

Lemma run_merge_inv (trace : list action) :
  forall st st',
    run client out seedURL st trace = Some st' ->
    merge_inv st -> merge_inv st'.
Proof.
  induction trace as [|a trace IH]; cbn [run]; intros st st' R I.
  - inversion R; subst; exact I.
  - destruct (step client out seedURL st a) as [st1|] eqn:S; [|discriminate].
    eapply IH; [exact R|]. eapply step_merge_inv; eauto.
Qed.

End Merging.

Lemma init_merge_inv (c : crawler_) (seedURL : URL) :
  merge_inv (init c seedURL).
Proof.
  unfold merge_inv, init. cbn.
  split; [|split; discriminate].
  apply Forall_forall. intros p I. apply repeat_spec in I. subst. reflexivity.
Qed.

(** X7. The merged channels.  In every execution, the merged page
    channel is closed only after every worker has closed its page
    channel and every page forwarder has delivered what it held and
    exited; the merged error channel is closed only after every worker
    has closed its error channel and every error forwarder has
    exited. *)
Theorem merged_closes_after_all_sources
        (c : crawler_) (seedURL : URL) (out : Writer)
        (trace : list action) (st : state) :
  run (httpClient_ c) out seedURL (init c seedURL) trace = Some st ->
  (pagesClosed st = true ->
   Forall (fun p => worker p = WExited /\ pageMerger p = MExit) (pipelines st))
  /\ (errsClosed st = true ->
      Forall (fun p => (worker p = WErrsClosed \/ worker p = WExited)
                       /\ errMerger p = MExit) (pipelines st)).
Proof.
  intros R.
  destruct (run_merge_inv _ _ _ _ R (init_merge_inv c seedURL)) as (F & PC & EC).
  split; intros C; [apply PC in C|apply EC in C];
    rewrite forallb_forall in C; rewrite Forall_forall in F;
    apply Forall_forall; intros p I;
    specialize (C p I); specialize (F p I);
    unfold merge_ok in F; destruct p as [w pm em]; cbn in *;
    destruct w, pm, em; cbn in *; try discriminate; auto.
Qed.

Lemma merged_closes_after_all_sources_witness :
  exists st,
    run self_link_client discard (url_of "http://x.test/")
        (init (New 1 self_link_client) (url_of "http://x.test/"))
        self_link_schedule = Some st
    /\ Forall (fun p => worker p = WExited /\ pageMerger p = MExit) (pipelines st).
Proof.
  eexists. split; [vm_compute; reflexivity|].
  refine (proj1 (merged_closes_after_all_sources (New 1 self_link_client)
                   (url_of "http://x.test/") discard self_link_schedule _) _).
  - vm_compute. reflexivity.
  - reflexivity.
Defined.

(** ** Crawls that cannot fail *)

Section NoError.

Variable client : httpClient.
Variable out : Writer.
Variable seedURL : URL.
Hypothesis client_errors_absorbed : only_absorbed_errors client.
Hypothesis out_never_fails : never_fails out.

Lemma step_no_error_inv (st st' : state) (a : action) :
  step client out seedURL st a = Some st' ->
  no_error_inv st -> no_error_inv st'.
Proof.
  intros H (F & NR).
  unfold no_error_inv.
  destruct a; step_cases H;
    cbn [wg cache pending closer pipelines pagesClosed errsClosed loop
         written printed panicked
         set_wg set_cache set_pending set_closer set_pipelines
         set_pagesClosed set_errsClosed set_loop set_written set_printed
         set_panicked] in *;
    repeat match goal with
      | G : getPages_body client _ = Returns (EmitErr _, _) |- _ =>
          apply client_errors_absorbed in G
      | G : getPages_body client _ = Returns (?e, _) |- _ =>
          is_var e; destruct e
      | E : out _ _ = Some _ |- _ => rewrite out_never_fails in E; discriminate E
      end;
    try match goal with
      | N : nth_error (pipelines _) _ = Some ?p |- _ =>
          pose proof (Forall_nth_error _ F N) as OKp;
          destruct p as [w pm em];
          cbn [worker pageMerger errMerger set_worker set_pageMerger
               set_errMerger] in *;
          subst
      end;
    (split;
     [ first [ exact F
             | apply Forall_update;
               [ exact F
               | unfold sends_absorbed in *;
                 cbn [worker pageMerger errMerger] in *;
                 repeat match goal with
                   | E : (_ && _)%bool = true |- _ =>
                       apply andb_true_iff in E; destruct E
                   end;
                 repeat (apply andb_true_iff; split);
                 first [ assumption | reflexivity
                       | destruct pm; assumption
                       | destruct em; assumption ] ] ]
     | first [ exact NR
             | intros err' C; try discriminate C;
               first [ exact (NR _ C)
                     | congruence
                     | unfold sends_absorbed, absorbed in *;
                       cbn [worker pageMerger errMerger] in *;
                       repeat match goal with
                         | E : (_ && _)%bool = true |- _ =>
                             apply andb_true_iff in E; destruct E
                         end;
                       match goal with
                       | A : (is_ErrHttpStatusCode _ || _)%bool = true,
                         B : is_ErrHttpStatusCode _ = false,
                         D : (is_net_Error _ && Timeout _)%bool = false |- _ =>
                           rewrite B, D in A; discriminate A
                       end ] ] ]).
Qed.

Lemma run_no_error_inv (trace : list action) :
  forall st st',
    run client out seedURL st trace = Some st' ->
    no_error_inv st -> no_error_inv st'.
Proof.
  induction trace as [|a trace IH]; cbn [run]; intros st st' R I.
  - inversion R; subst; exact I.
  - destruct (step client out seedURL st a) as [st1|] eqn:S; [|discriminate].
    eapply IH; [exact R|]. eapply step_no_error_inv; eauto.
Qed.

End NoError.

Lemma init_no_error_inv (c : crawler_) (seedURL : URL) :
  no_error_inv (init c seedURL).
Proof.
  unfold no_error_inv, init. cbn. split; [|discriminate].
  apply Forall_forall. intros p I. apply repeat_spec in I. subst. reflexivity.
Qed.

(** X8. When every error the client can cause passes the loop's status
    or timeout test and the writer never fails, [Crawl] never returns
    an error: whenever it has returned, it returned [nil]. *)
Theorem Crawl_returns_nil
        (c : crawler_) (seedURL : URL) (out : Writer)
        (trace : list action) (st : state) (r : option error) :
  only_absorbed_errors (httpClient_ c) ->
  never_fails out ->
  run (httpClient_ c) out seedURL (init c seedURL) trace = Some st ->
  loop st = LReturned r ->
  r = None.
Proof.
  intros HC HO R L.
  destruct (@run_no_error_inv _ out seedURL HC HO _ _ _ R
              (init_no_error_inv c seedURL)) as (_ & NR).
  destruct r as [err|]; [|reflexivity].
  exfalso. exact (NR err L).
Qed.

Lemma status_client_only_absorbed_errors :
  only_absorbed_errors status_client.
Proof.
  intros u err after Q. unfold getPages_body, status_client in Q.
  destruct (gostring_eqb (String u) (str "http://x.test/"));
    cbn [StatusCode Body_Read Body_Close] in Q.
  - change (200 >=? 400)%Z with false in Q. cbv iota in Q.
    destruct (collectLinks u [anchor "/a"]); inversion Q.
  - change (500 >=? 400)%Z with true in Q. cbv iota in Q.
    inversion Q. reflexivity.
Qed.

Lemma Crawl_returns_nil_witness :
  exists st,
    run status_client discard (url_of "http://x.test/")
        (init (New 1 status_client) (url_of "http://x.test/"))
        absorbed_error_schedule = Some st
    /\ printed st = [Wrapf ErrHttpStatusCode (str "http://x.test/a") 500]
    /\ loop st = LReturned None /\ @None error = None.
Proof.
  eexists. split; [vm_compute; reflexivity|].
  split; [reflexivity|]. split; [reflexivity|].
  refine (Crawl_returns_nil (New 1 status_client) (url_of "http://x.test/")
            (out := discard) absorbed_error_schedule (st := _) (r := None) _ _ _ _).
  - exact status_client_only_absorbed_errors.
  - intros before chunk. reflexivity.
  - vm_compute. reflexivity.
  - reflexivity.
Defined.

(** ** A crawler without workers *)

Lemma step_no_workers (client : httpClient) (out : Writer) (seedURL : URL)
      (st st' : state) (a : action) :
  step client out seedURL st a = Some st' ->
  pipelines st = [] /\ wg st = 1%Z /\ closer st = CWait
  /\ (loop st = LSelect \/ loop st = LReturned None) ->
  (pipelines st' = [] /\ wg st' = 1%Z /\ closer st' = CWait
   /\ (loop st' = LSelect \/ loop st' = LReturned None))
  /\ pending st' = pending st /\ written st' = written st
  /\ cache st' = cache st /\ panicked st' = None.
Proof.
  intros H (P & W & C & L).
  destruct a; step_cases H; cbn;
    repeat match goal with
      | E : nth_error (pipelines _) _ = Some _ |- _ =>
          rewrite P in E; destruct i; discriminate E
      | E : (_ =? _)%Z = true |- _ => apply Z.eqb_eq in E
      end;
    try congruence; try lia;
    try (destruct L; congruence);
    auto 10.
Qed.

(** X9. With a worker count of zero or less, whatever the schedule:
    nothing is fetched, written or admitted, the seed stays at its
    blocked publisher, the counter stays at 1, the frontier is never
    closed, and [Crawl] can only return [nil]. *)
Theorem Crawl_without_workers
        (c : crawler_) (seedURL : URL) (out : Writer)
        (trace : list action) (st : state) :
  (workerCount c <= 0)%Z ->
  run (httpClient_ c) out seedURL (init c seedURL) trace = Some st ->
  fetched (httpClient_ c) out seedURL (init c seedURL) trace = []
  /\ pending st = [seedURL] /\ written st = [] /\ cache st = []
  /\ wg st = 1%Z /\ closer st = CWait /\ panicked st = None
  /\ (loop st = LSelect \/ loop st = LReturned None).
Proof.
  intros W.
  assert (G : forall trace st0 st1,
             run (httpClient_ c) out seedURL st0 trace = Some st1 ->
             pipelines st0 = [] /\ wg st0 = 1%Z /\ closer st0 = CWait
             /\ (loop st0 = LSelect \/ loop st0 = LReturned None) ->
             panicked st0 = None ->
             fetched (httpClient_ c) out seedURL st0 trace = []
             /\ (pipelines st1 = [] /\ wg st1 = 1%Z /\ closer st1 = CWait
                 /\ (loop st1 = LSelect \/ loop st1 = LReturned None))
             /\ pending st1 = pending st0 /\ written st1 = written st0
             /\ cache st1 = cache st0 /\ panicked st1 = None).
  { clear trace st. induction trace as [|a trace IH]; intros st0 st1 R I NP;
      cbn [run fetched] in *.
    - inversion R; subst. auto 10.
    - destruct (step (httpClient_ c) out seedURL st0 a) as [st2|] eqn:S;
        [|discriminate].
      destruct (step_no_workers _ _ _ _ _ S I) as (I2 & P2 & W2 & C2 & NP2).
      destruct (IH _ _ R I2 NP2) as (F & I1 & P1 & W1 & C1 & NP1).
      assert (FE : match a with
                   | APublish k _ =>
                       match nth_error (pending st0) k with
                       | Some u => u :: fetched (httpClient_ c) out seedURL st2 trace
                       | None => fetched (httpClient_ c) out seedURL st2 trace
                       end
                   | _ => fetched (httpClient_ c) out seedURL st2 trace
                   end = []).
      { destruct a; try exact F.
        exfalso. unfold step in S. rewrite NP in S. cbn [step_unpanicked] in S.
        destruct I as (PL & _). rewrite PL in S.
        destruct (closer st0), (nth_error (pending st0) k), i; discriminate S. }
      rewrite FE. repeat split; try tauto; congruence. }
  intros R.
  destruct (G trace (init c seedURL) st R) as (F & (P & Wg & C & L) & Pe & Wr & Ca & NP).
  - unfold init. cbn. replace (Z.to_nat (workerCount c)) with 0 by lia. auto.
  - reflexivity.
  - cbn in Pe, Wr, Ca. auto 10.
Qed.

Lemma Crawl_without_workers_witness :
  exists st,
    run self_link_client discard (url_of "http://x.test/")
        (init (New 0 self_link_client) (url_of "http://x.test/"))
        [AClosePagesOut; ASelectPagesClosed] = Some st
    /\ pending st = [url_of "http://x.test/"] /\ written st = [].
Proof.
  eexists. split; [vm_compute; reflexivity|].
  assert (W : (workerCount (New 0 self_link_client) <= 0)%Z)
    by (cbn [workerCount]; lia).
  match goal with
  | |- pending ?s = _ /\ _ =>
      assert (R : run (httpClient_ (New 0 self_link_client)) discard
                      (url_of "http://x.test/")
                      (init (New 0 self_link_client) (url_of "http://x.test/"))
                      [AClosePagesOut; ASelectPagesClosed] = Some s)
        by (vm_compute; reflexivity)
  end.
  destruct (Crawl_without_workers _ _ _ _ W R) as (_ & P & Wr & _).
  split; [exact P|exact Wr].
Defined.

(** ** Records *)

Lemma fold_left_lines (links : list URL) :
  forall out : gostring,
    fold_left (fun out link => out ++ tab :: String link ++ [newline]) links out
    = out ++ List.concat (map link_line links).
Proof.
  induction links as [|link links IH]; intros out; cbn [fold_left map List.concat].
  - rewrite app_nil_r. reflexivity.
  - rewrite IH. unfold link_line at 2. rewrite <- app_assoc. reflexivity.
Qed.

(** X11. A record is the header with the page's URL followed by one
    tab-indented, newline-terminated line per link, in the order of
    [Links]; the record of a page with the links [l1 ++ l2] is the
    record of the page with [l1] followed by the lines of [l2]. *)
Theorem Marshal_lines (u : URL) (links1 links2 : list URL) :
  Marshal (mkPage u (links1 ++ links2))
  = Marshal (mkPage u links1) ++ List.concat (map link_line links2)
  /\ Marshal (mkPage u links1)
     = str "URL:" ++ newline :: tab :: String u ++ newline :: str "Links: "
       ++ newline :: List.concat (map link_line links1).
Proof.
  unfold Marshal. cbn [Links URL_]. rewrite !fold_left_lines.
  rewrite map_app, concat_app. split.
  - rewrite app_assoc. reflexivity.
  - set (lines := List.concat (map link_line links1)).
    repeat (rewrite <- app_assoc; cbn [app]). reflexivity.
Qed.

(** ** Absolute references *)

(** X12. A reference with a scheme is normalized without regard to the
    page it was found on. *)
Theorem formatURL_absolute (pageURL pageURL' : URL) (rawURL : gostring) (ref : URL) :
  Parse rawURL = Ok ref ->
  Scheme ref <> [] ->
  formatURL pageURL rawURL = formatURL pageURL' rawURL.
Proof.
  intros P S.
  rewrite (formatURL_of_Parse pageURL _ P), (formatURL_of_Parse pageURL' _ P).
  assert (E : forall b, ResolveReference b ref
                        = setPath_ignore ref (resolvePath (EscapedPath ref) [])).
  { intros b. unfold ResolveReference.
    destruct (is_empty (Scheme ref)) eqn:E;
      [apply is_empty_spec in E; contradiction|].
    reflexivity. }
  rewrite !E. reflexivity.
Qed.

Lemma formatURL_absolute_witness :
  formatURL (url_of "http://x.test/a/b") (str "https://y.test/c?d#e")
  = formatURL empty_URL (str "https://y.test/c?d#e").
Proof.
  apply (formatURL_absolute (url_of "http://x.test/a/b") empty_URL
           (str "https://y.test/c?d#e")
           (ref := mkURL (str "https") [] None (str "y.test") (str "/c") []
                         false (str "d") (str "e"))).
  - vm_compute. reflexivity.
  - discriminate.
Defined.

(** ** Records and fetches *)

Lemma sum_pages_in_flight_update (ps : list pipeline) (i : nat) (p p' : pipeline) :
  nth_error ps i = Some p ->
  sum_pages_in_flight (update i p' ps) + pages_in_flight p
  = sum_pages_in_flight ps + pages_in_flight p'.
Proof.
  revert i; induction ps as [|q ps IH]; intros [|i] N; cbn in N;
    try discriminate.
  - inversion N; subst. cbn [update sum_pages_in_flight fold_right]. lia.
  - cbn [update sum_pages_in_flight fold_right].
    specialize (IH _ N). unfold sum_pages_in_flight in IH. lia.
Qed.

Arguments sum_pages_in_flight : simpl never.
Arguments pages_in_flight : simpl never.

Section Records.

Variable client : httpClient.
Variable out : Writer.
Variable seedURL : URL.

Lemma step_records (st st' : state) (a : action) :
  step client out seedURL st a = Some st' ->
  List.length (written st') + sum_pages_in_flight (pipelines st')
  <= List.length (written st) + sum_pages_in_flight (pipelines st)
     + match a with
       | APublish k _ =>
           match nth_error (pending st) k with Some _ => 1 | None => 0 end
       | _ => 0
       end
  /\ exists more, written st' = written st ++ more.
Proof.
  intros H.
  destruct a; step_cases H; cbn in *;
    repeat match goal with
      | N : nth_error (pipelines _) _ = Some ?p |- context [update _ ?q _] =>
          pose proof (@sum_pages_in_flight_update _ _ _ q N);
          destruct p as [w pm em]; clear N
      end;
    unfold pages_in_flight in *;
    cbn [worker pageMerger errMerger set_worker set_pageMerger set_errMerger] in *;
    subst;
    repeat match goal with
      | x : merger_state _ |- _ => destruct x
      | x : emit |- _ => destruct x
      end;
    rewrite ?length_app in *; cbn [List.length] in *;
    (split; [lia | first [ exists []; rewrite app_nil_r; reflexivity
                         | eexists; reflexivity ]]).
Qed.

Lemma run_records (trace : list action) :
  forall st st',
    run client out seedURL st trace = Some st' ->
    List.length (written st') + sum_pages_in_flight (pipelines st')
    <= List.length (written st) + sum_pages_in_flight (pipelines st)
       + List.length (fetched client out seedURL st trace)
    /\ exists more, written st' = written st ++ more.
Proof.
  induction trace as [|a trace IH]; intros st st' R; cbn [run fetched] in *.
  - inversion R; subst. split; [cbn; lia|]. exists []. rewrite app_nil_r. reflexivity.
  - destruct (step client out seedURL st a) as [st1|] eqn:S; [|discriminate].
    destruct (step_records _ _ S) as (L1 & more1 & W1).
    destruct (IH _ _ R) as (L & more & W).
    split.
    + destruct a; cbn [List.length] in *; try lia.
      destruct (nth_error (pending st) k); cbn [List.length] in *; lia.
    + exists (more1 ++ more). rewrite W, W1, app_assoc. reflexivity.
Qed.

End Records.

Lemma sum_pages_in_flight_init (n : nat) :
  sum_pages_in_flight (repeat (mkPipeline WRecv MRecv MRecv) n) = 0.
Proof.
  induction n as [|n IH]; [reflexivity|].
  cbn [repeat]. unfold sum_pages_in_flight in *. cbn [fold_right].
  rewrite IH. reflexivity.
Qed.

(** X13. Records and fetches.  The output is append-only, and at every
    point of an execution the records written, together with the pages
    still on their way to the result loop, are at most as many as the
    URLs the workers have taken from the frontier. *)
Theorem records_bounded_by_fetches
        (c : crawler_) (seedURL : URL) (out : Writer)
        (trace trace' : list action) (st st' : state) :
  run (httpClient_ c) out seedURL (init c seedURL) trace = Some st ->
  run (httpClient_ c) out seedURL st trace' = Some st' ->
  List.length (written st) + sum_pages_in_flight (pipelines st)
  <= List.length (fetched (httpClient_ c) out seedURL (init c seedURL) trace)
  /\ exists more, written st' = written st ++ more.
Proof.
  intros R R'.
  destruct (run_records _ _ _ _ _ R) as (L & _).
  destruct (run_records _ _ _ _ _ R') as (_ & M).
  split; [|exact M].
  cbn [init written pipelines List.length] in L.
  rewrite sum_pages_in_flight_init in L. lia.
Qed.

Lemma records_bounded_by_fetches_witness :
  exists st,
    run self_link_client discard (url_of "http://x.test/")
        (init (New 1 self_link_client) (url_of "http://x.test/"))
        self_link_schedule = Some st
    /\ List.length (written st) + sum_pages_in_flight (pipelines st)
       <= List.length (fetched self_link_client discard (url_of "http://x.test/")
                         (init (New 1 self_link_client) (url_of "http://x.test/"))
                         self_link_schedule).
Proof.
  eexists. split; [vm_compute; reflexivity|].
  match goal with
  | |- List.length (written ?s) + _ <= _ =>
      assert (R : run (httpClient_ (New 1 self_link_client)) discard
                      (url_of "http://x.test/")
                      (init (New 1 self_link_client) (url_of "http://x.test/"))
                      self_link_schedule = Some s)
        by (vm_compute; reflexivity);
      assert (R' : run (httpClient_ (New 1 self_link_client)) discard
                       (url_of "http://x.test/") s [] = Some s)
        by reflexivity
  end.
  exact (proj1 (records_bounded_by_fetches _ _ _ _ _ R R')).
Defined.

(** * Normalizing a normalized URL *)

Import shape.

(** ** Bytes *)

Ltac ascii_cases c := destruct c as [[] [] [] [] [] [] [] []].

Lemma hexbyte_hexdigit (c : ascii) :
  hexbyte (hexdigit (nat_of_ascii c / 16)) (hexdigit (nat_of_ascii c mod 16)) = c.
Proof. ascii_cases c; vm_compute; reflexivity. Qed.

Lemma hexdigit_upper_hex (c : ascii) :
  is_upper_hex (hexdigit (nat_of_ascii c / 16)) = true
  /\ is_upper_hex (hexdigit (nat_of_ascii c mod 16)) = true.
Proof. ascii_cases c; vm_compute; auto. Qed.

Lemma upper_hex_ishex (c : ascii) : is_upper_hex c = true -> ishex c = true.
Proof. ascii_cases c; vm_compute; auto. Qed.

Lemma shouldEscape_percent (mode : encoding) : shouldEscape "%" mode = true.
Proof. destruct mode; reflexivity. Qed.

Lemma upper_hex_not_percent (c : ascii) : is_upper_hex c = true -> c <> "%"%char.
Proof. intros H ->. discriminate H. Qed.

Lemma Ok_inj {A : Type} (a b : A) : Ok a = Ok b -> a = b.
Proof. congruence. Qed.

(** ** [unescape], byte by byte *)

Lemma unescape_literal (c : ascii) (rest : gostring) (mode : encoding) :
  c <> "%"%char -> c <> "+"%char ->
  unescape (c :: rest) mode
  = if (encoding_eqb mode encodeHost || encoding_eqb mode encodeZone)
       && Ascii.ltb c (ascii_of_nat 128) && shouldEscape c encodeHost
    then Err (InvalidHostError [c])
    else t <- unescape rest mode ;; Ok (c :: t).
Proof.
  intros N1 N2. ascii_cases c; try reflexivity; congruence.
Qed.

Lemma unescape_plus (rest : gostring) (mode : encoding) :
  unescape ("+"%char :: rest) mode
  = t <- unescape rest mode ;;
    Ok ((if encoding_eqb mode encodeQueryComponent then " " else "+")%char :: t).
Proof. reflexivity. Qed.

Lemma unescape_percent (h1 h2 : ascii) (rest : gostring) (mode : encoding) :
  unescape ("%"%char :: h1 :: h2 :: rest) mode
  = if negb (ishex h1 && ishex h2)
    then Err (EscapeError ["%"%char; h1; h2])
    else if encoding_eqb mode encodeHost && (unhex h1 <? 8)
            && negb (is_pct25 h1 h2)
    then Err (EscapeError ["%"%char; h1; h2])
    else if encoding_eqb mode encodeZone
            && negb (is_pct25 h1 h2)
            && negb (Ascii.eqb (hexbyte h1 h2) " ")
            && shouldEscape (hexbyte h1 h2) encodeHost
    then Err (EscapeError ["%"%char; h1; h2])
    else t <- unescape rest mode ;; Ok (hexbyte h1 h2 :: t).
Proof. reflexivity. Qed.

(** ** [escape], unit by unit *)

Lemma escape_cons (c : ascii) (s : gostring) (mode : encoding) :
  mode <> encodeQueryComponent ->
  escape (c :: s) mode
  = if shouldEscape c mode
    then "%"%char :: hexdigit (nat_of_ascii c / 16)
                  :: hexdigit (nat_of_ascii c mod 16) :: escape s mode
    else c :: escape s mode.
Proof.
  intros M. cbn [escape].
  destruct mode; try congruence; rewrite andb_false_r; reflexivity.
Qed.

(** Decoding what [escape] wrote gives the string back whenever it
    succeeds, in whatever mode it decodes. *)
Lemma unescape_escape_inv (mode mode' : encoding) (s : gostring) :
  mode <> encodeQueryComponent -> mode' <> encodeQueryComponent ->
  forall t, unescape (escape s mode) mode' = Ok t -> t = s.
Proof.
  intros M M'. induction s as [|c s IH]; intros t H.
  - cbn in H. congruence.
  - rewrite escape_cons in H by exact M.
    destruct (shouldEscape c mode) eqn:E.
    + rewrite unescape_percent in H.
      repeat match type of H with
             | (if ?b then _ else _) = _ => destruct b; [discriminate H|]
             end.
      destruct (unescape (escape s mode) mode') as [t'|e] eqn:U;
        cbn [bind] in H; [|discriminate H].
      apply Ok_inj in H; subst t. rewrite hexbyte_hexdigit, (IH t' eq_refl). reflexivity.
    + assert (NP : c <> "%"%char)
        by (intros ->; rewrite shouldEscape_percent in E; discriminate E).
      destruct (Ascii.eqb c "+") eqn:P.
      * apply Ascii.eqb_eq in P. subst c. rewrite unescape_plus in H.
        destruct (unescape (escape s mode) mode') as [t'|e] eqn:U;
          cbn [bind] in H; [|discriminate H].
        destruct mode'; try congruence; cbn [encoding_eqb] in H;
          apply Ok_inj in H; subst t; rewrite (IH t' eq_refl); reflexivity.
      * apply Ascii.eqb_neq in P. rewrite unescape_literal in H by assumption.
        match type of H with
        | (if ?b then _ else _) = _ => destruct b; [discriminate H|]
        end.
        destruct (unescape (escape s mode) mode') as [t'|e] eqn:U;
          cbn [bind] in H; [|discriminate H].
        apply Ok_inj in H; subst t. rewrite (IH t' eq_refl). reflexivity.
Qed.

(** In the path and user modes decoding what [escape] wrote always
    succeeds. *)
Lemma unescape_escape (mode : encoding) (s : gostring) :
  mode = encodePath \/ mode = encodeUserPassword ->
  unescape (escape s mode) mode = Ok s.
Proof.
  intros M.
  assert (MQ : mode <> encodeQueryComponent) by (destruct M; subst; discriminate).
  assert (MH : encoding_eqb mode encodeHost = false) by (destruct M; subst; reflexivity).
  assert (MZ : encoding_eqb mode encodeZone = false) by (destruct M; subst; reflexivity).
  assert (Q : encoding_eqb mode encodeQueryComponent = false)
    by (destruct M; subst; reflexivity).
  induction s as [|c s IH]; [reflexivity|].
  rewrite escape_cons by exact MQ.
  destruct (shouldEscape c mode) eqn:E.
  - rewrite unescape_percent, MH, MZ. cbn [andb].
    destruct (hexdigit_upper_hex c) as [H1 H2].
    rewrite (upper_hex_ishex _ H1), (upper_hex_ishex _ H2). cbn [andb negb].
    rewrite IH. cbn [bind]. rewrite hexbyte_hexdigit. reflexivity.
  - assert (NP : c <> "%"%char)
      by (intros ->; rewrite shouldEscape_percent in E; discriminate E).
    destruct (Ascii.eqb c "+") eqn:P.
    + apply Ascii.eqb_eq in P. subst c. rewrite unescape_plus, IH, Q. reflexivity.
    + apply Ascii.eqb_neq in P.
      rewrite unescape_literal by assumption.
      rewrite MH, MZ, IH. reflexivity.
Qed.

Lemma escape_bytes (mode : encoding) (s : gostring) :
  mode <> encodeQueryComponent ->
  Forall (fun c => shouldEscape c mode = false \/ c = "%"%char
                   \/ is_upper_hex c = true)
         (escape s mode).
Proof.
  intros M. induction s as [|c s IH]; [constructor|].
  rewrite escape_cons by exact M.
  destruct (shouldEscape c mode) eqn:E.
  - destruct (hexdigit_upper_hex c) as [H1 H2].
    constructor; [auto|]. constructor; [auto|]. constructor; [auto|]. exact IH.
  - constructor; auto.
Qed.

(** A byte that must be escaped and is neither the percent sign nor a
    digit does not occur in what [escape] writes. *)
Lemma escape_not_In (mode : encoding) (s : gostring) (x : ascii) :
  mode <> encodeQueryComponent ->
  shouldEscape x mode = true -> x <> "%"%char -> is_upper_hex x = false ->
  ~ In x (escape s mode).
Proof.
  intros M E NP NH I.
  pose proof (escape_bytes s M) as F. rewrite Forall_forall in F.
  destruct (F x I) as [H|[H|H]]; congruence.
Qed.

(** A byte of the output that is no digit starts a unit: the output can
    be cut in front of it. *)
Lemma escape_cut (mode : encoding) (s : gostring) :
  mode <> encodeQueryComponent ->
  forall (a b : gostring) (c : ascii),
    escape s mode = a ++ c :: b ->
    is_upper_hex c = false ->
    exists s1 s2,
      s = s1 ++ s2 /\ escape s1 mode = a /\ escape s2 mode = c :: b.
Proof.
  intros M. induction s as [|x s IH]; intros a b c H NH.
  - destruct a; discriminate H.
  - destruct a as [|a0 a].
    + exists [], (x :: s). auto.
    + rewrite escape_cons in H by exact M.
      destruct (shouldEscape x mode) eqn:E.
      * destruct (hexdigit_upper_hex x) as [H1 H2].
        remember (hexdigit (nat_of_ascii x / 16)) as h1 eqn:Eh1.
        remember (hexdigit (nat_of_ascii x mod 16)) as h2 eqn:Eh2.
        destruct a as [|a1 a];
          [cbn [app] in H; injection H as _ Hc _; congruence|].
        destruct a as [|a2 a];
          [cbn [app] in H; injection H as _ _ Hc _; congruence|].
        cbn [app] in H. injection H as <- <- <- H.
        destruct (IH _ _ _ H NH) as (s1 & s2 & -> & <- & E2).
        exists (x :: s1), s2. rewrite escape_cons by exact M. rewrite E.
        subst h1 h2. auto.
      * cbn [app] in H. injection H as <- H.
        destruct (IH _ _ _ H NH) as (s1 & s2 & -> & <- & E2).
        exists (x :: s1), s2. rewrite escape_cons by exact M. rewrite E.
        auto.
Qed.

Lemma escape_app (mode : encoding) (s1 s2 : gostring) :
  escape (s1 ++ s2) mode = escape s1 mode ++ escape s2 mode.
Proof.
  induction s1 as [|c s1 IH]; [reflexivity|].
  cbn [app escape]. rewrite IH.
  destruct (Ascii.eqb c " " && encoding_eqb mode encodeQueryComponent);
    [reflexivity|].
  destruct (shouldEscape c mode); reflexivity.
Qed.

Lemma escape_nil_inv (mode : encoding) (s : gostring) :
  escape s mode = [] -> s = [].
Proof.
  destruct s as [|c s]; [reflexivity|]. cbn [escape].
  destruct (Ascii.eqb c " " && encoding_eqb mode encodeQueryComponent);
    [discriminate|].
  destruct (shouldEscape c mode); discriminate.
Qed.

(** ** Occurrences of a byte *)

Lemma first_occurrence (s : gostring) (c : ascii) :
  In c s -> exists a b, s = a ++ c :: b /\ ~ In c a.
Proof.
  induction s as [|d s IH]; intros I; [contradiction|].
  destruct (Ascii.eqb d c) eqn:E.
  - apply Ascii.eqb_eq in E. subst. exists [], s. auto.
  - apply Ascii.eqb_neq in E. destruct I as [->|I]; [congruence|].
    destruct (IH I) as (a & b & -> & N). exists (d :: a), b.
    split; [reflexivity|]. intros [->|X]; [congruence|auto].
Qed.

Lemma last_occurrence (s : gostring) (c : ascii) :
  In c s -> exists a b, s = a ++ c :: b /\ ~ In c b.
Proof.
  induction s as [|d s IH]; intros I; [contradiction|].
  destruct (in_dec ascii_dec c s) as [I'|N].
  - destruct (IH I') as (a & b & -> & N). exists (d :: a), b. auto.
  - destruct I as [->|I]; [|contradiction]. exists [], s. auto.
Qed.

Lemma Index_byte_Some (s : gostring) (c : ascii) (i : nat) :
  strings.Index s [c] = Some i ->
  exists a b, s = a ++ c :: b /\ List.length a = i /\ ~ In c a.
Proof.
  intros H. destruct (in_dec ascii_dec c s) as [I|N].
  - destruct (first_occurrence _ _ I) as (a & b & -> & N).
    rewrite Index_byte_app in H by exact N. injection H as <-.
    exists a, b. auto.
  - rewrite Index_byte_None in H by exact N. discriminate.
Qed.

Lemma Index_byte_None_inv (s : gostring) (c : ascii) :
  strings.Index s [c] = None -> ~ In c s.
Proof.
  intros H I. destruct (first_occurrence _ _ I) as (a & b & -> & N).
  rewrite Index_byte_app in H by exact N. discriminate.
Qed.

Lemma LastIndex_byte_None (s : gostring) (c : ascii) :
  ~ In c s -> strings.LastIndex s [c] = None.
Proof.
  induction s as [|d s IH]; intros N; [reflexivity|].
  cbn [strings.LastIndex]. rewrite IH by (intros I; apply N; right; exact I).
  rewrite HasPrefix_byte.
  destruct (Ascii.eqb c d) eqn:E; [|reflexivity].
  apply Ascii.eqb_eq in E. subst. exfalso. apply N. left; reflexivity.
Qed.

Lemma LastIndex_byte_app (h t : gostring) (c : ascii) :
  ~ In c t -> strings.LastIndex (h ++ c :: t) [c] = Some (List.length h).
Proof.
  intros N. induction h as [|d h IH].
  - cbn [app strings.LastIndex]. rewrite LastIndex_byte_None by exact N.
    rewrite HasPrefix_byte, Ascii.eqb_refl. reflexivity.
  - cbn [app strings.LastIndex]. rewrite IH. reflexivity.
Qed.

Lemma LastIndex_byte_Some (s : gostring) (c : ascii) (i : nat) :
  strings.LastIndex s [c] = Some i ->
  exists a b, s = a ++ c :: b /\ List.length a = i /\ ~ In c b.
Proof.
  intros H. destruct (in_dec ascii_dec c s) as [I|N].
  - destruct (last_occurrence _ _ I) as (a & b & -> & N).
    rewrite LastIndex_byte_app in H by exact N. injection H as <-.
    exists a, b. auto.
  - rewrite LastIndex_byte_None in H by exact N. discriminate.
Qed.

Lemma Contains_byte (s : gostring) (c : ascii) :
  strings.Contains s [c] = true <-> In c s.
Proof.
  unfold strings.Contains. split.
  - destruct (strings.Index s [c]) eqn:E; [|discriminate].
    intros _. apply Index_byte_Some in E. destruct E as (a & b & -> & _).
    apply in_or_app. right. left. reflexivity.
  - intros I. destruct (first_occurrence _ _ I) as (a & b & -> & N).
    rewrite Index_byte_app by exact N. reflexivity.
Qed.

Lemma Count_app (a b : gostring) (c : ascii) :
  strings.Count (a ++ b) c = strings.Count a c + strings.Count b c.
Proof.
  induction a as [|d a IH]; [reflexivity|].
  cbn [app strings.Count]. rewrite IH. lia.
Qed.

Lemma Count_zero (s : gostring) (c : ascii) :
  ~ In c s -> strings.Count s c = 0.
Proof.
  induction s as [|d s IH]; intros N; [reflexivity|].
  cbn [strings.Count]. rewrite IH by (intros I; apply N; right; exact I).
  destruct (Ascii.eqb d c) eqn:E; [|reflexivity].
  apply Ascii.eqb_eq in E. subst. exfalso. apply N. left; reflexivity.
Qed.

Lemma HasSuffix_byte (s : gostring) (c : ascii) :
  strings.HasSuffix s [c] = true <-> exists s', s = s' ++ [c].
Proof.
  unfold strings.HasSuffix. cbn [rev app]. rewrite HasPrefix_byte. split.
  - destruct (rev s) as [|d r] eqn:R; [discriminate|].
    intros E. apply Ascii.eqb_eq in E. subst d.
    exists (rev r). rewrite <- (rev_involutive s), R. reflexivity.
  - intros (s' & ->). rewrite rev_app_distr. cbn. apply Ascii.eqb_refl.
Qed.

Lemma HasSuffix_byte_false (s : gostring) (c : ascii) :
  ~ In c s -> strings.HasSuffix s [c] = false.
Proof.
  intros N. destruct (strings.HasSuffix s [c]) eqn:E; [|reflexivity].
  apply HasSuffix_byte in E. destruct E as (s' & ->).
  exfalso. apply N. apply in_or_app. right. left. reflexivity.
Qed.

(** ** Parsing what [String] wrote *)

Lemma getscheme_http (rest : gostring) :
  getscheme (str "http" ++ ":"%char :: rest) = Ok (str "http", rest)
  /\ getscheme (str "https" ++ ":"%char :: rest) = Ok (str "https", rest).
Proof. split; reflexivity. Qed.

(** The query that [parse] cuts off is the one [String] appended. *)
Lemma query_cut (scheme body rq : gostring) (fq : bool) :
  ~ In "?"%char body ->
  (if strings.HasSuffix
        (body ++ (if fq || negb (is_empty rq) then "?"%char :: rq else []))
        ["?"%char]
      && (strings.Count
            (body ++ (if fq || negb (is_empty rq) then "?"%char :: rq else []))
            "?" =? 1)
   then (set_ForceQuery (set_Scheme empty_URL scheme) true,
         firstn (List.length
                   (body ++ (if fq || negb (is_empty rq) then "?"%char :: rq else []))
                 - 1)
                (body ++ (if fq || negb (is_empty rq) then "?"%char :: rq else [])))
   else let (rest', q) :=
          split (body ++ (if fq || negb (is_empty rq) then "?"%char :: rq else []))
                ["?"%char] true in
        (set_RawQuery (set_Scheme empty_URL scheme) q, rest'))
  = (mkURL scheme [] None [] [] [] (fq && is_empty rq) rq [], body).
Proof.
  intros N.
  destruct rq as [|r rq].
  - destruct fq; cbn [orb negb is_empty andb].
    + assert (S : strings.HasSuffix (body ++ ["?"%char]) ["?"%char] = true)
        by (apply HasSuffix_byte; eauto).
      rewrite S, Count_app, (Count_zero _ _ N). cbn [strings.Count Ascii.eqb].
      cbn [andb]. rewrite length_app. cbn [List.length].
      replace (List.length body + 1 - 1) with (List.length body) by lia.
      rewrite firstn_length_app. reflexivity.
    + rewrite app_nil_r, (HasSuffix_byte_false _ _ N). cbn [andb].
      rewrite split_None by exact N. reflexivity.
  - replace (fq || negb (is_empty (r :: rq))) with true
      by (destruct fq; reflexivity).
    replace (fq && is_empty (r :: rq)) with false by (destruct fq; reflexivity).
    assert (C : strings.HasSuffix (body ++ "?"%char :: r :: rq) ["?"%char]
                && (strings.Count (body ++ "?"%char :: r :: rq) "?" =? 1) = false).
    { destruct (strings.HasSuffix (body ++ "?"%char :: r :: rq) ["?"%char]) eqn:S;
        [|reflexivity].
      apply HasSuffix_byte in S. destruct S as (s' & S).
      assert (L : exists rq', r :: rq = rq' ++ ["?"%char]).
      { destruct (exists_last (l := r :: rq)) as (rq' & z & E); [discriminate|].
        exists rq'. rewrite E in S.
        replace (body ++ "?"%char :: rq' ++ [z])
          with ((body ++ "?"%char :: rq') ++ [z]) in S
          by (rewrite <- app_assoc; reflexivity).
        apply app_inj_tail in S. destruct S as [_ ->]. exact E. }
      destruct L as (rq' & ->).
      cbn [andb]. apply Nat.eqb_neq.
      rewrite Count_app. cbn [strings.Count]. rewrite Count_app.
      cbn [strings.Count Ascii.eqb]. cbn. lia. }
    rewrite C. rewrite split_cut_app by exact N. reflexivity.
Qed.

Lemma parse_opaque (scheme body rq : gostring) (fq : bool) :
  scheme = str "http" \/ scheme = str "https" ->
  ~ In "?"%char body ->
  strings.HasPrefix body ["/"%char] = false ->
  parse (scheme ++ ":"%char :: body
         ++ (if fq || negb (is_empty rq) then "?"%char :: rq else []))
  = Ok (mkURL scheme body None [] [] [] (fq && is_empty rq) rq []).
Proof.
  intros S N P. unfold parse.
  destruct S as [-> | ->].
  - change (gostring_eqb (str "http" ++ ":"%char :: body
              ++ (if fq || negb (is_empty rq) then "?"%char :: rq else []))
              (str "*")) with false.
    cbv iota. rewrite (proj1 (getscheme_http _)). cbn [bind].
    change (strings.ToLower (str "http")) with (str "http").
    change (str "?") with ["?"%char]. rewrite query_cut by exact N.
    change (str "/") with ["/"%char]. rewrite P. reflexivity.
  - change (gostring_eqb (str "https" ++ ":"%char :: body
              ++ (if fq || negb (is_empty rq) then "?"%char :: rq else []))
              (str "*")) with false.
    cbv iota. rewrite (proj2 (getscheme_http _)). cbn [bind].
    change (strings.ToLower (str "https")) with (str "https").
    change (str "?") with ["?"%char]. rewrite query_cut by exact N.
    change (str "/") with ["/"%char]. rewrite P. reflexivity.
Qed.

Lemma parse_hierarchical (scheme auth path rq : gostring) (fq : bool)
      (user : option Userinfo) (host : gostring) :
  scheme = str "http" \/ scheme = str "https" ->
  ~ In "?"%char auth -> ~ In "?"%char path -> ~ In "/"%char auth ->
  path = [] \/ strings.HasPrefix path ["/"%char] = true ->
  parseAuthority auth = Ok (user, host) ->
  parse (scheme ++ ":"%char
         :: ("/"%char :: "/"%char :: auth ++ path)
         ++ (if fq || negb (is_empty rq) then "?"%char :: rq else []))
  = setPath (mkURL scheme [] user host [] [] (fq && is_empty rq) rq []) path.
Proof.
  intros S NA NP NS PP PA.
  assert (N : ~ In "?"%char ("/"%char :: "/"%char :: auth ++ path)).
  { intros [X|[X|X]]; try discriminate X.
    apply in_app_or in X. tauto. }
  assert (SP : split (auth ++ path) ["/"%char] false = (auth, path)).
  { destruct PP as [-> | PP].
    - rewrite app_nil_r. apply split_None. exact NS.
    - destruct path as [|c path]; [discriminate PP|].
      rewrite HasPrefix_byte in PP. apply Ascii.eqb_eq in PP. subst c.
      apply split_keep_app. exact NS. }
  assert (HP2 : strings.HasPrefix ("/"%char :: "/"%char :: auth ++ path) (str "//")
                = true)
    by (cbn [str list_ascii_of_string strings.HasPrefix Ascii.eqb Bool.eqb andb];
        destruct (auth ++ path); reflexivity).
  unfold parse.
  destruct S as [-> | ->].
  - change (gostring_eqb (str "http" ++ ":"%char
              :: ("/"%char :: "/"%char :: auth ++ path)
              ++ (if fq || negb (is_empty rq) then "?"%char :: rq else []))
              (str "*")) with false.
    cbv iota. rewrite (proj1 (getscheme_http _)). cbn [bind].
    change (strings.ToLower (str "http")) with (str "http").
    change (str "?") with ["?"%char]. rewrite query_cut by exact N.
    change (strings.HasPrefix ("/"%char :: "/"%char :: auth ++ path) (str "/"))
      with true.
    rewrite HP2.
    cbn [negb andb orb is_empty Scheme str list_ascii_of_string].
    change (skipn 2 ("/"%char :: "/"%char :: auth ++ path)) with (auth ++ path).
    change (str "/") with ["/"%char]. rewrite SP, PA. reflexivity.
  - change (gostring_eqb (str "https" ++ ":"%char
              :: ("/"%char :: "/"%char :: auth ++ path)
              ++ (if fq || negb (is_empty rq) then "?"%char :: rq else []))
              (str "*")) with false.
    cbv iota. rewrite (proj2 (getscheme_http _)). cbn [bind].
    change (strings.ToLower (str "https")) with (str "https").
    change (str "?") with ["?"%char]. rewrite query_cut by exact N.
    change (strings.HasPrefix ("/"%char :: "/"%char :: auth ++ path) (str "/"))
      with true.
    rewrite HP2.
    cbn [negb andb orb is_empty Scheme str list_ascii_of_string].
    change (skipn 2 ("/"%char :: "/"%char :: auth ++ path)) with (auth ++ path).
    change (str "/") with ["/"%char]. rewrite SP, PA. reflexivity.
Qed.

(** ** The authority *)

Lemma userinfo_byte_unescaped (c : ascii) :
  shouldEscape c encodeUserPassword = false -> valid_userinfo_byte c = true.
Proof. ascii_cases c; vm_compute; congruence. Qed.

Lemma userinfo_byte_hex (c : ascii) :
  is_upper_hex c = true -> valid_userinfo_byte c = true.
Proof. ascii_cases c; vm_compute; congruence. Qed.

Lemma validUserinfo_escape (s : gostring) :
  forallb valid_userinfo_byte (escape s encodeUserPassword) = true.
Proof.
  apply forallb_forall. intros c I.
  pose proof (@escape_bytes encodeUserPassword s ltac:(discriminate)) as F.
  rewrite Forall_forall in F.
  destruct (F c I) as [H|[->|H]];
    [apply userinfo_byte_unescaped; exact H | reflexivity
    | apply userinfo_byte_hex; exact H].
Qed.

Lemma user_escape_not_In (s : gostring) (x : ascii) :
  x = "@"%char \/ x = ":"%char \/ x = "/"%char \/ x = "?"%char \/ x = "#"%char ->
  ~ In x (escape s encodeUserPassword).
Proof.
  intros X. apply escape_not_In; [discriminate| | |];
    destruct X as [->|[->|[->|[->| ->]]]]; try reflexivity; discriminate.
Qed.

Lemma host_escape_not_In (s : gostring) (x : ascii) :
  x = "@"%char \/ x = "/"%char \/ x = "?"%char \/ x = "#"%char ->
  ~ In x (escape s encodeHost).
Proof.
  intros X. apply escape_not_In; [discriminate| | |];
    destruct X as [->|[->|[->| ->]]]; try reflexivity; discriminate.
Qed.

Lemma Userinfo_String_not_In (ui : Userinfo) (x : ascii) :
  x = "@"%char \/ x = "/"%char \/ x = "?"%char \/ x = "#"%char ->
  ~ In x (Userinfo_String ui).
Proof.
  intros X I. unfold Userinfo_String in I.
  apply in_app_or in I. destruct I as [I|I].
  - revert I. apply user_escape_not_In. tauto.
  - destruct (passwordSet ui); [|contradiction].
    destruct I as [<-|I]; [destruct X as [X|[X|[X|X]]]; discriminate X|].
    revert I. apply user_escape_not_In. tauto.
Qed.

Lemma Index_Some_skipn (sep s : gostring) :
  forall z,
    strings.Index s sep = Some z ->
    strings.HasPrefix (skipn z s) sep = true /\ z <= List.length s.
Proof.
  induction s as [|c s IH]; intros z H; cbn [strings.Index] in H.
  - destruct (strings.HasPrefix [] sep) eqn:P; [|discriminate].
    injection H as <-. cbn. auto.
  - destruct (strings.HasPrefix (c :: s) sep) eqn:P.
    + injection H as <-. cbn [skipn List.length]. split; [exact P|lia].
    + destruct (strings.Index s sep) as [z'|] eqn:I; [|discriminate].
      cbn [option_map] in H. injection H as <-.
      destruct (IH _ eq_refl) as [Q L]. cbn [skipn List.length]. split; [exact Q|lia].
Qed.

(** Parsing the host [String] wrote gives the host back whenever it
    succeeds. *)
Lemma parseHost_escape (host host' : gostring) :
  parseHost (escape host encodeHost) = Ok host' -> host' = host.
Proof.
  assert (MH : encodeHost <> encodeQueryComponent) by discriminate.
  assert (MZ : encodeZone <> encodeQueryComponent) by discriminate.
  unfold parseHost. set (x := escape host encodeHost).
  destruct (strings.HasPrefix x (str "[")); [|apply unescape_escape_inv; assumption].
  change (str "]") with ["]"%char].
  destruct (strings.LastIndex x ["]"%char]) as [i|] eqn:L; [|discriminate].
  destruct (negb (validOptionalPort (skipn (S i) x))); [discriminate|].
  destruct (strings.Index (firstn i x) (str "%25")) as [z|] eqn:Z;
    [|apply unescape_escape_inv; assumption].
  apply LastIndex_byte_Some in L. destruct L as (xa & xb & Ex & Li & _).
  assert (Fi : firstn i x = xa) by (rewrite Ex, <- Li; apply firstn_length_app).
  assert (Si : skipn i x = "]"%char :: xb)
    by (rewrite Ex, <- Li; apply skipn_length_app).
  rewrite Fi in *. rewrite Si.
  destruct (Index_Some_skipn _ _ Z) as [P Lz].
  assert (Fz : firstn z x = firstn z xa).
  { rewrite Ex. rewrite firstn_app.
    replace (z - List.length xa) with 0 by lia. cbn [firstn].
    apply app_nil_r. }
  rewrite Fz.
  destruct (skipn z xa) as [|p xz] eqn:Sz; [discriminate P|].
  assert (Ep : p = "%"%char).
  { cbn [str list_ascii_of_string strings.HasPrefix] in P.
    apply andb_true_iff in P. destruct P as [P _].
    apply Ascii.eqb_eq in P. auto. }
  subst p.
  destruct (@escape_cut encodeHost host MH xa xb "]"%char Ex eq_refl)
    as (hA & h3 & -> & EA & E3).
  assert (Exa : xa = firstn z xa ++ "%"%char :: xz)
    by (rewrite <- Sz; symmetry; apply firstn_skipn).
  rewrite Exa in EA.
  destruct (@escape_cut encodeHost hA MH _ _ "%"%char EA eq_refl)
    as (h1 & h2 & -> & E1 & E2).
  rewrite <- E1, <- E2, <- E3.
  destruct (unescape (escape h1 encodeHost) encodeHost) as [t1|] eqn:U1;
    cbn [bind]; [|discriminate].
  destruct (unescape (escape h2 encodeHost) encodeZone) as [t2|] eqn:U2;
    cbn [bind]; [|discriminate].
  destruct (unescape (escape h3 encodeHost) encodeHost) as [t3|] eqn:U3;
    cbn [bind]; [|discriminate].
  intros H. apply Ok_inj in H. subst host'.
  rewrite (unescape_escape_inv _ MH MH U1), (unescape_escape_inv _ MH MZ U2),
    (unescape_escape_inv _ MH MH U3).
  rewrite app_assoc. reflexivity.
Qed.

Lemma skipn_S_length_app {A : Type} (h t : list A) (c : A) :
  skipn (S (List.length h)) (h ++ c :: t) = t.
Proof. induction h; cbn; auto. Qed.

Lemma parseAuthority_written (user : option Userinfo) (host host' : gostring) :
  parseHost (escape host encodeHost) = Ok host' ->
  parseAuthority (user_prefix user ++ escape host encodeHost)
  = Ok (option_map norm_user user, host).
Proof.
  intros PH. pose proof (parseHost_escape _ PH) as ->.
  assert (NH : ~ In "@"%char (escape host encodeHost))
    by (apply host_escape_not_In; auto).
  assert (MU : encodeUserPassword = encodePath \/ encodeUserPassword = encodeUserPassword)
    by auto.
  unfold parseAuthority. change (str "@") with ["@"%char].
  destruct user as [ui|]; cbn [user_prefix option_map].
  - rewrite <- app_assoc. cbn [app].
    rewrite LastIndex_byte_app by exact NH.
    rewrite skipn_S_length_app. rewrite PH. cbn [bind].
    rewrite firstn_length_app.
    assert (V : validUserinfo (Userinfo_String ui) = true).
    { unfold validUserinfo, Userinfo_String.
      change (fun r => is_alnum r || one_of "-._:~!$&'()*+,;=%@" r)
        with valid_userinfo_byte.
      rewrite forallb_app, validUserinfo_escape.
      destruct (passwordSet ui); [|reflexivity].
      cbn [forallb]. rewrite validUserinfo_escape. reflexivity. }
    rewrite V. cbn [negb].
    change (str ":") with [":"%char].
    unfold Userinfo_String, norm_user.
    assert (NC : ~ In ":"%char (escape (username ui) encodeUserPassword))
      by (apply user_escape_not_In; auto).
    destruct (passwordSet ui) eqn:PS.
    + assert (C : strings.Contains
                    (escape (username ui) encodeUserPassword
                     ++ ":"%char :: escape (password ui) encodeUserPassword)
                    [":"%char] = true)
        by (apply Contains_byte; apply in_or_app; right; left; reflexivity).
      rewrite C. cbn [negb]. rewrite split_cut_app by exact NC.
      rewrite !(unescape_escape _ MU). cbn [bind].
      destruct ui as [un pw ps]. cbn in *. subst ps. reflexivity.
    + rewrite app_nil_r.
      assert (C : strings.Contains (escape (username ui) encodeUserPassword)
                                   [":"%char] = false).
      { destruct (strings.Contains (escape (username ui) encodeUserPassword)
                                   [":"%char]) eqn:C; [|reflexivity].
        apply Contains_byte in C. contradiction. }
      rewrite C. cbn [negb]. rewrite (unescape_escape _ MU). reflexivity.
  - cbn [app]. rewrite LastIndex_byte_None by exact NH. rewrite PH. reflexivity.
Qed.

(** ** Segments *)

Lemma Split_not_nil (s : gostring) (c : ascii) : strings.Split s c <> [].
Proof.
  induction s as [|d s IH]; cbn [strings.Split]; [discriminate|].
  destruct (Ascii.eqb d c); [discriminate|].
  destruct (strings.Split s c); [contradiction|discriminate].
Qed.

Lemma Join_cons (e : gostring) (l : list gostring) (sep : gostring) :
  l <> [] -> strings.Join (e :: l) sep = e ++ sep ++ strings.Join l sep.
Proof. destruct l; [contradiction|reflexivity]. Qed.

Lemma Join_Split (s : gostring) (c : ascii) :
  strings.Join (strings.Split s c) [c] = s.
Proof.
  induction s as [|d s IH]; [reflexivity|].
  cbn [strings.Split]. destruct (Ascii.eqb d c) eqn:E.
  - apply Ascii.eqb_eq in E. subst d.
    rewrite Join_cons by apply Split_not_nil. rewrite IH. reflexivity.
  - pose proof (Split_not_nil s c) as N.
    destruct (strings.Split s c) as [|seg segs]; [contradiction|].
    destruct segs as [|seg' segs].
    + cbn [strings.Join] in *. rewrite IH. reflexivity.
    + rewrite Join_cons in * by discriminate. cbn [app] in *. rewrite IH. reflexivity.
Qed.

Lemma Split_segments (s : gostring) (c : ascii) :
  Forall (fun seg => ~ In c seg) (strings.Split s c).
Proof.
  induction s as [|d s IH]; cbn [strings.Split].
  - constructor; auto.
  - destruct (Ascii.eqb d c) eqn:E.
    + constructor; auto.
    + apply Ascii.eqb_neq in E.
      destruct (strings.Split s c) as [|seg segs]; [repeat constructor; intros [X|[]]; congruence|].
      inversion IH; subst. constructor; auto.
      intros [X|X]; [congruence|contradiction].
Qed.

Lemma Split_no_sep (s : gostring) (c : ascii) :
  ~ In c s -> strings.Split s c = [s].
Proof.
  induction s as [|d s IH]; intros N; [reflexivity|].
  cbn [strings.Split].
  destruct (Ascii.eqb d c) eqn:E;
    [apply Ascii.eqb_eq in E; subst; exfalso; apply N; left; reflexivity|].
  rewrite IH by (intros I; apply N; right; exact I). reflexivity.
Qed.

Lemma Split_app_sep (a b : gostring) (c : ascii) :
  ~ In c a -> strings.Split (a ++ c :: b) c = a :: strings.Split b c.
Proof.
  induction a as [|d a IH]; intros N.
  - cbn [app strings.Split]. rewrite Ascii.eqb_refl. reflexivity.
  - cbn [app strings.Split].
    destruct (Ascii.eqb d c) eqn:E;
      [apply Ascii.eqb_eq in E; subst; exfalso; apply N; left; reflexivity|].
    rewrite IH by (intros I; apply N; right; exact I). reflexivity.
Qed.

Lemma Split_Join (l : list gostring) (c : ascii) :
  l <> [] -> Forall (fun seg => ~ In c seg) l ->
  strings.Split (strings.Join l [c]) c = l.
Proof.
  induction l as [|e l IH]; intros NE F; [contradiction|].
  inversion F as [|? ? Ne F']; subst.
  destruct l as [|e' l].
  - cbn [strings.Join]. apply Split_no_sep. exact Ne.
  - rewrite Join_cons by discriminate. cbn [app].
    rewrite Split_app_sep by exact Ne. rewrite IH by (auto; discriminate).
    reflexivity.
Qed.

(** ** [resolvePath] *)

Lemma resolve_segments_plain (src : list gostring) :
  forall dst,
    forallb plain_segment src = true ->
    resolve_segments src dst = dst ++ src.
Proof.
  induction src as [|elem src IH]; intros dst F; cbn [resolve_segments].
  - rewrite app_nil_r. reflexivity.
  - cbn [forallb] in F. apply andb_true_iff in F. destruct F as [P F].
    unfold plain_segment in P. apply andb_true_iff in P. destruct P as [P1 P2].
    apply negb_true_iff in P1, P2. rewrite P1, P2, (IH _ F), <- app_assoc.
    reflexivity.
Qed.

Lemma Forall_removelast {A : Type} (P : A -> Prop) (l : list A) :
  Forall P l -> Forall P (removelast l).
Proof.
  induction l as [|a l IH]; intros F; [constructor|].
  inversion F; subst. cbn [removelast]. destruct l; [constructor|].
  constructor; auto.
Qed.

(** What [resolve_segments] keeps was in the source or already kept,
    and is no dot segment. *)
Lemma resolve_segments_Forall (P : gostring -> Prop) (src : list gostring) :
  forall dst,
    Forall P src -> Forall P dst -> Forall P (resolve_segments src dst).
Proof.
  induction src as [|elem src IH]; intros dst Fs Fd; cbn [resolve_segments];
    [exact Fd|].
  inversion Fs; subst.
  destruct (is_dot elem); [apply IH; auto|].
  destruct (is_dotdot elem); [apply IH; auto; apply Forall_removelast; exact Fd|].
  apply IH; auto. apply Forall_app. auto.
Qed.

Lemma resolve_segments_kept_plain (src : list gostring) :
  forall dst,
    forallb plain_segment dst = true ->
    forallb plain_segment (resolve_segments src dst) = true.
Proof.
  induction src as [|elem src IH]; intros dst Fd; cbn [resolve_segments];
    [exact Fd|].
  destruct (is_dot elem) eqn:D1; [apply IH; exact Fd|].
  destruct (is_dotdot elem) eqn:D2.
  - apply IH. apply forallb_forall. intros x I.
    rewrite forallb_forall in Fd. apply Fd.
    clear - I. induction dst as [|d dst IHd]; [contradiction|].
    cbn [removelast] in I. destruct dst; [contradiction|].
    destruct I as [->|I]; [left; reflexivity|right; apply IHd; exact I].
  - apply IH. rewrite forallb_app, Fd. cbn [forallb].
    unfold plain_segment. rewrite D1, D2. reflexivity.
Qed.

Lemma resolvePath_eq (base ref : gostring) :
  resolvePath base ref = remove_dots (merge_paths base ref).
Proof. reflexivity. Qed.

Lemma kept_segments_Forall (P : gostring -> Prop) (full : gostring) :
  P [] -> Forall P (strings.Split full "/") -> Forall P (kept_segments full).
Proof.
  intros P0 F. unfold kept_segments.
  assert (G : Forall P (resolve_segments (strings.Split full "/") []))
    by (apply resolve_segments_Forall; auto).
  destruct (is_dot (last (strings.Split full "/") [])
            || is_dotdot (last (strings.Split full "/") []));
    [apply Forall_app; auto|exact G].
Qed.

Lemma kept_segments_plain (full : gostring) :
  forallb plain_segment (kept_segments full) = true.
Proof.
  unfold kept_segments.
  assert (G : forallb plain_segment (resolve_segments (strings.Split full "/") [])
              = true)
    by (apply resolve_segments_kept_plain; reflexivity).
  destruct (is_dot (last (strings.Split full "/") [])
            || is_dotdot (last (strings.Split full "/") []));
    [rewrite forallb_app, G; reflexivity|exact G].
Qed.

(** The segments of a joined list, its leading slash trimmed, are
    among the segments joined. *)
Lemma Split_TrimPrefix_Join (P : gostring -> Prop) (l : list gostring) :
  Forall (fun seg => ~ In "/"%char seg) l ->
  P [] -> Forall P l ->
  Forall P (strings.Split
              (strings.TrimPrefix (strings.Join l ["/"%char]) ["/"%char]) "/").
Proof.
  intros NS P0 F. unfold strings.TrimPrefix.
  destruct l as [|e rest].
  - cbn. auto.
  - inversion NS as [|? ? Ne NS']; subst. inversion F as [|? ? Pe F']; subst.
    destruct rest as [|e' rest].
    + cbn [strings.Join]. rewrite HasPrefix_byte.
      destruct e as [|x e].
      * cbn. auto.
      * destruct (Ascii.eqb "/" x) eqn:E;
          [apply Ascii.eqb_eq in E; subst; exfalso; apply Ne; left; reflexivity|].
        rewrite Split_no_sep by exact Ne. auto.
    + rewrite Join_cons by discriminate. rewrite HasPrefix_byte.
      destruct e as [|x e].
      * cbn [app]. rewrite Ascii.eqb_refl. cbn [List.length skipn].
        rewrite Split_Join by (auto; discriminate). exact F'.
      * cbn [app].
        destruct (Ascii.eqb "/" x) eqn:E;
          [apply Ascii.eqb_eq in E; subst; exfalso; apply Ne; left; reflexivity|].
        change (x :: e ++ "/"%char :: strings.Join (e' :: rest) ["/"%char])
          with ((x :: e) ++ "/"%char :: strings.Join (e' :: rest) ["/"%char]).
        rewrite Split_app_sep by exact Ne.
        rewrite Split_Join by (auto; discriminate). exact F.
Qed.

Lemma kept_segments_no_slash (full : gostring) :
  Forall (fun seg => ~ In "/"%char seg) (kept_segments full).
Proof. apply kept_segments_Forall; [auto|apply Split_segments]. Qed.

(** [resolvePath] leaves a resolved path. *)
Lemma remove_dots_resolved (full : gostring) :
  resolved (remove_dots full) = true.
Proof.
  unfold remove_dots. destruct (is_empty full); [reflexivity|].
  cbn [resolved]. rewrite Ascii.eqb_refl. cbn [andb].
  change (str "/") with ["/"%char].
  apply forallb_forall. apply Forall_forall.
  apply Split_TrimPrefix_Join.
  - apply kept_segments_no_slash.
  - reflexivity.
  - apply Forall_forall. apply forallb_forall. apply kept_segments_plain.
Qed.

Lemma plain_last (l : list gostring) :
  forallb plain_segment l = true ->
  is_dot (last l []) || is_dotdot (last l []) = false.
Proof.
  intros F.
  assert (P : plain_segment (last l []) = true).
  { destruct l as [|e l]; [reflexivity|].
    rewrite forallb_forall in F. apply F.
    destruct (exists_last (l := e :: l)) as (l' & z & E); [discriminate|].
    rewrite E, last_last. apply in_or_app. right. left. reflexivity. }
  unfold plain_segment in P. apply andb_true_iff in P. destruct P as [P1 P2].
  apply negb_true_iff in P1, P2. rewrite P1, P2. reflexivity.
Qed.

(** A resolved path is left as it is. *)
Lemma remove_dots_fixed (q : gostring) :
  resolved q = true -> remove_dots q = q.
Proof.
  destruct q as [|c t]; [reflexivity|]. cbn [resolved]. intros R.
  apply andb_true_iff in R. destruct R as [C F].
  apply Ascii.eqb_eq in C. subst c.
  unfold remove_dots. cbn [is_empty]. f_equal.
  unfold kept_segments. cbn [strings.Split]. rewrite Ascii.eqb_refl.
  assert (FP : forallb plain_segment ([] :: strings.Split t "/") = true)
    by (cbn [forallb]; rewrite F; reflexivity).
  rewrite (plain_last _ FP). rewrite (resolve_segments_plain _ [] FP).
  cbn [app]. change (str "/") with ["/"%char].
  rewrite Join_cons by apply Split_not_nil. rewrite Join_Split.
  cbn [app]. unfold strings.TrimPrefix. rewrite HasPrefix_byte, Ascii.eqb_refl.
  reflexivity.
Qed.

Lemma resolvePath_resolved (base ref : gostring) :
  resolved (resolvePath base ref) = true.
Proof. rewrite resolvePath_eq. apply remove_dots_resolved. Qed.

Lemma resolvePath_fixed (q : gostring) :
  resolved q = true -> resolvePath q [] = q.
Proof. intros R. rewrite resolvePath_eq. cbn [merge_paths]. apply remove_dots_fixed, R. Qed.

Lemma resolved_rooted (q : gostring) :
  resolved q = true -> q = [] \/ strings.HasPrefix q ["/"%char] = true.
Proof.
  destruct q as [|c t]; [auto|]. cbn [resolved]. intros R.
  apply andb_true_iff in R. destruct R as [C _].
  right. rewrite HasPrefix_byte. apply Ascii.eqb_eq in C. subst.
  reflexivity.
Qed.

(** ** Bytes and escapes of a resolved path *)

Lemma length_strong_ind (P : gostring -> Prop) :
  (forall s, (forall t, List.length t < List.length s -> P t) -> P s) ->
  forall s, P s.
Proof.
  intros H s.
  assert (G : forall n t, List.length t < n -> P t).
  { induction n as [|n IH]; intros t L; [lia|].
    apply H. intros t' L'. apply IH. lia. }
  apply (G (S (List.length s))). lia.
Qed.

Lemma pct_ok_cons (c : ascii) (s : gostring) :
  c <> "%"%char -> pct_ok (c :: s) = pct_ok s.
Proof.
  intros N. cbn [pct_ok].
  destruct (Ascii.eqb c "%") eqn:E; [apply Ascii.eqb_eq in E; congruence|].
  reflexivity.
Qed.

Lemma pct_ok_app_slash (a b : gostring) :
  pct_ok (a ++ "/"%char :: b) = pct_ok a && pct_ok b.
Proof.
  revert b. induction a as [a IH] using length_strong_ind. intros b.
  destruct a as [|c a]; [reflexivity|].
  destruct (Ascii.eqb c "%") eqn:E.
  - apply Ascii.eqb_eq in E. subst c.
    destruct a as [|h1 a]; [destruct b; reflexivity|].
    destruct a as [|h2 a].
    + cbn [app pct_ok Ascii.eqb Bool.eqb].
      change (ishex "/") with false. rewrite andb_false_r. reflexivity.
    + cbn [app pct_ok]. change (Ascii.eqb "%" "%") with true. cbv iota.
      rewrite IH by (cbn [List.length]; lia).
      rewrite andb_assoc. reflexivity.
  - cbn [app pct_ok]. rewrite E. apply IH. cbn [List.length]. lia.
Qed.

Lemma pct_ok_Join (l : list gostring) :
  pct_ok (strings.Join l ["/"%char]) = forallb pct_ok l.
Proof.
  induction l as [|e l IH]; [reflexivity|].
  destruct l as [|e' l].
  - cbn [strings.Join forallb]. rewrite andb_true_r. reflexivity.
  - rewrite Join_cons by discriminate. cbn [app].
    rewrite pct_ok_app_slash, IH. reflexivity.
Qed.

Lemma pct_ok_Split (s : gostring) :
  pct_ok s = forallb pct_ok (strings.Split s "/").
Proof. rewrite <- pct_ok_Join, Join_Split. reflexivity. Qed.

Lemma remove_dots_pct_ok (full : gostring) :
  pct_ok full = true -> pct_ok (remove_dots full) = true.
Proof.
  intros H. unfold remove_dots. destruct (is_empty full); [reflexivity|].
  rewrite pct_ok_cons by discriminate. rewrite pct_ok_Split.
  change (str "/") with ["/"%char].
  apply forallb_forall. apply Forall_forall.
  apply (@Split_TrimPrefix_Join (fun seg => pct_ok seg = true)).
  - apply kept_segments_no_slash.
  - reflexivity.
  - apply kept_segments_Forall; [reflexivity|].
    apply Forall_forall. apply forallb_forall. rewrite <- pct_ok_Split. exact H.
Qed.

Lemma merge_paths_pct_ok (base ref : gostring) :
  pct_ok base = true -> pct_ok ref = true -> pct_ok (merge_paths base ref) = true.
Proof.
  intros B R. unfold merge_paths. destruct ref as [|c ref]; [exact B|].
  destruct (Ascii.eqb c "/"); [exact R|].
  change (str "/") with ["/"%char].
  destruct (strings.LastIndex base ["/"%char]) as [i|] eqn:L; [|exact R].
  apply LastIndex_byte_Some in L. destruct L as (xa & xb & -> & <- & _).
  replace (firstn (S (List.length xa)) (xa ++ "/"%char :: xb))
    with (xa ++ ["/"%char]).
  - rewrite <- app_assoc. cbn [app]. rewrite pct_ok_app_slash in *.
    apply andb_true_iff in B. destruct B as [B _]. rewrite B, R. reflexivity.
  - replace (xa ++ "/"%char :: xb) with ((xa ++ ["/"%char]) ++ xb)
      by (rewrite <- app_assoc; reflexivity).
    replace (S (List.length xa)) with (List.length (xa ++ ["/"%char]))
      by (rewrite length_app; cbn; lia).
    rewrite firstn_length_app. reflexivity.
Qed.

Lemma resolvePath_pct_ok (base ref : gostring) :
  pct_ok base = true -> pct_ok ref = true ->
  pct_ok (resolvePath base ref) = true.
Proof.
  intros B R. rewrite resolvePath_eq.
  apply remove_dots_pct_ok, merge_paths_pct_ok; assumption.
Qed.

Lemma Split_Forall_bytes (P : ascii -> Prop) (s : gostring) (c : ascii) :
  Forall P s -> Forall (Forall P) (strings.Split s c).
Proof.
  induction s as [|d s IH]; intros F; cbn [strings.Split].
  - repeat constructor.
  - inversion F; subst. specialize (IH H2).
    destruct (Ascii.eqb d c); [constructor; auto|].
    destruct (strings.Split s c) as [|seg segs]; [repeat constructor; auto|].
    inversion IH; subst. constructor; auto.
Qed.

Lemma Join_Forall_bytes (P : ascii -> Prop) (l : list gostring) (sep : gostring) :
  Forall (Forall P) l -> Forall P sep -> Forall P (strings.Join l sep).
Proof.
  intros F S. induction F as [|e l Pe F IH]; [constructor|].
  destruct l as [|e' l]; [exact Pe|].
  rewrite Join_cons by discriminate.
  apply Forall_app. split; [exact Pe|]. apply Forall_app. auto.
Qed.

Lemma Forall_skipn {A : Type} (P : A -> Prop) (n : nat) (l : list A) :
  Forall P l -> Forall P (skipn n l).
Proof.
  revert l; induction n as [|n IH]; intros l F; [exact F|].
  destruct l; [constructor|]. inversion F; subst. cbn [skipn]. auto.
Qed.

Lemma Forall_firstn {A : Type} (P : A -> Prop) (n : nat) (l : list A) :
  Forall P l -> Forall P (firstn n l).
Proof.
  revert l; induction n as [|n IH]; intros l F; [constructor|].
  destruct l; [constructor|]. inversion F; subst. cbn [firstn]. auto.
Qed.

Lemma resolvePath_bytes (P : ascii -> Prop) (base ref : gostring) :
  P "/"%char -> Forall P base -> Forall P ref ->
  Forall P (resolvePath base ref).
Proof.
  intros PS B R. rewrite resolvePath_eq.
  assert (M : Forall P (merge_paths base ref)).
  { unfold merge_paths. destruct ref as [|c ref]; [exact B|].
    destruct (Ascii.eqb c "/"); [exact R|].
    destruct (strings.LastIndex base (str "/")); [|exact R].
    apply Forall_app. split; [apply Forall_firstn; exact B|exact R]. }
  unfold remove_dots. destruct (is_empty (merge_paths base ref)); [constructor|].
  constructor; [exact PS|].
  unfold strings.TrimPrefix.
  assert (J : Forall P (strings.Join (kept_segments (merge_paths base ref))
                                     (str "/"))).
  { apply Join_Forall_bytes; [|repeat constructor; exact PS].
    apply kept_segments_Forall; [constructor|].
    apply Split_Forall_bytes. exact M. }
  destruct (strings.HasPrefix _ _); [apply Forall_skipn|]; exact J.
Qed.

(** ** [EscapedPath] and [setPath] *)

Lemma unescape_path_literal (c : ascii) (s : gostring) :
  c <> "%"%char ->
  unescape (c :: s) encodePath = t <- unescape s encodePath ;; Ok (c :: t).
Proof.
  intros N. destruct (Ascii.eqb c "+") eqn:P.
  - apply Ascii.eqb_eq in P. subst. reflexivity.
  - apply Ascii.eqb_neq in P. rewrite unescape_literal by assumption. reflexivity.
Qed.

Lemma pct_ok_unescape (s : gostring) :
  pct_ok s = is_ok (unescape s encodePath).
Proof.
  induction s as [s IH] using length_strong_ind.
  destruct s as [|c s]; [reflexivity|].
  destruct (Ascii.eqb c "%") eqn:E.
  - apply Ascii.eqb_eq in E. subst c.
    destruct s as [|h1 s]; [reflexivity|].
    destruct s as [|h2 s]; [reflexivity|].
    rewrite unescape_percent. cbn [pct_ok encoding_eqb andb].
    change (Ascii.eqb "%" "%") with true. cbv iota.
    rewrite IH by (cbn [List.length]; lia).
    destruct (ishex h1 && ishex h2); cbn [negb andb]; [|reflexivity].
    destruct (unescape s encodePath); reflexivity.
  - cbn [pct_ok]. rewrite E.
    apply Ascii.eqb_neq in E. rewrite unescape_path_literal by exact E.
    rewrite IH by (cbn [List.length]; lia).
    destruct (unescape s encodePath); reflexivity.
Qed.

Lemma path_byte_unescaped (c : ascii) :
  is_upper_hex c = true -> valid_path_byte c = true.
Proof. ascii_cases c; vm_compute; congruence. Qed.

Lemma escape_path_valid (s : gostring) :
  forallb valid_path_byte (escape s encodePath) = true.
Proof.
  apply forallb_forall. intros c I.
  pose proof (@escape_bytes encodePath s ltac:(discriminate)) as F.
  rewrite Forall_forall in F.
  destruct (F c I) as [H|[->|H]].
  - unfold valid_path_byte. rewrite H. cbn [negb]. apply orb_true_r.
  - reflexivity.
  - apply path_byte_unescaped. exact H.
Qed.

Lemma EscapedPath_cases (u : URL) :
  (EscapedPath u = RawPath u
   /\ forallb valid_path_byte (RawPath u) = true
   /\ unescape (RawPath u) encodePath = Ok (Path u))
  \/ (EscapedPath u = str "*" /\ Path u = str "*")
  \/ EscapedPath u = escape (Path u) encodePath.
Proof.
  unfold EscapedPath.
  assert (D : (if gostring_eqb (Path u) (str "*") then str "*"
               else escape (Path u) encodePath) = str "*" /\ Path u = str "*"
              \/ (if gostring_eqb (Path u) (str "*") then str "*"
                  else escape (Path u) encodePath) = escape (Path u) encodePath).
  { destruct (gostring_eqb (Path u) (str "*")) eqn:E; [|auto].
    apply gostring_eqb_spec in E. auto. }
  destruct (negb (is_empty (RawPath u)) && validEncodedPath (RawPath u)) eqn:C;
    [|tauto].
  apply andb_true_iff in C. destruct C as [_ V].
  destruct (unescape (RawPath u) encodePath) as [p|e] eqn:U; [|tauto].
  destruct (gostring_eqb p (Path u)) eqn:E; [|tauto].
  apply gostring_eqb_spec in E. subst p. left. auto.
Qed.

Lemma EscapedPath_valid (u : URL) :
  forallb valid_path_byte (EscapedPath u) = true.
Proof.
  destruct (EscapedPath_cases u) as [(-> & V & _)|[(-> & _)| ->]];
    [exact V|reflexivity|apply escape_path_valid].
Qed.

Lemma EscapedPath_unescape (u : URL) :
  unescape (EscapedPath u) encodePath = Ok (Path u).
Proof.
  destruct (EscapedPath_cases u) as [(-> & _ & U)|[(-> & ->)| ->]];
    [exact U|reflexivity|apply unescape_escape; auto].
Qed.

Lemma EscapedPath_pct_ok (u : URL) : pct_ok (EscapedPath u) = true.
Proof. rewrite pct_ok_unescape, EscapedPath_unescape. reflexivity. Qed.

Lemma valid_path_no_query (s : gostring) :
  forallb valid_path_byte s = true ->
  ~ In "?"%char s /\ ~ In "#"%char s.
Proof.
  intros V. rewrite forallb_forall in V.
  split; intros I; apply V in I; discriminate I.
Qed.

(** [EscapedPath] gives back the encoded path that [setPath] was given,
    when that path is valid and rooted. *)
Lemma EscapedPath_setPath (u0 u1 : URL) (q : gostring) :
  setPath u0 q = Ok u1 ->
  forallb valid_path_byte q = true ->
  q = [] \/ strings.HasPrefix q ["/"%char] = true ->
  EscapedPath u1 = q
  /\ unescape q encodePath = Ok (Path u1)
  /\ u1 = set_Path u0 (Path u1) (RawPath u1).
Proof.
  unfold setPath. intros H V R.
  destruct (unescape q encodePath) as [p|e] eqn:U; cbn [bind] in H;
    [|discriminate].
  assert (NS : gostring_eqb p (str "*") = false).
  { destruct (gostring_eqb p (str "*")) eqn:E; [|reflexivity].
    apply gostring_eqb_spec in E. subst p. exfalso.
    destruct R as [-> | R]; [discriminate U|].
    destruct q as [|c q]; [discriminate R|].
    rewrite HasPrefix_byte in R. apply Ascii.eqb_eq in R. subst c.
    rewrite unescape_path_literal in U by discriminate.
    destruct (unescape q encodePath); cbn [bind] in U; discriminate U. }
  destruct (gostring_eqb q (escape p encodePath)) eqn:E.
  - apply gostring_eqb_spec in E. apply Ok_inj in H. subst u1.
    cbn [Path RawPath set_Path]. repeat split.
    unfold EscapedPath. cbn [Path RawPath set_Path is_empty negb andb].
    rewrite NS. auto.
  - apply Ok_inj in H. subst u1. cbn [Path RawPath set_Path]. repeat split.
    unfold EscapedPath. cbn [Path RawPath set_Path].
    assert (NE : is_empty q = false).
    { destruct q; [|reflexivity]. cbn in U. apply Ok_inj in U. subst p.
      discriminate E. }
    rewrite NE. cbn [negb andb].
    change (validEncodedPath q) with (forallb valid_path_byte q).
    rewrite V, U, gostring_eqb_refl. reflexivity.
Qed.

(** ** What [Parse] leaves in [Opaque] and [RawQuery] *)

Lemma In_firstn_inv {A : Type} (x : A) (n : nat) (l : list A) :
  In x (firstn n l) -> In x l.
Proof. intros I. rewrite <- (firstn_skipn n l). apply in_or_app. auto. Qed.

Lemma In_skipn_inv {A : Type} (x : A) (n : nat) (l : list A) :
  In x (skipn n l) -> In x l.
Proof. intros I. rewrite <- (firstn_skipn n l). apply in_or_app. auto. Qed.

Lemma split_parts (s : gostring) (c : ascii) (cutc : bool) (a b : gostring) :
  split s [c] cutc = (a, b) ->
  ~ In c a /\ (forall x, In x a -> In x s) /\ (forall x, In x b -> In x s).
Proof.
  unfold split. destruct (strings.Index s [c]) as [i|] eqn:I.
  - apply Index_byte_Some in I. destruct I as (h & t & E & L & N).
    intros H.
    assert (A : a = firstn i s) by (destruct cutc; inversion H; reflexivity).
    assert (B : exists k, b = skipn k s)
      by (destruct cutc; inversion H; eexists; reflexivity).
    destruct B as (k & B). subst a b. repeat split.
    + subst s i. rewrite firstn_length_app. exact N.
    + intros x. apply In_firstn_inv.
    + intros x. apply In_skipn_inv.
  - apply Index_byte_None_inv in I. intros H. inversion H; subst.
    repeat split; [exact I|auto|intros x []].
Qed.

Lemma getscheme_loop_rest (rawurl : gostring) :
  forall s i scheme rest,
    getscheme_loop rawurl s i = Ok (scheme, rest) ->
    forall x, In x rest -> In x rawurl.
Proof.
  induction s as [|c s IH]; intros i scheme rest H x X; cbn [getscheme_loop] in H.
  - apply Ok_inj in H. assert (E : rest = rawurl) by congruence.
    subst rest. exact X.
  - repeat match type of H with
           | (if ?b then _ else _) = _ => destruct b
           end;
      try discriminate H; try (eapply IH; eassumption);
      apply Ok_inj in H;
      first [ assert (E : rest = rawurl) by congruence; subst rest; exact X
            | assert (E : rest = skipn (S i) rawurl) by congruence;
              subst rest; eapply In_skipn_inv; exact X ].
Qed.

Lemma Count_zero_inv (s : gostring) (c : ascii) :
  strings.Count s c = 0 -> ~ In c s.
Proof.
  induction s as [|d s IH]; cbn [strings.Count]; intros H; [intros []|].
  destruct (Ascii.eqb d c) eqn:E; [discriminate H|].
  intros [-> | I]; [rewrite Ascii.eqb_refl in E; discriminate E|].
  exact (IH H I).
Qed.

(** The two ways [parse] cuts the query off. *)
Lemma query_cut_parts (url0 : URL) (rest : gostring) :
  exists url rest',
    (if strings.HasSuffix rest ["?"%char] && (strings.Count rest "?" =? 1)
     then (set_ForceQuery url0 true, firstn (List.length rest - 1) rest)
     else let (rest', q) := split rest ["?"%char] true in
          (set_RawQuery url0 q, rest'))
    = (url, rest')
    /\ ~ In "?"%char rest'
    /\ (forall x, In x rest' -> In x rest)
    /\ (forall x, In x (RawQuery url) -> In x rest \/ In x (RawQuery url0))
    /\ Opaque url = Opaque url0
    /\ Scheme url = Scheme url0.
Proof.
  destruct (strings.HasSuffix rest ["?"%char] && (strings.Count rest "?" =? 1))
    eqn:C.
  - do 2 eexists. split; [reflexivity|].
    apply andb_true_iff in C. destruct C as [S C].
    apply HasSuffix_byte in S. destruct S as (s' & ->).
    apply Nat.eqb_eq in C. rewrite Count_app in C.
    cbn [strings.Count Ascii.eqb Bool.eqb] in C.
    assert (Z : strings.Count s' "?" = 0) by (cbn in C; lia).
    apply Count_zero_inv in Z.
    rewrite length_app. cbn [List.length].
    replace (List.length s' + 1 - 1) with (List.length s') by lia.
    rewrite firstn_length_app.
    repeat split; auto.
    intros x I. apply in_or_app. auto.
  - destruct (split rest ["?"%char] true) as [rest' q] eqn:S.
    do 2 eexists. split; [reflexivity|].
    apply split_parts in S. destruct S as (N & A & B).
    repeat split; auto.
Qed.

Lemma setPath_set_Path (u r : URL) (p : gostring) :
  setPath u p = Ok r -> exists a b, r = set_Path u a b.
Proof.
  unfold setPath. destruct (unescape p encodePath) as [path|e]; cbn [bind];
    [|discriminate].
  destruct (gostring_eqb p (escape path encodePath)); intros H;
    apply Ok_inj in H; subst r; eauto.
Qed.

Lemma parse_fields (s : gostring) (r : URL) :
  parse s = Ok r ->
  (forall x, In x (RawQuery r) -> In x s)
  /\ (forall x, In x (Opaque r) -> In x s)
  /\ ~ In "?"%char (Opaque r)
  /\ strings.HasPrefix (Opaque r) ["/"%char] = false.
Proof.
  unfold parse. intros H.
  destruct (gostring_eqb s (str "*")).
  { apply Ok_inj in H. subst r. repeat split; try (intros x []); intros []. }
  destruct (getscheme s) as [[scheme rest]|e] eqn:G; cbn [bind] in H;
    [|discriminate H].
  pose proof (getscheme_loop_rest _ _ _ G) as GR.
  change (str "?") with ["?"%char] in H.
  destruct (query_cut_parts (set_Scheme empty_URL (strings.ToLower scheme)) rest)
    as (url & rest' & E & N & R & Q & O & _).
  rewrite E in H. cbv iota beta in H.
  assert (Q' : forall x, In x (RawQuery url) -> In x s).
  { intros x I. apply Q in I. destruct I as [I|[]]. auto. }
  change (str "/") with ["/"%char] in H.
  destruct (negb (strings.HasPrefix rest' ["/"%char])
            && negb (is_empty (Scheme url))) eqn:C1.
  { apply Ok_inj in H. subst r. cbn [RawQuery Opaque set_Opaque].
    apply andb_true_iff in C1. destruct C1 as [C1 _].
    apply negb_true_iff in C1. repeat split; auto. }
  match type of H with
  | (if ?b then _ else _) = _ => destruct b; [discriminate H|]
  end.
  assert (T : exists url2 rest2,
             setPath url2 rest2 = Ok r
             /\ Opaque url2 = Opaque url /\ RawQuery url2 = RawQuery url).
  { match type of H with
    | bind (if ?b then _ else _) _ = _ => destruct b
    end.
    - destruct (split (skipn 2 rest') ["/"%char] false) as [authority rest''].
      destruct (parseAuthority authority) as [[user host]|e];
        cbn [bind] in H; [|discriminate H].
      do 2 eexists. split; [exact H|]. split; reflexivity.
    - cbn [bind] in H. do 2 eexists. split; [exact H|]. split; reflexivity. }
  destruct T as (url2 & rest2 & SP & O2 & Q2).
  apply setPath_set_Path in SP. destruct SP as (a & b & ->).
  cbn [RawQuery Opaque set_Path]. rewrite O2, Q2, O.
  cbn [Opaque set_Scheme empty_URL].
  repeat split; auto; try (intros x I; destruct I); intros I; destruct I.
Qed.

Lemma Parse_fields (rawURL : gostring) (ref : URL) :
  Parse rawURL = Ok ref ->
  ~ In "#"%char (RawQuery ref) /\ ~ In "#"%char (Opaque ref)
  /\ ~ In "?"%char (Opaque ref)
  /\ strings.HasPrefix (Opaque ref) ["/"%char] = false.
Proof.
  unfold Parse. change (str "#") with ["#"%char].
  destruct (split rawURL ["#"%char] true) as [u frag] eqn:S.
  apply split_parts in S. destruct S as (N & _ & _).
  destruct (parse u) as [url|e] eqn:P; [|discriminate].
  apply parse_fields in P. destruct P as (Q & O & OQ & OP).
  assert (F : ~ In "#"%char (RawQuery url) /\ ~ In "#"%char (Opaque url)
              /\ ~ In "?"%char (Opaque url)
              /\ strings.HasPrefix (Opaque url) ["/"%char] = false)
    by (repeat split; auto).
  destruct (is_empty frag).
  - intros H. apply Ok_inj in H. subst ref. exact F.
  - destruct (unescape frag encodeFragment); [|discriminate].
    intros H. apply Ok_inj in H. subst ref. exact F.
Qed.

(** ** What [ResolveReference] returns *)

Lemma valid_path_Forall (s : gostring) :
  forallb valid_path_byte s = true
  <-> Forall (fun c => valid_path_byte c = true) s.
Proof. rewrite forallb_forall, Forall_forall. reflexivity. Qed.

Lemma resolvePath_valid (base ref : gostring) :
  forallb valid_path_byte base = true -> forallb valid_path_byte ref = true ->
  forallb valid_path_byte (resolvePath base ref) = true.
Proof.
  rewrite !valid_path_Forall. apply resolvePath_bytes. reflexivity.
Qed.

(** On a valid, well-escaped and resolved path [setPath] succeeds, and
    [EscapedPath] gives that path back. *)
Lemma setPath_ignore_resolved (url : URL) (q : gostring) :
  forallb valid_path_byte q = true -> pct_ok q = true -> resolved q = true ->
  setPath url q = Ok (setPath_ignore url q)
  /\ EscapedPath (setPath_ignore url q) = q
  /\ unescape q encodePath = Ok (Path (setPath_ignore url q))
  /\ exists a b, setPath_ignore url q = set_Path url a b.
Proof.
  intros V P R. unfold setPath_ignore.
  destruct (setPath url q) as [r|e] eqn:S.
  - destruct (EscapedPath_setPath _ S V (resolved_rooted _ R)) as (E & U & F).
    repeat split; auto. exists (Path r), (RawPath r). exact F.
  - exfalso. unfold setPath in S. rewrite pct_ok_unescape in P.
    destruct (unescape q encodePath) as [path|e']; [|discriminate P].
    cbn [bind] in S.
    destruct (gostring_eqb q (escape path encodePath)); discriminate S.
Qed.

Lemma setPath_again (u0 r : URL) (q : gostring) :
  setPath u0 q = Ok r -> setPath r q = Ok r.
Proof.
  unfold setPath. destruct (unescape q encodePath) as [path|e]; cbn [bind];
    [|discriminate].
  destruct (gostring_eqb q (escape path encodePath)); intros H;
    apply Ok_inj in H; subst r; reflexivity.
Qed.

Lemma resolved_paths (u ref : URL) :
  let q := resolvePath (EscapedPath u) (EscapedPath ref) in
  forallb valid_path_byte q = true /\ pct_ok q = true /\ resolved q = true.
Proof.
  cbv zeta. repeat split.
  - apply resolvePath_valid; apply EscapedPath_valid.
  - apply resolvePath_pct_ok; apply EscapedPath_pct_ok.
  - apply resolvePath_resolved.
Qed.

Lemma resolved_path (ref : URL) :
  let q := resolvePath (EscapedPath ref) [] in
  forallb valid_path_byte q = true /\ pct_ok q = true /\ resolved q = true.
Proof.
  cbv zeta. repeat split.
  - apply resolvePath_valid; [apply EscapedPath_valid|reflexivity].
  - apply resolvePath_pct_ok; [apply EscapedPath_pct_ok|reflexivity].
  - apply resolvePath_resolved.
Qed.

Lemma ResolveReference_fields (u ref : URL) :
  Opaque (ResolveReference u ref) = Opaque ref
  /\ (RawQuery (ResolveReference u ref) = RawQuery ref
      \/ RawQuery (ResolveReference u ref) = RawQuery u)
  /\ (Opaque ref = [] -> resolved (EscapedPath (ResolveReference u ref)) = true).
Proof.
  unfold ResolveReference.
  destruct (negb (is_empty (Scheme ref)) || negb (is_empty (Host ref))
            || match User_ ref with Some _ => true | None => false end).
  - destruct (resolved_path ref) as (V & P & R).
    match goal with
    | |- context [setPath_ignore ?url ?q] =>
        destruct (@setPath_ignore_resolved url q V P R) as (_ & EP & _ & a & b & E)
    end.
    rewrite EP. rewrite E. cbn [Opaque RawQuery set_Path].
    destruct (is_empty (Scheme ref)); auto.
  - destruct (negb (is_empty (Opaque ref))) eqn:O.
    + cbn [Opaque RawQuery set_Path set_Host set_User].
      destruct (is_empty (Scheme ref)); repeat split; auto;
        intros Z; rewrite Z in O; discriminate O.
    + destruct (resolved_paths u ref) as (V & P & R).
      match goal with
      | |- context [setPath_ignore ?url ?q] =>
          destruct (@setPath_ignore_resolved url q V P R)
            as (_ & EP & _ & a & b & E)
      end.
      rewrite EP. rewrite E. cbn [Opaque RawQuery set_Path set_Host set_User].
      destruct (is_empty (Scheme ref));
        destruct (is_empty (Path ref) && is_empty (RawQuery ref));
        destruct (is_empty (Fragment ref)); auto.
Qed.

Lemma ResolveReference_absolute (base ref : URL) :
  Scheme ref <> [] ->
  ResolveReference base ref
  = setPath_ignore ref (resolvePath (EscapedPath ref) []).
Proof.
  intros S. unfold ResolveReference.
  destruct (is_empty (Scheme ref)) eqn:E;
    [apply is_empty_spec in E; contradiction|].
  reflexivity.
Qed.

(** What [formatURL] returns can be written and read back, but for its
    host. *)
Lemma formatURL_fields (pageURL : URL) (rawURL : gostring) (link : URL) :
  formatURL pageURL rawURL = Returns (Some link) ->
  ~ In "#"%char (RawQuery pageURL) ->
  (Scheme link = str "http" \/ Scheme link = str "https")
  /\ Fragment link = []
  /\ ~ In "#"%char (RawQuery link) /\ ~ In "#"%char (Opaque link)
  /\ ~ In "?"%char (Opaque link)
  /\ strings.HasPrefix (Opaque link) ["/"%char] = false
  /\ (Opaque link = [] -> resolved (EscapedPath link) = true).
Proof.
  intros F NB. apply formatURL_Some in F. destruct F as (rel & UP & -> & S).
  unfold URL_Parse in UP.
  destruct (Parse rawURL) as [ref|e] eqn:P; cbn [bind] in UP; [|discriminate UP].
  apply Ok_inj in UP. subst rel.
  apply Parse_fields in P. destruct P as (Q & O & OQ & OP).
  destruct (ResolveReference_fields pageURL ref) as (EO & EQ & R).
  replace (EscapedPath (set_Fragment (ResolveReference pageURL ref) []))
    with (EscapedPath (ResolveReference pageURL ref)) by reflexivity.
  cbn [Scheme Fragment RawQuery Opaque set_Fragment].
  rewrite EO. repeat split; auto.
  destruct EQ as [-> | ->]; assumption.
Qed.

(** ** [String], written out *)

Lemma String_opaque (u : URL) :
  Scheme u <> [] -> Opaque u <> [] -> Fragment u = [] ->
  String u = Scheme u ++ ":"%char :: Opaque u ++ query_suffix u.
Proof.
  intros S O F. unfold String, query_suffix. rewrite F.
  destruct (Scheme u) as [|a l] eqn:ES; [contradiction|].
  destruct (Opaque u) as [|a0 l0] eqn:EO; [contradiction|].
  cbn [is_empty negb]. rewrite app_nil_r. change (str ":") with [":"%char].
  rewrite <- app_assoc. reflexivity.
Qed.

Lemma String_hierarchical (u : URL) :
  Scheme u <> [] -> Opaque u = [] -> Fragment u = [] ->
  EscapedPath u = [] \/ strings.HasPrefix (EscapedPath u) ["/"%char] = true ->
  String u
  = Scheme u ++ ":"%char
    :: ((if negb (is_empty (Host u)) || negb (is_empty (Path u))
            || match User_ u with Some _ => true | None => false end
         then "/"%char :: "/"%char
              :: user_prefix (User_ u) ++ escape (Host u) encodeHost
         else [])
        ++ EscapedPath u)
    ++ query_suffix u.
Proof.
  intros S O F R. unfold String, query_suffix. rewrite F, O.
  destruct (Scheme u) as [|a l] eqn:ES; [contradiction|].
  cbn [is_empty negb orb andb].
  assert (SL : (if negb (is_empty (EscapedPath u))
                   && negb (strings.HasPrefix (EscapedPath u) (str "/"))
                   && negb (is_empty (Host u))
                then str "/" else []) = []).
  { destruct R as [-> | R]; [reflexivity|].
    change (str "/") with ["/"%char]. rewrite R.
    cbn [negb andb]. rewrite andb_false_r. reflexivity. }
  rewrite SL. rewrite app_nil_r. change (str ":") with [":"%char].
  rewrite <- (app_assoc (a :: l) [":"%char]).
  cbn [app]. do 3 f_equal.
  destruct (negb (is_empty (Host u)) || negb (is_empty (Path u))
            || match User_ u with Some _ => true | None => false end) eqn:C.
  - unfold user_prefix. change (str "@") with ["@"%char].
    cbn [app str list_ascii_of_string]. rewrite <- !app_assoc. reflexivity.
  - apply orb_false_iff in C. destruct C as [C CU].
    apply orb_false_iff in C. destruct C as [CH CP].
    destruct (User_ u); [discriminate CU|].
    destruct (Host u); [|discriminate CH]. reflexivity.
Qed.

Lemma query_suffix_not_In (u : URL) :
  ~ In "#"%char (RawQuery u) -> ~ In "#"%char (query_suffix u).
Proof.
  intros N. unfold query_suffix.
  destruct (ForceQuery u || negb (is_empty (RawQuery u))); [|intros []].
  intros [X|X]; [discriminate X|auto].
Qed.

Lemma query_suffix_norm (sch op : gostring) (us : option Userinfo)
      (h p rp : gostring) (fq : bool) (rq : gostring) :
  query_suffix (mkURL sch op us h p rp (fq && is_empty rq) rq [])
  = if fq || negb (is_empty rq) then "?"%char :: rq else [].
Proof. unfold query_suffix. cbn [ForceQuery RawQuery]. destruct fq, rq; reflexivity. Qed.

Lemma query_suffix_set_Path (u : URL) (a b : gostring) :
  query_suffix (set_Path u a b) = query_suffix u.
Proof. reflexivity. Qed.

Lemma scheme_not_In (scheme : gostring) (x : ascii) :
  scheme = str "http" \/ scheme = str "https" ->
  x = "#"%char \/ x = "?"%char \/ x = "/"%char -> ~ In x scheme.
Proof.
  intros [-> | ->] [-> | [-> | ->]] I; cbn in I;
    repeat (destruct I as [I|I]; [discriminate I|]); exact I.
Qed.

Lemma unescape_path_nil_inv (s : gostring) :
  unescape s encodePath = Ok [] -> s = [].
Proof.
  destruct s as [|c s]; [reflexivity|]. intros H. exfalso.
  destruct (Ascii.eqb c "%") eqn:E.
  - apply Ascii.eqb_eq in E. subst c.
    destruct s as [|h1 s]; [discriminate H|].
    destruct s as [|h2 s]; [discriminate H|].
    rewrite unescape_percent in H.
    repeat match type of H with
           | (if ?b then _ else _) = _ => destruct b; [discriminate H|]
           end.
    destruct (unescape s encodePath); cbn [bind] in H; discriminate H.
  - apply Ascii.eqb_neq in E. rewrite unescape_path_literal in H by exact E.
    destruct (unescape s encodePath); cbn [bind] in H; discriminate H.
Qed.

Lemma EscapedPath_nil (u : URL) : Path u = [] -> EscapedPath u = [].
Proof.
  intros P. apply unescape_path_nil_inv.
  rewrite EscapedPath_unescape. rewrite P. reflexivity.
Qed.

Lemma user_prefix_norm (user : option Userinfo) :
  user_prefix (option_map norm_user user) = user_prefix user
  /\ match option_map norm_user user with Some _ => true | None => false end
     = match user with Some _ => true | None => false end.
Proof.
  destruct user as [[n p [|]]|]; split; reflexivity.
Qed.

Lemma Fragment_clear (r : URL) : Fragment r = [] -> set_Fragment r [] = r.
Proof. destruct r; cbn. intros ->. reflexivity. Qed.

(** ** Reading back what [String] wrote *)

Lemma user_prefix_not_In (user : option Userinfo) (x : ascii) :
  x = "/"%char \/ x = "?"%char \/ x = "#"%char ->
  ~ In x (user_prefix user).
Proof.
  intros X. destruct user as [ui|]; [|intros []].
  unfold user_prefix. intros I. apply in_app_or in I. destruct I as [I|[I|[]]].
  - revert I. apply Userinfo_String_not_In. tauto.
  - destruct X as [-> | [-> | ->]]; discriminate I.
Qed.

Lemma authority_not_In (user : option Userinfo) (host : gostring) (x : ascii) :
  x = "/"%char \/ x = "?"%char \/ x = "#"%char ->
  ~ In x (user_prefix user ++ escape host encodeHost).
Proof.
  intros X I. apply in_app_or in I. destruct I as [I|I].
  - revert I. apply user_prefix_not_In. exact X.
  - revert I. apply host_escape_not_In. tauto.
Qed.

Lemma reparse_opaque (u : URL) :
  Scheme u = str "http" \/ Scheme u = str "https" ->
  Fragment u = [] -> Opaque u <> [] ->
  ~ In "#"%char (RawQuery u) -> ~ In "#"%char (Opaque u) ->
  ~ In "?"%char (Opaque u) -> strings.HasPrefix (Opaque u) ["/"%char] = false ->
  exists r,
    Parse (String u) = Ok r /\ Scheme r = Scheme u /\ Fragment r = []
    /\ RawQuery r = RawQuery u
    /\ String r = String u /\ forall base, ResolveReference base r = r.
Proof.
  intros S F O NQ NO NOQ OP.
  assert (SN : Scheme u <> []) by (destruct S as [E|E]; rewrite E; discriminate).
  pose proof (String_opaque u SN O F) as ES.
  exists (mkURL (Scheme u) (Opaque u) None [] [] []
                (ForceQuery u && is_empty (RawQuery u)) (RawQuery u) []).
  split; [|split; [reflexivity|split; [reflexivity|split; [reflexivity|split]]]].
  - rewrite ES. rewrite Parse_without_fragment.
    + unfold query_suffix. rewrite parse_opaque by assumption. reflexivity.
    + intros I. apply in_app_or in I. destruct I as [I|[I|I]].
      * revert I. apply scheme_not_In; auto.
      * discriminate I.
      * apply in_app_or in I. destruct I as [I|I]; [auto|].
        revert I. apply query_suffix_not_In. exact NQ.
  - rewrite ES. rewrite String_opaque; [|exact SN|exact O|reflexivity].
    cbn [Scheme Opaque]. rewrite query_suffix_norm. reflexivity.
  - intros base. rewrite ResolveReference_absolute by exact SN. reflexivity.
Qed.

Lemma reparse_hierarchical (u : URL) :
  Scheme u = str "http" \/ Scheme u = str "https" ->
  Fragment u = [] -> Opaque u = [] ->
  ~ In "#"%char (RawQuery u) ->
  resolved (EscapedPath u) = true ->
  is_ok (parseHost (escape (Host u) encodeHost)) = true ->
  exists r,
    Parse (String u) = Ok r /\ Scheme r = Scheme u /\ Fragment r = []
    /\ RawQuery r = RawQuery u
    /\ String r = String u /\ forall base, ResolveReference base r = r.
Proof.
  intros S F O NQ R PH.
  assert (SN : Scheme u <> []) by (destruct S as [E|E]; rewrite E; discriminate).
  pose proof (EscapedPath_valid u) as V.
  pose proof (EscapedPath_pct_ok u) as PC.
  pose proof (resolved_rooted _ R) as RT.
  destruct (valid_path_no_query _ V) as (NPQ & NPH).
  pose proof (String_hierarchical u SN O F RT) as ES.
  pose (u0 := mkURL (Scheme u) [] (option_map norm_user (User_ u)) (Host u) [] []
                    (ForceQuery u && is_empty (RawQuery u)) (RawQuery u) []).
  assert (PR : parse (String u) = setPath u0 (EscapedPath u)).
  { rewrite ES. unfold query_suffix.
    destruct (negb (is_empty (Host u)) || negb (is_empty (Path u))
              || match User_ u with Some _ => true | None => false end) eqn:C.
    - destruct (parseHost (escape (Host u) encodeHost)) as [h'|e] eqn:PHE;
        [|discriminate PH].
      cbn [app].
      apply (@parse_hierarchical (Scheme u)
               (user_prefix (User_ u) ++ escape (Host u) encodeHost)
               (EscapedPath u) (RawQuery u) (ForceQuery u)
               (option_map norm_user (User_ u)) (Host u) S).
      + apply authority_not_In. tauto.
      + exact NPQ.
      + apply authority_not_In. tauto.
      + exact RT.
      + eapply parseAuthority_written. exact PHE.
    - apply orb_false_iff in C. destruct C as [C CU].
      apply orb_false_iff in C. destruct C as [CH CP].
      apply negb_false_iff, is_empty_spec in CH.
      apply negb_false_iff, is_empty_spec in CP.
      destruct (User_ u) as [ui|] eqn:EU; [discriminate CU|].
      rewrite (EscapedPath_nil u CP). cbn [app].
      pose proof (@parse_opaque (Scheme u) [] (RawQuery u) (ForceQuery u) S
                    (@in_nil _ _) eq_refl) as PO.
      cbn [app] in PO. rewrite PO.
      subst u0. rewrite ?EU, ?CH. reflexivity. }
  destruct (@setPath_ignore_resolved u0 (EscapedPath u) V PC R)
    as (SP & EP & UP & a & b & E).
  remember (setPath_ignore u0 (EscapedPath u)) as r eqn:Er.
  rewrite (EscapedPath_unescape u) in UP. apply Ok_inj in UP.
  assert (FS : Scheme r = Scheme u) by (rewrite E; reflexivity).
  assert (FO : Opaque r = []) by (rewrite E; reflexivity).
  assert (FF : Fragment r = []) by (rewrite E; reflexivity).
  assert (FH : Host r = Host u) by (rewrite E; reflexivity).
  assert (FU : User_ r = option_map norm_user (User_ u)) by (rewrite E; reflexivity).
  assert (FQ : RawQuery r = RawQuery u) by (rewrite E; reflexivity).
  assert (QS : query_suffix r = query_suffix u).
  { rewrite E. rewrite query_suffix_set_Path. subst u0.
    rewrite query_suffix_norm. reflexivity. }
  exists r.
  split; [|split; [exact FS|split; [exact FF|split; [exact FQ|split]]]].
  - rewrite Parse_without_fragment.
    + rewrite PR, SP. reflexivity.
    + rewrite ES. intros I. apply in_app_or in I. destruct I as [I|[I|I]].
      * revert I. apply scheme_not_In; auto.
      * discriminate I.
      * apply in_app_or in I. destruct I as [I|I].
        -- apply in_app_or in I. destruct I as [I|I]; [|auto].
           destruct (negb (is_empty (Host u)) || negb (is_empty (Path u))
                     || match User_ u with Some _ => true | None => false end);
             [|destruct I].
           destruct I as [I|[I|I]]; [discriminate I|discriminate I|].
           revert I. apply authority_not_In. tauto.
        -- revert I. apply query_suffix_not_In. exact NQ.
  - rewrite ES.
    rewrite String_hierarchical;
      [|rewrite FS; exact SN|exact FO|exact FF|rewrite EP; exact RT].
    rewrite FS, FH, FU, EP, QS, <- UP.
    destruct (user_prefix_norm (User_ u)) as [-> ->]. reflexivity.
  - intros base. rewrite ResolveReference_absolute by (rewrite FS; exact SN).
    rewrite EP. rewrite resolvePath_fixed by exact R.
    unfold setPath_ignore. rewrite (@setPath_again _ _ _ SP). reflexivity.
Qed.

(** ** Idempotence *)

(** C8. Normalization is idempotent on the string form, the form the
    crawler compares links by, with one proviso.  Let [formatURL]
    return [link] for a reference found on a page whose own query holds
    no ['#'] (as every page URL of a crawl does), and let the host of
    [link], as [String] writes it, be accepted by [parseHost] again.
    Then the query of [link] holds no ['#'] either, and there is one
    URL [link'], written exactly as [link], that [formatURL] returns for
    the string form of [link] against every base; [link'] is a fixed
    point: [formatURL] returns [link'] for its own string form.  The
    proviso on the host is needed, and [link'] need not be [link] field
    by field: [ForceQuery], [RawPath] and an unset password are not kept
    by the string form. *)
Theorem formatURL_idempotent_on_strings
        (pageURL : URL) (rawURL : gostring) (link : URL) :
  formatURL pageURL rawURL = Returns (Some link) ->
  ~ In "#"%char (RawQuery pageURL) ->
  is_ok (parseHost (escape (Host link) encodeHost)) = true ->
  ~ In "#"%char (RawQuery link)
  /\ exists link',
      String link' = String link
      /\ forall base,
          formatURL base (String link) = Returns (Some link')
          /\ formatURL base (String link') = Returns (Some link').
Proof.
  intros F NB PH.
  destruct (formatURL_fields _ _ F NB) as (S & FR & NQ & NO & NOQ & OP & R).
  split; [exact NQ|].
  assert (X : exists r,
             Parse (String link) = Ok r /\ Scheme r = Scheme link
             /\ Fragment r = [] /\ RawQuery r = RawQuery link
             /\ String r = String link
             /\ forall base, ResolveReference base r = r).
  { destruct (Opaque link) as [|c o] eqn:O.
    - apply reparse_hierarchical; auto.
    - apply reparse_opaque; auto; rewrite O; auto; discriminate. }
  destruct X as (r & P & SR & FRr & _ & ES & RR).
  exists r. split; [exact ES|].
  assert (G : forall base, formatURL base (String link) = Returns (Some r)).
  { intros base. rewrite (formatURL_of_Parse base _ P). rewrite RR.
    assert (T : gostring_eqb (Scheme r) (str "http")
                || gostring_eqb (Scheme r) (str "https") = true).
    { rewrite SR. destruct S as [-> | ->]; reflexivity. }
    rewrite T. rewrite (Fragment_clear r FRr). reflexivity. }
  intros base. split; [apply G|]. rewrite ES. apply G.
Qed.

Lemma formatURL_idempotent_on_strings_witness :
  ~ In "#"%char (RawQuery (mkURL (str "http") [] None (str "h.test")
                                 (str "/d/e") [] false (str "bq") []))
  /\ exists link',
      String link'
      = String (mkURL (str "http") [] None (str "h.test") (str "/d/e") []
                      true (str "bq") [])
      /\ forall base,
          formatURL base (String (mkURL (str "http") [] None (str "h.test")
                                        (str "/d/e") [] true (str "bq") []))
          = Returns (Some link')
          /\ formatURL base (String link') = Returns (Some link').
Proof.
  split.
  - cbn. intuition discriminate.
  - apply (@formatURL_idempotent_on_strings
             (mkURL (str "http") [] None (str "h.test") (str "/d/e") []
                    false (str "bq") [])
             (str "?")
             (mkURL (str "http") [] None (str "h.test") (str "/d/e") []
                    true (str "bq") [])).
    + vm_compute. reflexivity.
    + cbn. intuition discriminate.
    + vm_compute. reflexivity.
Defined.

(** Unconditional idempotence fails: [formatURL] returns [zone_link] for
    [zone_href], a link to an IPv6 literal with a non-ASCII byte in its
    zone, and panics on the string form of [zone_link], in which that
    byte is percent-encoded. *)
Lemma formatURL_fails_on_its_own_output :
  ~ (forall pageURL rawURL link base,
        formatURL pageURL rawURL = Returns (Some link) ->
        exists link',
          formatURL base (String link) = Returns (Some link')
          /\ String link' = String link).
Proof.
  intros H.
  destruct (H empty_URL zone_href zone_link empty_URL) as (link' & E & _).
  - vm_compute. reflexivity.
  - vm_compute in E. discriminate E.
Qed.

(** ** The shape of a normalized link *)

Lemma String_no_fragment (u : URL) :
  Scheme u = str "http" \/ Scheme u = str "https" ->
  Fragment u = [] ->
  ~ In "#"%char (RawQuery u) -> ~ In "#"%char (Opaque u) ->
  (Opaque u = [] -> resolved (EscapedPath u) = true) ->
  ~ In "#"%char (String u).
Proof.
  intros S F NQ NO R.
  assert (SN : Scheme u <> []) by (destruct S as [E|E]; rewrite E; discriminate).
  assert (H : exists body, String u = Scheme u ++ ":"%char :: body ++ query_suffix u
                           /\ ~ In "#"%char body).
  { destruct (Opaque u) as [|c o] eqn:O.
    - eexists. split.
      + apply String_hierarchical; auto. apply resolved_rooted. auto.
      + intros I. apply in_app_or in I. destruct I as [I|I].
        * destruct (negb (is_empty (Host u)) || negb (is_empty (Path u))
                    || match User_ u with Some _ => true | None => false end);
            [|destruct I].
          destruct I as [I|[I|I]]; [discriminate I|discriminate I|].
          revert I. apply authority_not_In. tauto.
        * revert I. apply (valid_path_no_query _ (EscapedPath_valid u)).
    - exists (c :: o). split; [|exact NO].
      rewrite <- O. apply String_opaque; auto. rewrite O. discriminate. }
  destruct H as (body & -> & NB).
  intros I. apply in_app_or in I. destruct I as [I|[I|I]].
  - revert I. apply scheme_not_In; auto.
  - discriminate I.
  - apply in_app_or in I. destruct I as [I|I]; [auto|].
    revert I. apply query_suffix_not_In. exact NQ.
Qed.

(** X14. The string form of a link [formatURL] returns, the key the
    crawler files it under, holds no ['#'], when the query of the page
    it was found on holds none. *)
Theorem formatURL_key_has_no_fragment
        (pageURL : URL) (rawURL : gostring) (link : URL) :
  formatURL pageURL rawURL = Returns (Some link) ->
  ~ In "#"%char (RawQuery pageURL) ->
  ~ In "#"%char (String link).
Proof.
  intros F NB.
  destruct (formatURL_fields _ _ F NB) as (S & FR & NQ & NO & _ & _ & R).
  apply String_no_fragment; assumption.
Qed.

Lemma formatURL_key_has_no_fragment_witness :
  ~ In "#"%char
      (String (mkURL (str "http") [] None (str "x.test") (str "/a/c") []
                     false (str "d") [])).
Proof.
  apply (@formatURL_key_has_no_fragment
           (mkURL (str "http") [] None (str "x.test") (str "/a/b") []
                  false [] [])
           (str "c?d#e")
           (mkURL (str "http") [] None (str "x.test") (str "/a/c") []
                  false (str "d") [])).
  - vm_compute. reflexivity.
  - intros I. exact I.
Defined.

(** X15. The path of a link [formatURL] returns is empty or rooted, and
    has no ["."] or [".."] segment left, whatever the page and the
    reference were; a link with an opaque part has no path to speak
    of. *)
Theorem formatURL_path_resolved
        (pageURL : URL) (rawURL : gostring) (link : URL) :
  formatURL pageURL rawURL = Returns (Some link) ->
  Opaque link = [] ->
  resolved (EscapedPath link) = true
  /\ (EscapedPath link = []
      \/ strings.HasPrefix (EscapedPath link) ["/"%char] = true).
Proof.
  intros F O. apply formatURL_Some in F. destruct F as (rel & UP & -> & _).
  unfold URL_Parse in UP.
  destruct (Parse rawURL) as [ref|e] eqn:P; cbn [bind] in UP; [|discriminate UP].
  apply Ok_inj in UP. subst rel.
  destruct (ResolveReference_fields pageURL ref) as (EO & _ & R).
  cbn [Opaque set_Fragment] in O. rewrite EO in O.
  replace (EscapedPath (set_Fragment (ResolveReference pageURL ref) []))
    with (EscapedPath (ResolveReference pageURL ref)) by reflexivity.
  split; [auto|]. apply resolved_rooted; auto.
Qed.

Lemma formatURL_path_resolved_witness :
  resolved (EscapedPath (mkURL (str "http") [] None (str "x.test")
                               (str "/c") [] false [] [])) = true
  /\ (EscapedPath (mkURL (str "http") [] None (str "x.test")
                         (str "/c") [] false [] []) = []
      \/ strings.HasPrefix
           (EscapedPath (mkURL (str "http") [] None (str "x.test")
                               (str "/c") [] false [] []))
           ["/"%char] = true).
Proof.
  apply (@formatURL_path_resolved
           (mkURL (str "http") [] None (str "x.test") (str "/a/b") []
                  false [] [])
           (str "../.././c")).
  - vm_compute. reflexivity.
  - reflexivity.
Defined.
